(** * go-calc: CloudSQL custom-tier arithmetic, embedded from [cmd/calc/main.go]

    The development follows the Go source function by function.  Go's [int]
    is the 64-bit two's-complement integer, modelled as [Z] with the
    wrap-around written out; Go's [float64] is IEEE 754 binary64, modelled
    with the executable specification of the Standard Library
    ([SpecFloat], precision 53, exponent bound 1024); strings are lists of
    characters. *)

From Stdlib Require Import Ascii String.
From Stdlib Require Import ZArith List Bool Lia Sorted.
From Stdlib Require Import Floats.SpecFloat.
Import ListNotations.

Local Open Scope Z_scope.

(* ------------------------------------------------------------------ *)
(** ** Go [int] *)

Module GoInt.

Definition min_int : Z := - 2 ^ 63.
Definition max_int : Z := 2 ^ 63 - 1.

Definition in_range (z : Z) : Prop := min_int <= z <= max_int.

Definition in_rangeb (z : Z) : bool := (min_int <=? z) && (z <=? max_int).

(** Two's-complement wrap-around of an exact result. *)
Definition wrap (z : Z) : Z := (z + 2 ^ 63) mod 2 ^ 64 - 2 ^ 63.

Definition add (a b : Z) : Z := wrap (a + b).
Definition mul (a b : Z) : Z := wrap (a * b).
(** Go's [/] and [%] truncate toward zero. *)
Definition div (a b : Z) : Z := wrap (Z.quot a b).
Definition rem (a b : Z) : Z := Z.rem a b.

End GoInt.

(* ------------------------------------------------------------------ *)
(** ** Go [float64] *)

Module F64.

Definition prec : Z := 53.
Definition emax : Z := 1024.

Definition float64 : Type := spec_float.

Definition mul (x y : float64) : float64 := SFmul prec emax x y.
Definition ltb (x y : float64) : bool := SFltb x y.

(** [float64(n)] for an [int] [n]: the nearest binary64, ties to even. *)
Definition of_int (n : Z) : float64 := binary_normalize prec emax n 0 false.

(** The integer part of a finite float (truncation toward zero). *)
Definition trunc (f : float64) : option Z :=
  match f with
  | S754_zero _ => Some 0
  | S754_finite s m e =>
      let a := if 0 <=? e then Z.pos m * 2 ^ e else Z.pos m / 2 ^ (- e) in
      Some (if s then - a else a)
  | _ => None
  end.

(** [int(f)]: truncation toward zero.  Where the truncated value does not
    fit an [int] (or [f] is NaN or infinite) the Go specification leaves
    the result to the implementation; the value taken here is the one the
    amd64 conversion instruction produces, the smallest [int]. *)
Definition to_int (f : float64) : Z :=
  match trunc f with
  | Some z => if GoInt.in_rangeb z then z else GoInt.min_int
  | None => GoInt.min_int
  end.

(** The constants of the source, as the compiler rounds them. *)
Definition c0_9 : float64 := S754_finite false 8106479329266893 (-53).
Definition c6_5 : float64 := S754_finite false 7318349394477056 (-50).
Definition c1024 : float64 := S754_finite false 4503599627370496 (-42).
Definition c3840 : float64 := S754_finite false 8444249301319680 (-41).

(** The number of binary digits of a positive integer. *)
Definition digits (k : positive) : Z := Z.pos (digits2_pos k).

(** The normal binary64 whose value is [k * 2 ^ e], for [k] of at most 53
    binary digits: the mantissa is [k] shifted up to 53 digits. *)
Definition normal (k : positive) (e : Z) : float64 :=
  S754_finite false (Z.to_pos (Z.pos k * 2 ^ (prec - digits k)))
    (e + digits k - prec).

End F64.

(* ------------------------------------------------------------------ *)
(** ** The constraint validator and the rounding engine *)

(** [int(0.9 * float64(cpu) * 1024)] *)
Definition minRamOf (cpu : Z) : Z :=
  F64.to_int (F64.mul (F64.mul F64.c0_9 (F64.of_int cpu)) F64.c1024).

(** [int(6.5 * float64(cpu) * 1024)] *)
Definition maxRamOf (cpu : Z) : Z :=
  F64.to_int (F64.mul (F64.mul F64.c6_5 (F64.of_int cpu)) F64.c1024).

Definition validateTier (cpu ram : Z) : bool :=
  if (cpu <? 1) || (cpu >? 96) then false
  else if negb (cpu =? 1) && negb (GoInt.rem cpu 2 =? 0) then false
  else if negb (GoInt.rem ram 256 =? 0) || (ram <? 3840) then false
  else
    let minRam := minRamOf cpu in
    let maxRam := maxRamOf cpu in
    (ram >=? minRam) && (ram <=? maxRam).

(** [((x + 255) / 256) * 256] *)
Definition roundUp256 (x : Z) : Z :=
  GoInt.mul (GoInt.div (GoInt.add x 255) 256) 256.

(** [(x / 256) * 256] *)
Definition roundDown256 (x : Z) : Z :=
  GoInt.mul (GoInt.div x 256) 256.

Definition nearestValidTier (cpu ram : Z) : Z * Z :=
  let cpu :=
    if cpu <? 1 then 1
    else if cpu >? 96 then 96
    else if negb (cpu =? 1) && negb (GoInt.rem cpu 2 =? 0)
         then GoInt.add cpu 1
    else cpu in
  let ram := roundUp256 ram in
  let ram := if ram <? 3840 then 3840 else ram in
  let minRAM := roundUp256 (minRamOf cpu) in
  let maxRAM := roundDown256 (maxRamOf cpu) in
  let ram := if ram <? minRAM then minRAM else ram in
  let ram := if ram >? maxRAM then maxRAM else ram in
  (cpu, ram).

(* ------------------------------------------------------------------ *)
(** ** The known-tier table and its two searches *)

Module KnownTier.
Record t : Type := mk { cpu : Z; ram : Z }.
End KnownTier.

Definition knownTiers : list KnownTier.t :=
  map (fun p => KnownTier.mk (fst p) (snd p))
    [ (1, 3840);
      (2, 7680); (2, 13312);
      (4, 15360); (4, 26624);
      (6, 23040); (6, 39936);
      (8, 30720); (8, 53248);
      (10, 38400); (10, 66560);
      (12, 46080); (12, 79872);
      (16, 61440); (16, 106496);
      (24, 92160); (24, 159744);
      (32, 122880); (32, 212992);
      (48, 184320); (48, 319488);
      (64, 245760); (64, 425984);
      (80, 307200); (80, 532480);
      (96, 368640); (96, 638976) ].

(** The test of the loop in [findNextKnownTier]. *)
Definition isAbove (cpu ram : Z) (t : KnownTier.t) : bool :=
  (KnownTier.cpu t >? cpu)
  || ((KnownTier.cpu t =? cpu) && (KnownTier.ram t >? ram)).

(** The test of the loop in [findPreviousKnownTier]. *)
Definition isBelow (cpu ram : Z) (t : KnownTier.t) : bool :=
  (KnownTier.cpu t <? cpu)
  || ((KnownTier.cpu t =? cpu) && (KnownTier.ram t <? ram)).

(** [for _, t := range table { if ... { return t.cpu, t.ram, true } }
     return 0, 0, false] *)
Fixpoint findNextIn (table : list KnownTier.t) (cpu ram : Z) : Z * Z * bool :=
  match table with
  | [] => (0, 0, false)
  | t :: rest =>
      if isAbove cpu ram t then (KnownTier.cpu t, KnownTier.ram t, true)
      else findNextIn rest cpu ram
  end.

Definition findNextKnownTier (cpu ram : Z) : Z * Z * bool :=
  findNextIn knownTiers cpu ram.

(** [for i := n - 1; i >= 0; i-- { t := table[i]; ... }]: the argument [n]
    counts the indices still to visit.  An index outside the table would
    panic in Go; the loop never produces one ([findPrevFrom_in_bounds]). *)
Fixpoint findPrevFrom (table : list KnownTier.t) (n : nat) (cpu ram : Z)
  : option (Z * Z * bool) :=
  match n with
  | O => Some (0, 0, false)
  | S i =>
      match nth_error table i with
      | None => None
      | Some t =>
          if isBelow cpu ram t then Some (KnownTier.cpu t, KnownTier.ram t, true)
          else findPrevFrom table i cpu ram
      end
  end.

Definition findPreviousKnownTier (cpu ram : Z) : option (Z * Z * bool) :=
  findPrevFrom knownTiers (length knownTiers) cpu ram.

(* ------------------------------------------------------------------ *)
(** ** The [-bump-mem] branch of [main] *)

(** Which of the three reports the branch prints. *)
Inductive BumpRelation : Type :=
| AlreadyMax         (* [int(ramMB) == r] *)
| AlreadyExceedsMax  (* [int(ramMB) < r] *)
| Bumped.            (* otherwise *)

(** The computation between the successful [parseTier] and the printing:
    the pair formatted into [newTier] and the report chosen. *)
Definition bumpMem (c r : Z) : (Z * Z) * BumpRelation :=
  let ramMB := F64.mul (F64.mul (F64.of_int c) F64.c6_5) F64.c1024 in
  let ramMB := F64.of_int (roundDown256 (F64.to_int ramMB)) in
  let ramMB := if F64.ltb ramMB F64.c3840 then F64.c3840 else ramMB in
  let newTier := (c, F64.to_int ramMB) in
  if F64.to_int ramMB =? r then (newTier, AlreadyMax)
  else if F64.to_int ramMB <? r then (newTier, AlreadyExceedsMax)
  else (newTier, Bumped).

(** The float held in [ramMB] after the rounding step of the bump branch. *)
Definition bumpRamMB (c : Z) : F64.float64 :=
  F64.of_int
    (roundDown256
       (F64.to_int (F64.mul (F64.mul (F64.of_int c) F64.c6_5) F64.c1024))).

(** [int(ramMB)] once the floor of 3840 has been applied. *)
Definition bumpedRam (c : Z) : Z :=
  F64.to_int
    (if F64.ltb (bumpRamMB c) F64.c3840 then F64.c3840 else bumpRamMB c).

(* ------------------------------------------------------------------ *)
(** ** Strings

    A Go string is modelled by the list of its characters; the inputs of
    interest are ASCII, where bytes and runes coincide. *)

Definition gostring : Type := list ascii.

Definition lit (s : string) : gostring := list_ascii_of_string s.

Inductive result (A E : Type) : Type :=
| Ok (a : A)
| Err (e : E).

Arguments Ok {A E} a.
Arguments Err {A E} e.

(** [a == b] on strings. *)
Definition strEq (a : gostring) (b : string) : bool :=
  if list_eq_dec ascii_dec a (lit b) then true else false.

Definition charIn (r : ascii) (ok : gostring) : bool :=
  existsb (Ascii.eqb r) ok.

(** ['0' <= a && a <= '9'] *)
Definition isDigit (a : ascii) : bool :=
  ((48 <=? N_of_ascii a) && (N_of_ascii a <=? 57))%N.

Definition digitValue (a : ascii) : Z := Z.of_N (N_of_ascii a) - 48.

Definition digitChar (d : Z) : ascii := ascii_of_N (Z.to_N (d + 48)).

(** The value of a run of decimal digits, most significant first. *)
Definition digitsValue (ds : gostring) : Z :=
  fold_left (fun n ch => n * 10 + digitValue ch) ds 0.

(* ------------------------------------------------------------------ *)
(** ** [strconv.Atoi] and the [%d] verb of [fmt.Sprintf] *)

(** [strconv.Atoi]: an optional sign, then one or more decimal digits; an
    error ([None]) on any other character, on the absence of digits and on a
    value outside [int]. *)
Definition Atoi (s : gostring) : option Z :=
  let '(neg, ds) :=
    match s with
    | c :: rest =>
        if Ascii.eqb c "-" then (true, rest)
        else if Ascii.eqb c "+" then (false, rest)
        else (false, s)
    | [] => (false, s)
    end in
  match ds with
  | [] => None
  | _ :: _ =>
      if forallb isDigit ds then
        let n := digitsValue ds in
        let v := if neg then - n else n in
        if GoInt.in_rangeb v then Some v else None
      else None
  end.

(** The digit loop of the integer formatter: digits are produced from the
    least significant one into a buffer that holds any 64-bit value. *)
Fixpoint fmtDigits (room : nat) (u : Z) (buf : gostring) : gostring :=
  match room with
  | O => buf
  | S room' =>
      if 10 <=? u then fmtDigits room' (u / 10) (digitChar (u mod 10) :: buf)
      else digitChar u :: buf
  end.

(** [%d] applied to an [int]. *)
Definition formatInt (v : Z) : gostring :=
  if v <? 0 then "-"%char :: fmtDigits 20 (- v) [] else fmtDigits 20 v [].

(** [fmt.Sprintf("db-custom-%d-%d", c, r)] *)
Definition formatTier (c r : Z) : gostring :=
  lit "db-custom-" ++ formatInt c ++ lit "-" ++ formatInt r.

(* ------------------------------------------------------------------ *)
(** ** The regular expression of [parseTier]

    [db-custom-(\d+)-(\d+)] is a sequence of literal characters and of
    capturing groups of one or more ASCII digits.  The matcher below is the
    leftmost-first (backtracking) semantics of Go's [regexp] on such a
    sequence: a group tries the longest run of digits first and gives digits
    back one at a time while the rest of the pattern fails. *)

Inductive reItem : Type :=
| ReChar (c : ascii)   (* a literal character *)
| ReDigits.            (* the capturing group [(\d+)] *)

Definition tierRegexp : list reItem :=
  map ReChar (lit "db-custom-") ++ [ReDigits; ReChar "-"; ReDigits].

(** The length of the run of digits at the head of a string. *)
Fixpoint digitRun (s : gostring) : nat :=
  match s with
  | a :: s' => if isDigit a then S (digitRun s') else O
  | [] => O
  end.

(** A capturing group of digits followed by the rest of a pattern, whose
    matcher is [rest]: the group takes [k] digits, then [k - 1], ... down to
    one, until the rest of the pattern matches what follows. *)
Fixpoint tryLengths (rest : gostring -> option (gostring * list gostring))
    (s : gostring) (k : nat) : option (gostring * list gostring) :=
  match k with
  | O => None
  | S k' =>
      match rest (skipn k s) with
      | Some (w, caps) => Some (firstn k s ++ w, firstn k s :: caps)
      | None => tryLengths rest s k'
      end
  end.

(** A match of [re] anchored at the head of [s]: the matched text and the
    captured groups. *)
Fixpoint matchAt (re : list reItem) (s : gostring)
  : option (gostring * list gostring) :=
  match re with
  | [] => Some ([], [])
  | ReChar c :: re' =>
      match s with
      | a :: s' =>
          if Ascii.eqb a c then
            match matchAt re' s' with
            | Some (w, caps) => Some (a :: w, caps)
            | None => None
            end
          else None
      | [] => None
      end
  | ReDigits :: re' => tryLengths (matchAt re') s (digitRun s)
  end.

(** [re.FindStringSubmatch(s)]: the leftmost match, as the matched text
    followed by the captured groups; the empty slice when nothing matches. *)
Fixpoint FindStringSubmatch (re : list reItem) (s : gostring) : list gostring :=
  match matchAt re s with
  | Some (w, caps) => w :: caps
  | None =>
      match s with
      | [] => []
      | _ :: s' => FindStringSubmatch re s'
      end
  end.

Inductive tierError : Type :=
| InvalidTierFormat    (* "invalid tier format" *)
| InvalidTierNumbers.  (* "invalid tier numbers" *)

Definition parseTier (tier : gostring) : result (Z * Z) tierError :=
  let matches := FindStringSubmatch tierRegexp tier in
  if negb (length matches =? 3)%nat then Err InvalidTierFormat
  else
    match Atoi (nth 1 matches []), Atoi (nth 2 matches []) with
    | Some cpu, Some ram => Ok (cpu, ram)
    | _, _ => Err InvalidTierNumbers
    end.

(* ------------------------------------------------------------------ *)
(** ** [fmt.Sscanf] with the format ["%f%s"], and [parseMem] *)

(** [fmt]'s [isSpace] on the ASCII range: tab, newline, vertical tab, form
    feed, carriage return and space. *)
Definition isSpace (r : ascii) : bool :=
  (((9 <=? N_of_ascii r) && (N_of_ascii r <=? 13)) || (N_of_ascii r =? 32))%N.

Inductive scanError : Type :=
| UnexpectedNewline  (* a newline where [Sscanf] skips spaces *)
| ScanEOF            (* an operand is due and the input is exhausted *)
| BadNumber.         (* the float token does not convert *)

(** [ss.SkipSpace] as [Sscanf] runs it (newlines are not spaces): the
    input left, or the error raised on a newline. *)
Fixpoint SkipSpace (s : gostring) : result gostring scanError :=
  match s with
  | [] => Ok []
  | r :: s' =>
      if Ascii.eqb r "013"
         && match s' with c :: _ => Ascii.eqb c "010" | [] => false end
      then SkipSpace s'
      else if Ascii.eqb r "010" then Err UnexpectedNewline
      else if isSpace r then SkipSpace s'
      else Ok s
  end.

(** The scanner state while a token is read: the token so far and the
    input left. *)
Definition tokenState : Type := (gostring * gostring)%type.

(** [ss.accept]: consume the next character when it is one of [ok]. *)
Definition accept (ok : string) (st : tokenState) : bool * tokenState :=
  match snd st with
  | r :: rest =>
      if charIn r (lit ok) then (true, (fst st ++ [r], rest)) else (false, st)
  | [] => (false, st)
  end.

(** [for s.accept(ok) {}] *)
Fixpoint acceptAll (ok : string) (buf input : gostring) : tokenState :=
  match input with
  | r :: rest =>
      if charIn r (lit ok) then acceptAll ok (buf ++ [r]) rest
      else (buf, input)
  | [] => (buf, input)
  end.

(** [a && b] on accepts: the second runs only when the first succeeded. *)
Definition andAccept (ok : string) (prev : bool * tokenState)
  : bool * tokenState :=
  if fst prev then accept ok (snd prev) else prev.

(** [ss.floatToken]: the text of a floating-point number at the head of
    the input, and the input left after it. *)
Definition floatToken (input : gostring) : tokenState :=
  let st := ([], input) in
  (* NaN? *)
  let nan := andAccept "nN" (andAccept "aA" (accept "nN" st)) in
  if fst nan then snd nan
  else
    (* leading sign? *)
    let st := snd (accept "+-" (snd nan)) in
    (* Inf? *)
    let inf := andAccept "fF" (andAccept "nN" (accept "iI" st)) in
    if fst inf then snd inf
    else
      let hex := andAccept "xX" (accept "0" (snd inf)) in
      let digits :=
        if fst hex then "0123456789aAbBcCdDeEfF_"%string
        else "0123456789_"%string in
      let exp := if fst hex then "pP"%string else "eEpP"%string in
      (* digits? *)
      let st := acceptAll digits (fst (snd hex)) (snd (snd hex)) in
      (* decimal point? fraction? *)
      let point := accept "." st in
      let st :=
        if fst point
        then acceptAll digits (fst (snd point)) (snd (snd point))
        else snd point in
      (* exponent? leading sign? digits? *)
      let e := accept exp st in
      if fst e then
        let st := snd (accept "+-" (snd e)) in
        acceptAll "0123456789_" (fst st) (snd st)
      else snd e.

(** The word read by [%s]: the characters up to the next space. *)
Fixpoint wordToken (input : gostring) : gostring :=
  match input with
  | r :: rest => if isSpace r then [] else r :: wordToken rest
  | [] => []
  end.

Inductive memError : Type :=
| EmptyMemoryString              (* "empty memory string" *)
| InvalidMemoryFormat            (* "invalid memory format" *)
| InvalidUnit (unit : gostring). (* "invalid unit: %s" *)

Section ParseMem.

(** [ss.convertFloat]: the conversion of a float token to a [float64]
    ([strconv.ParseFloat], with [fmt]'s extension for binary exponents);
    [None] is its error. *)
Variable convertFloat : gostring -> option F64.float64.

(** What [fmt.Sscanf(str, "%f%s", &value, &unit)] leaves behind: the
    count of operands stored, the two variables and the error.  [value]
    and [unit] start at their zero values. *)
Record scanned : Type := mkScanned {
  scan_n : nat;
  scan_value : F64.float64;
  scan_unit : gostring;
  scan_err : option scanError
}.

Definition Sscanf_f_s (str : gostring) : scanned :=
  let value := S754_zero false in
  let unit := [] in
  (* verb %f: skip spaces, then an operand must be present *)
  match SkipSpace str with
  | Err e => mkScanned 0 value unit (Some e)
  | Ok [] => mkScanned 0 value unit (Some ScanEOF)
  | Ok input =>
      let '(token, input) := floatToken input in
      match convertFloat token with
      | None => mkScanned 0 value unit (Some BadNumber)
      | Some value =>
          (* verb %s: skip spaces, then an operand must be present *)
          match SkipSpace input with
          | Err e => mkScanned 1 value unit (Some e)
          | Ok [] => mkScanned 1 value unit (Some ScanEOF)
          | Ok input => mkScanned 2 value (wordToken input) None
          end
      end
  end.

Definition parseMem (memStr : gostring)
  : result F64.float64 memError :=
  match memStr with
  | [] => Err EmptyMemoryString
  | _ :: _ =>
      let s := Sscanf_f_s memStr in
      match scan_err s with
      | Some _ => Err InvalidMemoryFormat
      | None =>
          if (scan_n s <? 1)%nat then Err InvalidMemoryFormat
          else
            let unit := scan_unit s in
            if strEq unit "G" || strEq unit "g"
            then Ok (F64.mul (scan_value s) F64.c1024)
            else if strEq unit "M" || strEq unit "m" || strEq unit EmptyString
            then Ok (scan_value s)
            else Err (InvalidUnit unit)
      end
  end.

End ParseMem.

(* ------------------------------------------------------------------ *)
(** ** The rules of the validator in exact integer arithmetic *)

(** Truncation toward zero of the exact product [0.9 * vcpu * 1024]. *)
Definition lowerBound (vcpu : Z) : Z := Z.quot (9 * vcpu * 1024) 10.

(** Truncation toward zero of the exact product [6.5 * vcpu * 1024]. *)
Definition upperBound (vcpu : Z) : Z := Z.quot (65 * vcpu * 1024) 10.

(** The bump target in exact arithmetic: the truncation of
    [6.5 * vcpu * 1024], rounded down to a multiple of 256, floored at 3840. *)
Definition bumpMaxRam (vcpu : Z) : Z :=
  Z.max 3840 (256 * (upperBound vcpu / 256)).

Record IsValidSpec (vcpu memory_mb : Z) : Prop := {
  rule_range : 1 <= vcpu <= 96;
  rule_parity : vcpu = 1 \/ Z.even vcpu = true;
  rule_granularity : memory_mb mod 256 = 0;
  rule_floor : 3840 <= memory_mb;
  rule_min_ratio : lowerBound vcpu <= memory_mb;
  rule_max_ratio : memory_mb <= upperBound vcpu
}.

(** The tuple order on (vcpu, memory_mb). *)
Definition tupleLt (a b : Z * Z) : Prop :=
  fst a < fst b \/ (fst a = fst b /\ snd a < snd b).

Definition tierPair (t : KnownTier.t) : Z * Z :=
  (KnownTier.cpu t, KnownTier.ram t).

Definition tupleLtb (a b : Z * Z) : bool :=
  (fst a <? fst b) || ((fst a =? fst b) && (snd a <? snd b)).

(** Each entry is below its successor in the tuple order. *)
Fixpoint ascendingb (l : list KnownTier.t) : bool :=
  match l with
  | a :: (b :: _) as rest => tupleLtb (tierPair a) (tierPair b) && ascendingb rest
  | _ => true
  end.

(** The first entry passing a test splits the table: nothing before it
    passes. *)
Definition FirstMatch (P : KnownTier.t -> Prop) (table : list KnownTier.t)
    (t : KnownTier.t) : Prop :=
  exists before after,
    table = before ++ t :: after /\ Forall (fun u => ~ P u) before /\ P t.

(** The last entry passing a test: nothing after it passes. *)
Definition LastMatch (P : KnownTier.t -> Prop) (table : list KnownTier.t)
    (t : KnownTier.t) : Prop :=
  exists before after,
    table = before ++ t :: after /\ Forall (fun u => ~ P u) after /\ P t.

(** [t.cpu > cpu || (t.cpu == cpu && t.ram > ram)] *)
Definition Above (cpu ram : Z) (t : KnownTier.t) : Prop :=
  KnownTier.cpu t > cpu \/ (KnownTier.cpu t = cpu /\ KnownTier.ram t > ram).

(** [t.cpu < cpu || (t.cpu == cpu && t.ram < ram)] *)
Definition Below (cpu ram : Z) (t : KnownTier.t) : Prop :=
  KnownTier.cpu t < cpu \/ (KnownTier.cpu t = cpu /\ KnownTier.ram t < ram).

(** The tuple order on table entries. *)
Definition tierLt (a b : KnownTier.t) : Prop := tupleLt (tierPair a) (tierPair b).

(** A forward scan returning the first entry that passes [test], in the
    shape of the results of the two searches. *)
Fixpoint scan (test : KnownTier.t -> bool) (l : list KnownTier.t)
  : Z * Z * bool :=
  match l with
  | [] => (0, 0, false)
  | t :: rest =>
      if test t then (KnownTier.cpu t, KnownTier.ram t, true)
      else scan test rest
  end.

(** The vCPU adjustment at the head of [nearestValidTier]. *)
Definition fixCpu (cpu : Z) : Z := fst (nearestValidTier cpu 0).

(** The integers [lo], [lo + 1], ..., [lo + n - 1]. *)
Definition Zinterval (lo : Z) (n : nat) : list Z :=
  map (fun i => lo + Z.of_nat i) (seq 0 n).

(** One step of reading a decimal number. *)
Definition decStep (n : Z) (ch : ascii) : Z := n * 10 + digitValue ch.

(** One or more decimal digits. *)
Definition allDigits (ds : gostring) : Prop :=
  ds <> [] /\ forallb isDigit ds = true.

(** The text [db-custom-<d1>-<d2>]. *)
Definition tierText (d1 d2 : gostring) : gostring :=
  lit "db-custom-" ++ d1 ++ lit "-" ++ d2.

(** An occurrence of [db-custom-<digits>-<digits>] starts at the head. *)
Definition TierAt (s : gostring) : Prop :=
  exists d1 d2 rest,
    allDigits d1 /\ allDigits d2 /\ s = tierText d1 d2 ++ rest.

(* ------------------------------------------------------------------ *)
(** ** The remaining functions of [main.go] *)

Definition c1_5 : F64.float64 := S754_finite false 6755399441055744 (-52).

Definition f64div (x y : F64.float64) : F64.float64 :=
  SFdiv F64.prec F64.emax x y.

(** [math.Ceil]: the least integer-valued float at or above [x]; zeros,
    infinities and NaN are returned as they are, and a negative [x] above
    [-1] gives the negative zero. *)
Definition Ceil (x : F64.float64) : F64.float64 :=
  match x with
  | S754_finite s m e =>
      if 0 <=? e then x
      else
        let d := Z.pos m / 2 ^ (- e) in
        let frac := Z.pos m mod 2 ^ (- e) in
        if s then (if d =? 0 then S754_zero true else F64.of_int (- d))
        else F64.of_int (if frac =? 0 then d else d + 1)
  | _ => x
  end.

(** The first parameter of the source is the blank identifier. *)
Definition suggestNextTier (_ ram : Z) : Z * Z :=
  let cpusNeeded := f64div (f64div (F64.of_int ram) c1_5) F64.c1024 in
  let cpusNext := F64.to_int (Ceil cpusNeeded) in
  let ramNext :=
    F64.to_int (F64.mul (F64.mul (F64.of_int cpusNext) c1_5) F64.c1024) in
  let ramNext := roundUp256 ramNext in
  let ramNext := if ramNext <? 3840 then 3840 else ramNext in
  (cpusNext, ramNext).

(** The [-t] branch of [main], after the tier has been parsed: what it
    prints. *)
Inductive tierReport : Type :=
| NextKnown (cpu ram : Z)   (* "Next known working custom tier" *)
| AlreadyValid              (* "This is already a valid custom tier." *)
| NextValid (cpu ram : Z).  (* "Next valid custom tier" *)

Definition tierBranch (c r : Z) : tierReport :=
  let '(nextCPU, nextRAM, found) := findNextKnownTier c r in
  if found then NextKnown nextCPU nextRAM
  else
    let '(cpusNext, ramNext) := suggestNextTier c r in
    if (cpusNext =? c) && (ramNext =? r) then AlreadyValid
    else NextValid cpusNext ramNext.

(** The [-cpu] branch of [main], entered when [*cpu > 0]: the pair
    formatted into the recommended tier. *)
Definition cpuBranch (cpu : F64.float64) : Z * Z :=
  let ramMB := F64.mul (F64.mul cpu c1_5) F64.c1024 in
  let ramMB := F64.of_int (roundUp256 (F64.to_int ramMB)) in
  let ramMB := if F64.ltb ramMB F64.c3840 then F64.c3840 else ramMB in
  (F64.to_int cpu, F64.to_int ramMB).

Definition c1 : F64.float64 := S754_finite false 4503599627370496 (-52).

(** [math.Round]: the nearest integer-valued float, halves away from zero;
    zeros, infinities and NaN are returned as they are, and what rounds to
    zero keeps its sign. *)
Definition Round (x : F64.float64) : F64.float64 :=
  match x with
  | S754_finite s m e =>
      if 0 <=? e then x
      else
        let d := Z.pos m / 2 ^ (- e) in
        let frac := Z.pos m mod 2 ^ (- e) in
        let r := if 2 ^ (- e) <=? 2 * frac then d + 1 else d in
        if r =? 0 then S754_zero s
        else F64.of_int (if s then - r else r)
  | _ => x
  end.

(** The [-mem] branch of [main], after [parseMem] has succeeded: the pair
    formatted into the recommended tier, and whether the warning is
    printed. *)
Definition memBranch (memMB : F64.float64) : Z * Z * bool :=
  let memMB := F64.of_int (roundUp256 (F64.to_int memMB)) in
  let memMB := if F64.ltb memMB F64.c3840 then F64.c3840 else memMB in
  let cpus := f64div (f64div memMB c1_5) F64.c1024 in
  let cpusRounded := Round cpus in
  let cpusRounded := if F64.ltb cpusRounded c1 then c1 else cpusRounded in
  (F64.to_int cpusRounded, F64.to_int memMB,
   negb (validateTier (F64.to_int cpusRounded) (F64.to_int memMB))).

(** The [-check-downgrade] branch of [main], after the two tiers have been
    parsed: the lines it prints below the two tier descriptions. *)
Record downgradeReport : Type := mkDowngradeReport {
  dr_validCurr : bool;                    (* "Valid: %t" of the current tier *)
  dr_validRec : bool;                     (* "Valid: %t" of the recommended *)
  dr_yes : bool;                          (* "Valid downgrade: Yes" / "No" *)
  dr_nearest : option (Z * Z);            (* "Nearest valid tier" *)
  dr_nearestLower : bool;                 (* "This adjusted tier is a valid
                                             downgrade." *)
  dr_notLower : bool;                     (* "Recommended tier is not lower
                                             than the current tier." *)
  dr_knownLower : option (option (Z * Z)) (* "Suggested known lower tier", or
                                             "No lower tier found" *)
}.

(** [None] stands for the panic of an index out of the table, which
    [findPreviousKnownTier] never raises. *)
Definition checkDowngrade (currCPU currRAM recCPU recRAM : Z)
  : option downgradeReport :=
  let isValidCurr := validateTier currCPU currRAM in
  let isValidRec := validateTier recCPU recRAM in
  let isLower :=
    (recCPU <? currCPU) || ((recCPU =? currCPU) && (recRAM <? currRAM)) in
  if isValidRec && isLower then
    Some (mkDowngradeReport isValidCurr isValidRec true None false false None)
  else
    let '(adjCPU, adjRAM) := nearestValidTier recCPU recRAM in
    let adjLower :=
      (adjCPU <? currCPU) || ((adjCPU =? currCPU) && (adjRAM <? currRAM)) in
    match findPreviousKnownTier currCPU currRAM with
    | None => None
    | Some (nextCPU, nextRAM, found) =>
        Some (mkDowngradeReport isValidCurr isValidRec false
                (if isValidRec then None else Some (adjCPU, adjRAM))
                (negb isValidRec && adjLower)
                (negb isLower)
                (Some (if found then Some (nextCPU, nextRAM) else None)))
    end.

(** A byte of the ASCII range; on a string of such bytes the runes that
    [fmt] decodes are the bytes themselves. *)
Definition isASCII (a : ascii) : bool := (N_of_ascii a <? 128)%N.

(** The vCPU counts the validator accepts. *)
Definition ValidCpu (c : Z) : Prop :=
  1 <= c <= 96 /\ (c = 1 \/ Z.even c = true).

(** The weak tuple order. *)
Definition tupleLe (a b : Z * Z) : Prop := a = b \/ tupleLt a b.

(** The least multiple of 256 at or above the exact lower bound. *)
Definition minRamSpec (c : Z) : Z := 256 * ((lowerBound c + 255) / 256).

(* ================================================================== *)
(** * Proofs *)

(* ------------------------------------------------------------------ *)
(** ** Checking a property on an interval of integers *)

Lemma Zinterval_complete (lo : Z) (n : nat) (z : Z) :
  lo <= z < lo + Z.of_nat n -> In z (Zinterval lo n).
Proof.
  intros Hz. unfold Zinterval. apply in_map_iff.
  exists (Z.to_nat (z - lo)). split; [lia|].
  apply in_seq. lia.
Qed.

Lemma forallb_Zinterval (P : Z -> bool) (lo : Z) (n : nat) :
  forallb P (Zinterval lo n) = true ->
  forall z, lo <= z < lo + Z.of_nat n -> P z = true.
Proof.
  intros H z Hz. rewrite forallb_forall in H.
  apply H, Zinterval_complete, Hz.
Qed.

(* ------------------------------------------------------------------ *)
(** ** The float bounds on the vCPU range are the exact truncations *)

Lemma ratio_bounds_exact (cpu : Z) :
  1 <= cpu <= 96 ->
  minRamOf cpu = lowerBound cpu /\ maxRamOf cpu = upperBound cpu.
Proof.
  intros Hc.
  pose (P := fun c => (minRamOf c =? lowerBound c) && (maxRamOf c =? upperBound c)).
  assert (HP : P cpu = true).
  { apply (forallb_Zinterval P 1 96); [vm_compute; reflexivity | lia]. }
  unfold P in HP. apply andb_true_iff in HP. destruct HP as [H1 H2].
  split; apply Z.eqb_eq; assumption.
Qed.

Lemma lowerBound_eq (cpu : Z) : 0 <= cpu -> lowerBound cpu = 9216 * cpu / 10.
Proof.
  intros H. unfold lowerBound. rewrite Z.quot_div_nonneg by lia.
  f_equal. lia.
Qed.

Lemma upperBound_eq (cpu : Z) : upperBound cpu = 6656 * cpu.
Proof.
  unfold upperBound.
  replace (65 * cpu * 1024) with (6656 * cpu * 10) by lia.
  apply Z.quot_mul. lia.
Qed.

Lemma rem_zero_iff_mod_zero (a b : Z) :
  b <> 0 -> (GoInt.rem a b = 0 <-> a mod b = 0).
Proof. intros Hb. unfold GoInt.rem. apply Z.rem_mod_eq_0, Hb. Qed.

Lemma odd_test_iff_even (cpu : Z) :
  (GoInt.rem cpu 2 =? 0) = Z.even cpu.
Proof.
  rewrite Zeven_mod. apply eq_true_iff_eq.
  rewrite !Z.eqb_eq. apply rem_zero_iff_mod_zero. lia.
Qed.

Lemma rem_test_mod (a b : Z) :
  b <> 0 -> (GoInt.rem a b =? 0) = (a mod b =? 0).
Proof.
  intros Hb. apply eq_true_iff_eq. rewrite !Z.eqb_eq.
  apply rem_zero_iff_mod_zero, Hb.
Qed.

(** The chain of early returns as one conjunction. *)
Lemma validateTier_conj (cpu ram : Z) :
  validateTier cpu ram =
  (1 <=? cpu) && (cpu <=? 96) && ((cpu =? 1) || Z.even cpu)
  && (ram mod 256 =? 0) && (3840 <=? ram)
  && ((minRamOf cpu <=? ram) && (ram <=? maxRamOf cpu)).
Proof.
  unfold validateTier.
  rewrite odd_test_iff_even, (rem_test_mod ram 256) by lia.
  rewrite Z.geb_leb, Z.gtb_ltb.
  rewrite (Z.ltb_antisym 1 cpu), (Z.ltb_antisym cpu 96), (Z.ltb_antisym 3840 ram).
  destruct (1 <=? cpu), (cpu <=? 96), (cpu =? 1), (Z.even cpu),
    (ram mod 256 =? 0), (3840 <=? ram); reflexivity.
Qed.

Lemma validateTier_rules (cpu ram : Z) :
  validateTier cpu ram = true <-> IsValidSpec cpu ram.
Proof.
  rewrite validateTier_conj.
  rewrite !andb_true_iff, orb_true_iff, !Z.leb_le, !Z.eqb_eq.
  split.
  - intros [[[[[Hlo Hhi] Hpar] Hg] Hf] [Hmin Hmax]].
    destruct (ratio_bounds_exact cpu (conj Hlo Hhi)) as [Emin Emax].
    rewrite Emin in Hmin. rewrite Emax in Hmax.
    constructor; auto.
  - intros [[Hlo Hhi] Hpar Hg Hf Hmin Hmax].
    destruct (ratio_bounds_exact cpu (conj Hlo Hhi)) as [Emin Emax].
    rewrite Emin, Emax. repeat split; assumption.
Qed.

(** C1. [validateTier cpu ram] is true exactly when the six rules hold:
    [1 <= cpu <= 96]; [cpu = 1] or [cpu] even; [ram mod 256 = 0];
    [ram >= 3840]; [ram] at least the truncation toward zero of
    [0.9 * cpu * 1024]; [ram] at most the truncation toward zero of
    [6.5 * cpu * 1024].  In particular (1, 3840) and (2, 3840) are valid. *)
Theorem validateTier_iff_rules :
  (forall cpu ram : Z, validateTier cpu ram = true <-> IsValidSpec cpu ram)
  /\ validateTier 1 3840 = true
  /\ validateTier 2 3840 = true.
Proof.
  split; [exact validateTier_rules | split; vm_compute; reflexivity].
Qed.

(* ------------------------------------------------------------------ *)
(** ** Wrap-around arithmetic *)

(** Goals that only say a value lies in the range of [int]. *)
Ltac int_range :=
  unfold GoInt.in_range, GoInt.min_int, GoInt.max_int in *; lia.

Lemma wrap_small (z : Z) : GoInt.in_range z -> GoInt.wrap z = z.
Proof.
  unfold GoInt.in_range, GoInt.wrap, GoInt.min_int, GoInt.max_int.
  intros H. rewrite Z.mod_small; lia.
Qed.

Lemma wrap_in_range (z : Z) : GoInt.in_range (GoInt.wrap z).
Proof.
  unfold GoInt.in_range, GoInt.wrap, GoInt.min_int, GoInt.max_int.
  pose proof (Z.mod_pos_bound (z + 2 ^ 63) (2 ^ 64) ltac:(lia)). lia.
Qed.

Lemma in_rangeb_iff (z : Z) : GoInt.in_rangeb z = true <-> GoInt.in_range z.
Proof.
  unfold GoInt.in_rangeb, GoInt.in_range.
  rewrite andb_true_iff, !Z.leb_le. reflexivity.
Qed.

(** Rounding any in-range value down to a multiple of 256 never wraps. *)
Lemma roundDown256_quot (x : Z) :
  GoInt.in_range x -> roundDown256 x = Z.quot x 256 * 256.
Proof.
  unfold roundDown256, GoInt.mul, GoInt.div, GoInt.in_range,
    GoInt.min_int, GoInt.max_int.
  intros Hx.
  assert (Hq : - 2 ^ 55 <= Z.quot x 256 <= 2 ^ 55).
  { Z.to_euclidean_division_equations. lia. }
  assert (Hm : - 2 ^ 63 <= Z.quot x 256 * 256 <= 2 ^ 63 - 1).
  { Z.to_euclidean_division_equations. lia. }
  rewrite (wrap_small (Z.quot x 256)).
  - apply wrap_small. exact Hm.
  - unfold GoInt.in_range, GoInt.min_int, GoInt.max_int. lia.
Qed.

Lemma roundUp256_quot (x : Z) :
  roundUp256 x = Z.quot (GoInt.add x 255) 256 * 256.
Proof.
  change (roundUp256 x) with (roundDown256 (GoInt.add x 255)).
  apply roundDown256_quot, wrap_in_range.
Qed.

Lemma roundUp256_multiple (x : Z) : roundUp256 x mod 256 = 0.
Proof. rewrite roundUp256_quot. apply Z.mod_mul. lia. Qed.

Lemma roundUp256_nonneg (x : Z) :
  0 <= x <= GoInt.max_int - 255 ->
  roundUp256 x = 256 * ((x + 255) / 256).
Proof.
  intros Hx. rewrite roundUp256_quot. unfold GoInt.add.
  rewrite wrap_small.
  - rewrite Z.quot_div_nonneg by lia. lia.
  - unfold GoInt.in_range, GoInt.min_int, GoInt.max_int in *. lia.
Qed.

Lemma roundUp256_fixed (x : Z) :
  0 <= x <= GoInt.max_int - 255 -> x mod 256 = 0 -> roundUp256 x = x.
Proof.
  intros Hx Hm. rewrite roundUp256_nonneg by assumption.
  Z.to_euclidean_division_equations. lia.
Qed.

(* ------------------------------------------------------------------ *)
(** ** The rounding engine *)

Lemma nearestValidTier_cpu (cpu ram : Z) :
  fst (nearestValidTier cpu ram) = fixCpu cpu.
Proof. reflexivity. Qed.

Lemma fixCpu_cases (cpu : Z) :
  (1 <= fixCpu cpu <= 96)
  /\ (fixCpu cpu = 1 \/ Z.even (fixCpu cpu) = true)
  /\ (1 <= cpu <= 96 -> (cpu = 1 \/ Z.even cpu = true) -> fixCpu cpu = cpu).
Proof.
  unfold fixCpu, nearestValidTier. cbn [fst].
  destruct (Z.ltb_spec cpu 1) as [Hlo | Hlo]; [repeat split; auto; lia|].
  destruct (Z.gtb_spec cpu 96) as [Hhi | Hhi];
    [repeat split; auto; try lia|].
  rewrite odd_test_iff_even.
  destruct (Z.eqb_spec cpu 1) as [H1 | H1]; cbn [negb andb];
    [repeat split; auto; lia|].
  destruct (Z.even cpu) eqn:Hev; cbn [negb].
  - repeat split; auto; lia.
  - unfold GoInt.add. rewrite wrap_small
      by int_range.
    assert (Hodd : Z.odd cpu = true) by (rewrite <- Z.negb_even, Hev; reflexivity).
    assert (Hne : cpu <> 96) by (intros ->; discriminate Hev).
    split; [lia|]. split.
    + right. rewrite Z.even_add, Hev. reflexivity.
    + intros _ [? | ?]; congruence.
Qed.

(** What the table of bounds looks like on the vCPU range, after rounding
    to the granularity. *)
Lemma rounded_bounds (cpu : Z) :
  1 <= cpu <= 96 ->
  let minRAM := roundUp256 (minRamOf cpu) in
  let maxRAM := roundDown256 (maxRamOf cpu) in
  minRAM = 256 * ((lowerBound cpu + 255) / 256)
  /\ maxRAM = upperBound cpu
  /\ lowerBound cpu <= minRAM <= maxRAM
  /\ 3840 <= maxRAM
  /\ maxRAM mod 256 = 0.
Proof.
  intros Hc. cbv zeta.
  destruct (ratio_bounds_exact cpu Hc) as [-> ->].
  rewrite upperBound_eq, lowerBound_eq by lia.
  assert (Hlb : 0 <= 9216 * cpu / 10 <= 9216 * cpu).
  { Z.to_euclidean_division_equations. lia. }
  rewrite roundUp256_nonneg by (unfold GoInt.max_int; lia).
  rewrite roundDown256_quot
    by int_range.
  replace (6656 * cpu) with (26 * cpu * 256) by lia.
  rewrite Z.quot_mul by lia.
  split; [reflexivity|]. split; [reflexivity|].
  split; [| split; [lia | apply Z.mod_mul; lia]].
  Z.to_euclidean_division_equations. lia.
Qed.

Lemma nearestValidTier_ram (cpu ram : Z) :
  snd (nearestValidTier cpu ram) =
  let c := fixCpu cpu in
  let minRAM := roundUp256 (minRamOf c) in
  let maxRAM := roundDown256 (maxRamOf c) in
  let r := roundUp256 ram in
  let r := if r <? 3840 then 3840 else r in
  let r := if r <? minRAM then minRAM else r in
  if r >? maxRAM then maxRAM else r.
Proof. reflexivity. Qed.

Lemma nearestValidTier_valid (cpu ram : Z) :
  IsValidSpec (fst (nearestValidTier cpu ram)) (snd (nearestValidTier cpu ram)).
Proof.
  rewrite nearestValidTier_cpu, nearestValidTier_ram. cbv zeta.
  destruct (fixCpu_cases cpu) as [Hc [Hpar _]].
  destruct (rounded_bounds (fixCpu cpu) Hc) as [_ [Emax [Hord [Hfloor Hgran]]]].
  pose proof (roundUp256_multiple (minRamOf (fixCpu cpu))) as Hgmin.
  pose proof (roundUp256_multiple ram) as Hgram.
  set (minRAM := roundUp256 (minRamOf (fixCpu cpu))) in *.
  set (maxRAM := roundDown256 (maxRamOf (fixCpu cpu))) in *.
  set (r1 := roundUp256 ram) in *.
  destruct (Z.ltb_spec r1 3840) as [H1 | H1];
    (match goal with
     | |- context [ (?a <? minRAM) ] => destruct (Z.ltb_spec a minRAM) as [H2 | H2]
     end);
    (match goal with
     | |- context [ (?a >? maxRAM) ] => destruct (Z.gtb_spec a maxRAM) as [H3 | H3]
     end);
    constructor; auto; try lia; reflexivity.
Qed.

(** A tier the validator accepts is returned unchanged. *)
Lemma nearestValidTier_fixes_valid (cpu ram : Z) :
  IsValidSpec cpu ram -> nearestValidTier cpu ram = (cpu, ram).
Proof.
  intros [Hc Hpar Hg Hf Hmin Hmax].
  rewrite (surjective_pairing (nearestValidTier cpu ram)).
  rewrite nearestValidTier_cpu, nearestValidTier_ram. cbv zeta.
  destruct (fixCpu_cases cpu) as [_ [_ Hfix]].
  rewrite (Hfix Hc Hpar).
  destruct (rounded_bounds cpu Hc) as [Emin [Emax _]].
  rewrite Emin, Emax.
  rewrite upperBound_eq in Hmax |- *.
  rewrite roundUp256_fixed by (unfold GoInt.max_int; lia).
  assert (Hlb : 0 <= lowerBound cpu).
  { rewrite lowerBound_eq by lia. Z.to_euclidean_division_equations. lia. }
  assert (Hge : 256 * ((lowerBound cpu + 255) / 256) <= ram).
  { Z.to_euclidean_division_equations. lia. }
  destruct (Z.ltb_spec ram 3840); [lia|].
  destruct (Z.ltb_spec ram (256 * ((lowerBound cpu + 255) / 256))); [lia|].
  destruct (Z.gtb_spec ram (6656 * cpu)); [lia|].
  reflexivity.
Qed.

(** C2. For every input pair the tier returned by [nearestValidTier] passes
    [validateTier]; its vCPU count is 1 or an even number in [2, 96], the
    odd-count increment never leaving the range: 95, 96 and 97 all give 96. *)
Theorem nearestValidTier_validates :
  (forall cpu ram : Z,
      validateTier (fst (nearestValidTier cpu ram))
                   (snd (nearestValidTier cpu ram)) = true)
  /\ (forall cpu ram : Z,
        let c := fst (nearestValidTier cpu ram) in
        c = 1 \/ (Z.even c = true /\ 2 <= c <= 96))
  /\ (forall ram : Z,
        fst (nearestValidTier 95 ram) = 96
        /\ fst (nearestValidTier 96 ram) = 96
        /\ fst (nearestValidTier 97 ram) = 96).
Proof.
  split; [| split].
  - intros cpu ram. apply validateTier_rules, nearestValidTier_valid.
  - intros cpu ram c. subst c.
    destruct (nearestValidTier_valid cpu ram) as [Hc [H1 | Hev] _ _ _ _].
    + left. exact H1.
    + destruct (Z.eq_dec (fst (nearestValidTier cpu ram)) 1) as [E | E].
      * left. exact E.
      * right. split; [exact Hev | lia].
  - intros ram. repeat split.
Qed.

(** C5. [nearestValidTier] is idempotent: applied to its own result it
    returns that result. *)
Theorem nearestValidTier_idempotent :
  forall v r : Z,
    nearestValidTier (fst (nearestValidTier v r)) (snd (nearestValidTier v r))
    = nearestValidTier v r.
Proof.
  intros v r.
  rewrite (nearestValidTier_fixes_valid _ _ (nearestValidTier_valid v r)).
  symmetry. apply surjective_pairing.
Qed.

(* ------------------------------------------------------------------ *)
(** ** The known-tier table *)

Lemma tupleLtb_iff (a b : Z * Z) : tupleLtb a b = true <-> tupleLt a b.
Proof.
  unfold tupleLtb, tupleLt.
  rewrite orb_true_iff, andb_true_iff, !Z.ltb_lt, Z.eqb_eq. reflexivity.
Qed.

Lemma tupleLt_trans (a b c : Z * Z) : tupleLt a b -> tupleLt b c -> tupleLt a c.
Proof. unfold tupleLt. lia. Qed.

Lemma tupleLt_irrefl (a : Z * Z) : ~ tupleLt a a.
Proof. unfold tupleLt. lia. Qed.

Lemma ascendingb_sorted (l : list KnownTier.t) :
  ascendingb l = true -> StronglySorted tierLt l.
Proof.
  intros H. apply Sorted_StronglySorted.
  - intros a b c. apply tupleLt_trans.
  - induction l as [| a [| b rest] IH].
    + constructor.
    + repeat constructor.
    + cbn [ascendingb] in H. apply andb_true_iff in H. destruct H as [Hab Hrest].
      constructor; [apply IH, Hrest |].
      constructor. apply tupleLtb_iff, Hab.
Qed.

(** C8. The known-tier table has exactly 27 entries, is strictly ascending
    in the tuple order on (vcpu, memory_mb), and every entry passes
    [validateTier]. *)
Theorem knownTiers_invariant :
  length knownTiers = 27%nat
  /\ StronglySorted tierLt knownTiers
  /\ Forall (fun t => validateTier (KnownTier.cpu t) (KnownTier.ram t) = true)
            knownTiers.
Proof.
  split; [reflexivity |]. split.
  - apply ascendingb_sorted. vm_compute. reflexivity.
  - apply Forall_forall. apply forallb_forall. vm_compute. reflexivity.
Qed.

(* ------------------------------------------------------------------ *)
(** ** The two searches *)

Lemma isAbove_iff (cpu ram : Z) (t : KnownTier.t) :
  isAbove cpu ram t = true <-> Above cpu ram t.
Proof.
  unfold isAbove, Above.
  rewrite orb_true_iff, andb_true_iff, !Z.gtb_gt, Z.eqb_eq. reflexivity.
Qed.

Lemma isBelow_iff (cpu ram : Z) (t : KnownTier.t) :
  isBelow cpu ram t = true <-> Below cpu ram t.
Proof.
  unfold isBelow, Below.
  rewrite orb_true_iff, andb_true_iff, !Z.ltb_lt, Z.eqb_eq. reflexivity.
Qed.

Section Scan.

Variable test : KnownTier.t -> bool.

Let P (t : KnownTier.t) : Prop := test t = true.

Lemma scan_found (l : list KnownTier.t) (c r : Z) :
  scan test l = (c, r, true) <-> FirstMatch P l (KnownTier.mk c r).
Proof.
  unfold FirstMatch, P. induction l as [| t rest IH]; cbn [scan].
  - split; [discriminate |].
    intros [before [after [E _]]]. destruct before; discriminate E.
  - destruct (test t) eqn:Ht.
    + split.
      * intros E. injection E as <- <-.
        exists [], rest. destruct t; cbn. repeat split; auto.
      * intros [before [after [E [Hb Hp]]]].
        destruct before as [| u before].
        -- cbn in E. injection E as -> _. reflexivity.
        -- cbn in E. injection E as -> _.
           apply Forall_inv in Hb. congruence.
    + rewrite IH. split.
      * intros [before [after [E [Hb Hp]]]].
        exists (t :: before), after. rewrite E.
        repeat split; auto. constructor; [congruence | exact Hb].
      * intros [before [after [E [Hb Hp]]]].
        destruct before as [| u before].
        -- cbn in E. injection E as -> _. congruence.
        -- cbn in E. injection E as _ ->.
           exists before, after. apply Forall_inv_tail in Hb.
           repeat split; auto.
Qed.

Lemma scan_not_found (l : list KnownTier.t) :
  snd (scan test l) = false <-> Forall (fun t => ~ P t) l.
Proof.
  unfold P. induction l as [| t rest IH]; cbn [scan].
  - split; [constructor | reflexivity].
  - destruct (test t) eqn:Ht; cbn [snd].
    + split; [discriminate |]. intros H. apply Forall_inv in H. congruence.
    + rewrite IH. split.
      * intros H. constructor; [congruence | exact H].
      * apply Forall_inv_tail.
Qed.

Lemma scan_not_found_value (l : list KnownTier.t) :
  snd (scan test l) = false -> scan test l = (0, 0, false).
Proof.
  induction l as [| t rest IH]; cbn [scan]; [reflexivity |].
  destruct (test t); [discriminate | exact IH].
Qed.

End Scan.

Lemma findNextIn_scan (table : list KnownTier.t) (cpu ram : Z) :
  findNextIn table cpu ram = scan (isAbove cpu ram) table.
Proof.
  induction table as [| t rest IH]; cbn; [reflexivity |].
  rewrite IH. reflexivity.
Qed.

Lemma firstn_snoc {A : Type} (l : list A) (i : nat) (x : A) :
  nth_error l i = Some x -> firstn (S i) l = firstn i l ++ [x].
Proof.
  revert i. induction l as [| a l IH]; intros [| i] H; try discriminate.
  - cbn in H. injection H as ->. reflexivity.
  - cbn in H. simpl. f_equal. apply IH, H.
Qed.

(** The descending index loop is a forward scan of the reversed prefix, and
    it never indexes outside the table. *)
Lemma findPrevFrom_scan (table : list KnownTier.t) (n : nat) (cpu ram : Z) :
  (n <= length table)%nat ->
  findPrevFrom table n cpu ram
  = Some (scan (isBelow cpu ram) (rev (firstn n table))).
Proof.
  induction n as [| i IH]; intros Hn; cbn [findPrevFrom].
  - reflexivity.
  - destruct (nth_error table i) as [t |] eqn:Ht.
    + rewrite (firstn_snoc _ _ _ Ht), rev_app_distr. cbn [rev app scan].
      destruct (isBelow cpu ram t); [reflexivity |].
      apply IH. lia.
    + apply nth_error_None in Ht. lia.
Qed.

Lemma findPrevFrom_in_bounds (cpu ram : Z) :
  findPreviousKnownTier cpu ram <> None.
Proof.
  unfold findPreviousKnownTier. rewrite findPrevFrom_scan by lia. discriminate.
Qed.

Lemma LastMatch_rev (P : KnownTier.t -> Prop) (l : list KnownTier.t)
    (t : KnownTier.t) :
  FirstMatch P (rev l) t <-> LastMatch P l t.
Proof.
  unfold FirstMatch, LastMatch. split.
  - intros [before [after [E [Hb Hp]]]].
    exists (rev after), (rev before).
    split; [| split; [apply Forall_rev, Hb | exact Hp]].
    rewrite <- (rev_involutive l), E, rev_app_distr. cbn [rev].
    rewrite <- app_assoc. reflexivity.
  - intros [before [after [E [Ha Hp]]]].
    exists (rev after), (rev before).
    split; [| split; [apply Forall_rev, Ha | exact Hp]].
    rewrite E, rev_app_distr. cbn [rev].
    rewrite <- app_assoc. reflexivity.
Qed.

Lemma Forall_not_iff {A : Type} (P Q : A -> Prop) (l : list A) :
  (forall a, P a <-> Q a) ->
  Forall (fun a => ~ P a) l <-> Forall (fun a => ~ Q a) l.
Proof.
  intros H. split; apply Forall_impl; intros a Ha Hq; apply Ha, H, Hq.
Qed.

Lemma FirstMatch_iff (P Q : KnownTier.t -> Prop) (l : list KnownTier.t)
    (t : KnownTier.t) :
  (forall a, P a <-> Q a) -> FirstMatch P l t <-> FirstMatch Q l t.
Proof.
  intros H. unfold FirstMatch.
  split; intros [before [after [E [Hb Hp]]]]; exists before, after;
    (split; [exact E | split; [eapply Forall_not_iff; eauto | apply H, Hp]]).
  intros a. symmetry. apply H.
Qed.

Section Searches.

Variable table : list KnownTier.t.
Variables cpu ram : Z.

Lemma findNextIn_found (c r : Z) :
  findNextIn table cpu ram = (c, r, true)
  <-> FirstMatch (Above cpu ram) table (KnownTier.mk c r).
Proof.
  rewrite findNextIn_scan, scan_found.
  apply FirstMatch_iff. intros a. apply isAbove_iff.
Qed.

Lemma findNextIn_not_found :
  snd (findNextIn table cpu ram) = false
  <-> Forall (fun t => ~ Above cpu ram t) table.
Proof.
  rewrite findNextIn_scan, scan_not_found.
  apply Forall_not_iff. intros a. apply isAbove_iff.
Qed.

Lemma findNextIn_not_found_value :
  snd (findNextIn table cpu ram) = false ->
  findNextIn table cpu ram = (0, 0, false).
Proof. rewrite findNextIn_scan. apply scan_not_found_value. Qed.

Lemma findPrevFrom_found (c r : Z) :
  findPrevFrom table (length table) cpu ram = Some (c, r, true)
  <-> LastMatch (Below cpu ram) table (KnownTier.mk c r).
Proof.
  rewrite findPrevFrom_scan, firstn_all, <- LastMatch_rev by lia.
  rewrite <- (FirstMatch_iff _ _ (rev table) (KnownTier.mk c r)
                (isBelow_iff cpu ram)).
  rewrite <- scan_found.
  split; intros E; congruence.
Qed.

Lemma findPrevFrom_not_found :
  findPrevFrom table (length table) cpu ram = Some (0, 0, false)
  <-> Forall (fun t => ~ Below cpu ram t) table.
Proof.
  rewrite findPrevFrom_scan, firstn_all by lia.
  rewrite <- (Forall_not_iff _ _ table (isBelow_iff cpu ram)).
  split.
  - intros E.
    assert (E' : snd (scan (isBelow cpu ram) (rev table)) = false)
      by (injection E as ->; reflexivity).
    apply scan_not_found, Forall_rev in E'.
    rewrite rev_involutive in E'. exact E'.
  - intros H. f_equal. apply scan_not_found_value, scan_not_found.
    apply Forall_rev, H.
Qed.

(** The search either finds an entry or reports the zero tier unfound. *)
Lemma findPrevFrom_total :
  exists c r b, findPrevFrom table (length table) cpu ram = Some (c, r, b)
                /\ (b = false -> c = 0 /\ r = 0).
Proof.
  rewrite findPrevFrom_scan, firstn_all by lia.
  destruct (scan (isBelow cpu ram) (rev table)) as [[c r] b] eqn:E.
  exists c, r, b. split; [reflexivity |].
  intros ->.
  assert (E' : snd (scan (isBelow cpu ram) (rev table)) = false)
    by (rewrite E; reflexivity).
  apply scan_not_found_value in E'. rewrite E in E'.
  injection E' as -> ->. split; reflexivity.
Qed.

End Searches.

(** C4. [findNextKnownTier] returns, found, the first table entry (in table
    order) above the query, and [findPreviousKnownTier] the last entry below
    it; each reports not-found, with the zero tier, exactly when no entry
    qualifies.  In particular the entry after (1, 3840) is (2, 7680). *)
Theorem known_tier_searches :
  (forall cpu ram c r : Z,
      findNextKnownTier cpu ram = (c, r, true)
      <-> FirstMatch (Above cpu ram) knownTiers (KnownTier.mk c r))
  /\ (forall cpu ram : Z,
        findNextKnownTier cpu ram = (0, 0, false)
        <-> Forall (fun t => ~ Above cpu ram t) knownTiers)
  /\ (forall cpu ram c r : Z,
        findPreviousKnownTier cpu ram = Some (c, r, true)
        <-> LastMatch (Below cpu ram) knownTiers (KnownTier.mk c r))
  /\ (forall cpu ram : Z,
        findPreviousKnownTier cpu ram = Some (0, 0, false)
        <-> Forall (fun t => ~ Below cpu ram t) knownTiers)
  /\ (forall cpu ram : Z,
        (exists c r, findNextKnownTier cpu ram = (c, r, true))
        \/ findNextKnownTier cpu ram = (0, 0, false))
  /\ (forall cpu ram : Z,
        (exists c r, findPreviousKnownTier cpu ram = Some (c, r, true))
        \/ findPreviousKnownTier cpu ram = Some (0, 0, false))
  /\ findNextKnownTier 1 3840 = (2, 7680, true).
Proof.
  unfold findNextKnownTier, findPreviousKnownTier.
  split; [intros; apply findNextIn_found |].
  split.
  { intros cpu ram. rewrite <- findNextIn_not_found. split.
    - intros ->. reflexivity.
    - apply findNextIn_not_found_value. }
  split; [intros; apply findPrevFrom_found |].
  split; [intros; apply findPrevFrom_not_found |].
  split.
  { intros cpu ram.
    destruct (findNextIn knownTiers cpu ram) as [[c r] [|]] eqn:E.
    - left. exists c, r. reflexivity.
    - right. rewrite <- E. apply findNextIn_not_found_value.
      rewrite E. reflexivity. }
  split.
  { intros cpu ram.
    destruct (findPrevFrom_total knownTiers cpu ram) as [c [r [[|] [E Hz]]]].
    - left. exists c, r. exact E.
    - right. destruct (Hz eq_refl) as [-> ->]. exact E. }
  reflexivity.
Qed.

(** C9. When both searches find an entry, the two results bracket the query
    in the tuple order: below < (cpu, ram) < above. *)
Theorem searches_bracket_query :
  forall cpu ram ca ra cb rb : Z,
    findNextKnownTier cpu ram = (ca, ra, true) ->
    findPreviousKnownTier cpu ram = Some (cb, rb, true) ->
    tupleLt (cb, rb) (cpu, ram) /\ tupleLt (cpu, ram) (ca, ra).
Proof.
  intros cpu ram ca ra cb rb Ha Hb.
  apply findNextIn_found in Ha. apply findPrevFrom_found in Hb.
  destruct Ha as [_ [_ [_ [_ Ha]]]]. destruct Hb as [_ [_ [_ [_ Hb]]]].
  unfold Above, Below in *. unfold tupleLt. cbn in *. lia.
Qed.

Lemma searches_bracket_query_witness :
  findNextKnownTier 2 8000 = (2, 13312, true)
  /\ findPreviousKnownTier 2 8000 = Some (2, 7680, true)
  /\ tupleLt (2, 7680) (2, 8000) /\ tupleLt (2, 8000) (2, 13312).
Proof.
  split; [reflexivity |]. split; [reflexivity |].
  apply (searches_bracket_query 2 8000 2 13312 2 7680); reflexivity.
Defined.

(* ------------------------------------------------------------------ *)
(** ** Exact float64 arithmetic on values of at most 53 bits *)

(** The four constants are the binary64 values nearest to 0.9, 6.5, 1024 and
    3840 (the last three exactly). *)
Lemma constants_rounded :
  F64.c0_9 = SFdiv F64.prec F64.emax (F64.of_int 9) (F64.of_int 10)
  /\ F64.c6_5 = SFdiv F64.prec F64.emax (F64.of_int 13) (F64.of_int 2)
  /\ F64.c1024 = F64.of_int 1024
  /\ F64.c3840 = F64.of_int 3840.
Proof. repeat split. Qed.

Lemma digits_pos (k : positive) : 0 < F64.digits k.
Proof. unfold F64.digits. lia. Qed.

Lemma digits_bounds (k : positive) :
  2 ^ (F64.digits k - 1) <= Z.pos k < 2 ^ F64.digits k.
Proof.
  unfold F64.digits. induction k as [k IH | k IH |]; cbn [digits2_pos].
  - rewrite Pos2Z.inj_succ, Z.pow_succ_r by lia.
    replace (Z.succ (Z.pos (digits2_pos k)) - 1) with (Z.succ (Z.pos (digits2_pos k) - 1)) by lia.
    rewrite Z.pow_succ_r by lia. lia.
  - rewrite Pos2Z.inj_succ, Z.pow_succ_r by lia.
    replace (Z.succ (Z.pos (digits2_pos k)) - 1) with (Z.succ (Z.pos (digits2_pos k) - 1)) by lia.
    rewrite Z.pow_succ_r by lia. lia.
  - cbn. lia.
Qed.

Lemma digits_unique (k : positive) (d : Z) :
  2 ^ (d - 1) <= Z.pos k < 2 ^ d -> F64.digits k = d.
Proof.
  intros [Hlo Hhi]. pose proof (digits_bounds k) as [Blo Bhi].
  pose proof (digits_pos k) as Hd.
  assert (0 < d).
  { destruct (Z.ltb_spec 0 d); [assumption|].
    destruct (Z.eq_dec d 0) as [-> | Hne]; [cbn in Hhi; lia |].
    rewrite (Z.pow_neg_r 2 d) in Hhi by lia. lia. }
  assert (F64.digits k - 1 < d).
  { apply (Z.pow_lt_mono_r_iff 2); lia. }
  assert (d - 1 < F64.digits k).
  { apply (Z.pow_lt_mono_r_iff 2); lia. }
  lia.
Qed.

Lemma pos_mul_pow2 (k : positive) (n : Z) :
  0 <= n -> Z.pos (Z.to_pos (Z.pos k * 2 ^ n)) = Z.pos k * 2 ^ n.
Proof.
  intros Hn. apply Z2Pos.id.
  pose proof (Z.pow_pos_nonneg 2 n ltac:(lia) Hn). lia.
Qed.

Lemma digits_shift (k : positive) (n : Z) :
  0 <= n -> F64.digits (Z.to_pos (Z.pos k * 2 ^ n)) = F64.digits k + n.
Proof.
  intros Hn. apply digits_unique. rewrite pos_mul_pow2 by assumption.
  pose proof (digits_bounds k) as [Blo Bhi].
  pose proof (digits_pos k) as Hd.
  replace (F64.digits k + n - 1) with (F64.digits k - 1 + n) by lia.
  rewrite !Z.pow_add_r by lia.
  pose proof (Z.pow_pos_nonneg 2 n ltac:(lia) Hn).
  split; nia.
Qed.

(** Iterated halving *)
Lemma iter_pos_nat {A : Type} (f : A -> A) (p : positive) (x : A) :
  iter_pos f p x = Nat.iter (Pos.to_nat p) f x.
Proof.
  revert x. induction p as [p IH | p IH |]; intros x; cbn [iter_pos].
  - rewrite !IH, Pos2Nat.inj_xI.
    rewrite <- Nat.iter_add, <- Nat.iter_succ_r. f_equal. lia.
  - rewrite !IH, Pos2Nat.inj_xO.
    rewrite <- Nat.iter_add. f_equal. lia.
  - reflexivity.
Qed.

Lemma shr_1_exact (z : Z) :
  0 <= z ->
  shr_1 (Build_shr_record (2 * z) false false) = Build_shr_record z false false.
Proof.
  intros Hz. destruct z as [| p | p]; [reflexivity | reflexivity | lia].
Qed.

Lemma shr_iter_exact (n : nat) (z : Z) :
  0 <= z ->
  Nat.iter n shr_1 (Build_shr_record (z * 2 ^ Z.of_nat n) false false)
  = Build_shr_record z false false.
Proof.
  intros Hz. revert z Hz. induction n as [| n IH]; intros z Hz.
  - cbn [Nat.iter]. change (Z.of_nat 0) with 0.
    rewrite Z.pow_0_r, Z.mul_1_r. reflexivity.
  - rewrite Nat.iter_succ_r.
    replace (z * 2 ^ Z.of_nat (S n)) with (2 * (z * 2 ^ Z.of_nat n))
      by (rewrite Nat2Z.inj_succ, Z.pow_succ_r by lia; ring).
    rewrite shr_1_exact by (pose proof (Z.pow_pos_nonneg 2 (Z.of_nat n)); nia).
    apply IH, Hz.
Qed.

Lemma shr_exact (z e n : Z) :
  0 <= z -> 0 <= n ->
  shr (Build_shr_record (z * 2 ^ n) false false) e n
  = (Build_shr_record z false false, e + n).
Proof.
  intros Hz Hn. destruct n as [| p | p]; [| | lia].
  - cbn [shr]. rewrite Z.pow_0_r, Z.mul_1_r, Z.add_0_r. reflexivity.
  - cbn [shr]. rewrite iter_pos_nat.
    rewrite <- (positive_nat_Z p) at 1. rewrite shr_iter_exact by assumption.
    reflexivity.
Qed.

Lemma fexp_normal_range (x : Z) :
  -1021 <= x -> fexp F64.prec F64.emax x = x - 53.
Proof. unfold fexp, emin, F64.prec, F64.emax. lia. Qed.

Lemma Zdigits2_pos (k : positive) : Zdigits2 (Z.pos k) = F64.digits k.
Proof. reflexivity. Qed.

Lemma Zdigits2_shift (k : positive) (n : Z) :
  0 <= n -> Zdigits2 (Z.pos k * 2 ^ n) = F64.digits k + n.
Proof.
  intros Hn. rewrite <- (pos_mul_pow2 k n) by assumption.
  rewrite Zdigits2_pos. apply digits_shift, Hn.
Qed.

(** Rounding a 53-digit mantissa followed by [n] zero bits is exact. *)
Lemma round_aux_exact (s : bool) (m : positive) (n e : Z) :
  F64.digits m = 53 -> 0 <= n -> -1074 <= e + n <= 971 ->
  binary_round_aux F64.prec F64.emax s (Z.pos m * 2 ^ n) e loc_Exact
  = S754_finite s m (e + n).
Proof.
  intros Hd Hn He.
  assert (H1 : shr_fexp F64.prec F64.emax (Z.pos m * 2 ^ n) e loc_Exact
               = (Build_shr_record (Z.pos m) false false, e + n)).
  { unfold shr_fexp. rewrite Zdigits2_shift, Hd, fexp_normal_range by lia.
    replace (53 + n + e - 53 - e) with n by lia.
    cbn [shr_record_of_loc]. apply shr_exact; lia. }
  assert (H2 : shr_fexp F64.prec F64.emax (Z.pos m) (e + n) loc_Exact
               = (Build_shr_record (Z.pos m) false false, e + n)).
  { unfold shr_fexp. rewrite Zdigits2_pos, Hd, fexp_normal_range by lia.
    replace (53 + (e + n) - 53 - (e + n)) with 0 by lia. reflexivity. }
  unfold binary_round_aux. rewrite H1.
  cbn [shr_m loc_of_shr_record round_nearest_even]. rewrite H2.
  cbn [shr_m].
  replace (e + n <=? F64.emax - F64.prec) with true; [reflexivity |].
  symmetry. apply Z.leb_le. unfold F64.emax, F64.prec. lia.
Qed.

Lemma normal_mantissa_digits (k : positive) :
  F64.digits k <= 53 ->
  F64.digits (Z.to_pos (Z.pos k * 2 ^ (F64.prec - F64.digits k))) = 53.
Proof.
  intros Hk. unfold F64.prec. rewrite digits_shift by lia. lia.
Qed.

(** Rounding the exact value [k * 2 ^ j * 2 ^ e], presented with mantissa
    [k * 2 ^ j] of at least 53 digits. *)
Lemma round_aux_normal (k : positive) (j e : Z) :
  F64.digits k <= 53 -> 53 <= F64.digits k + j ->
  -1074 <= e + j + F64.digits k - 53 <= 971 ->
  binary_round_aux F64.prec F64.emax false (Z.pos k * 2 ^ j) e loc_Exact
  = F64.normal k (e + j).
Proof.
  intros Hk Hj He. unfold F64.normal.
  set (m := Z.to_pos (Z.pos k * 2 ^ (F64.prec - F64.digits k))).
  replace (Z.pos k * 2 ^ j) with (Z.pos m * 2 ^ (j + F64.digits k - 53)).
  - rewrite round_aux_exact.
    + f_equal. unfold F64.prec. lia.
    + apply normal_mantissa_digits, Hk.
    + lia.
    + lia.
  - unfold m. rewrite pos_mul_pow2 by (unfold F64.prec; lia).
    rewrite <- Z.mul_assoc, <- Z.pow_add_r by (unfold F64.prec; lia).
    f_equal. f_equal. unfold F64.prec. lia.
Qed.

Lemma iter_xO_pow2 (k d : positive) :
  Z.pos (Pos.iter xO k d) = Z.pos k * 2 ^ Z.pos d.
Proof.
  induction d as [| d IH] using Pos.peano_ind.
  - cbn [Pos.iter]. rewrite Pos2Z.inj_xO. change (2 ^ 1) with 2. ring.
  - rewrite Pos.iter_succ, Pos2Z.inj_xO, IH, Pos2Z.inj_succ, Z.pow_succ_r by lia.
    ring.
Qed.

(** [float64(n)] is exact when [n] has at most 53 significant bits. *)
Lemma of_int_normal (k : positive) (j : Z) :
  F64.digits k <= 53 -> 0 <= j -> j + F64.digits k <= 1024 ->
  F64.of_int (Z.pos k * 2 ^ j) = F64.normal k j.
Proof.
  intros Hk Hj He. pose proof (digits_pos k) as Hd.
  unfold F64.of_int. rewrite <- (pos_mul_pow2 k j) by assumption.
  set (K := Z.to_pos (Z.pos k * 2 ^ j)).
  assert (HK : Z.pos K = Z.pos k * 2 ^ j) by (apply pos_mul_pow2, Hj).
  assert (HdK : F64.digits K = F64.digits k + j) by (apply digits_shift, Hj).
  cbn [binary_normalize]. unfold binary_round, shl_align.
  change (Z.pos (digits2_pos K)) with (F64.digits K).
  rewrite fexp_normal_range by lia.
  destruct (F64.digits K + 0 - 53 - 0) as [| d | d] eqn:Ed.
  - rewrite HK, round_aux_normal by lia. f_equal.
  - rewrite HK, round_aux_normal by lia. f_equal.
  - rewrite iter_xO_pow2, HK, <- Z.mul_assoc, <- Z.pow_add_r by lia.
    rewrite round_aux_normal by lia. f_equal. lia.
Qed.

Lemma digits_mul_lower (a b : positive) :
  F64.digits a + F64.digits b - 1 <= F64.digits (a * b).
Proof.
  pose proof (digits_bounds a) as [Alo _].
  pose proof (digits_bounds b) as [Blo _].
  pose proof (digits_bounds (a * b)) as [_ Hhi].
  pose proof (digits_pos a). pose proof (digits_pos b).
  pose proof (digits_pos (a * b)).
  assert (H2 : 2 ^ (F64.digits a - 1 + (F64.digits b - 1)) < 2 ^ F64.digits (a * b)).
  { rewrite Z.pow_add_r by lia. rewrite Pos2Z.inj_mul in Hhi.
    pose proof (Z.pow_pos_nonneg 2 (F64.digits a - 1)).
    pose proof (Z.pow_pos_nonneg 2 (F64.digits b - 1)). nia. }
  apply Z.pow_lt_mono_r_iff in H2; lia.
Qed.

(** A product that fits 53 bits is computed exactly. *)
Lemma mul_normal (a b : positive) (x y : Z) :
  F64.digits (a * b) <= 53 ->
  -1074 <= x + y + F64.digits (a * b) - 53 <= 971 ->
  F64.mul (F64.normal a x) (F64.normal b y) = F64.normal (a * b) (x + y).
Proof.
  intros Hab He.
  pose proof (digits_mul_lower a b) as Hlow.
  pose proof (digits_pos a) as Ha. pose proof (digits_pos b) as Hb.
  unfold F64.mul, F64.normal at 1 2. cbn [SFmul xorb].
  rewrite Pos2Z.inj_mul, !pos_mul_pow2 by (unfold F64.prec; lia).
  replace (Z.pos a * 2 ^ (F64.prec - F64.digits a)
           * (Z.pos b * 2 ^ (F64.prec - F64.digits b)))
    with (Z.pos (a * b) * 2 ^ (106 - F64.digits a - F64.digits b)).
  - rewrite round_aux_normal by (unfold F64.prec; lia).
    f_equal. unfold F64.prec. lia.
  - replace (106 - F64.digits a - F64.digits b)
      with ((F64.prec - F64.digits a) + (F64.prec - F64.digits b))
      by (unfold F64.prec; lia).
    rewrite Z.pow_add_r, Pos2Z.inj_mul by (unfold F64.prec; lia). ring.
Qed.

(** The integer part of an integer-valued float is its value. *)
Lemma trunc_normal (k : positive) (x : Z) :
  F64.digits k <= 53 -> 0 <= x ->
  F64.trunc (F64.normal k x) = Some (Z.pos k * 2 ^ x).
Proof.
  intros Hk Hx. pose proof (digits_pos k) as Hd.
  unfold F64.normal, F64.trunc.
  rewrite pos_mul_pow2 by (unfold F64.prec; lia). unfold F64.prec. f_equal.
  destruct (Z.leb_spec 0 (x + F64.digits k - 53)) as [He | He].
  - rewrite <- Z.mul_assoc, <- Z.pow_add_r by lia. f_equal. f_equal. lia.
  - replace (53 - F64.digits k) with (x + - (x + F64.digits k - 53)) by lia.
    rewrite Z.pow_add_r, Z.mul_assoc by lia.
    apply Z.div_mul. apply Z.pow_nonzero; lia.
Qed.

Lemma digits_le (k : positive) (n : Z) :
  0 <= n -> Z.pos k < 2 ^ n -> F64.digits k <= n.
Proof.
  intros Hn Hk. pose proof (digits_bounds k) as [Hlo _].
  pose proof (digits_pos k).
  assert (H2 : 2 ^ (F64.digits k - 1) < 2 ^ n) by lia.
  apply Z.pow_lt_mono_r_iff in H2; lia.
Qed.

Lemma to_int_normal (k : positive) (x : Z) :
  F64.digits k <= 53 -> 0 <= x -> Z.pos k * 2 ^ x <= GoInt.max_int ->
  F64.to_int (F64.normal k x) = Z.pos k * 2 ^ x.
Proof.
  intros Hk Hx Hr. unfold F64.to_int. rewrite trunc_normal by assumption.
  replace (GoInt.in_rangeb (Z.pos k * 2 ^ x)) with true; [reflexivity |].
  symmetry. apply in_rangeb_iff. split; [| exact Hr].
  pose proof (Z.pow_pos_nonneg 2 x ltac:(lia) Hx).
  unfold GoInt.min_int. nia.
Qed.

Lemma bumpRamMB_exact (k : positive) :
  13 * Z.pos k < 2 ^ 53 ->
  bumpRamMB (Z.pos k) = F64.normal (k * 13) 9
  /\ Z.pos (k * 13) * 2 ^ 9 = 6656 * Z.pos k
  /\ F64.digits (k * 13) <= 53
  /\ 4 <= F64.digits (k * 13).
Proof.
  intros Hk.
  assert (Hd : F64.digits (k * 13) <= 53).
  { apply digits_le; [lia |]. rewrite Pos2Z.inj_mul. lia. }
  assert (Hd4 : 4 <= F64.digits (k * 13)).
  { pose proof (digits_mul_lower k 13) as H. pose proof (digits_pos k).
    change (F64.digits 13) with 4 in H. lia. }
  assert (Hk53 : F64.digits k <= 53) by (apply digits_le; lia).
  assert (HV : Z.pos (k * 13) * 2 ^ 9 = 6656 * Z.pos k).
  { rewrite Pos2Z.inj_mul. change (2 ^ 9) with 512. lia. }
  split; [| auto].
  unfold bumpRamMB.
  replace (F64.of_int (Z.pos k)) with (F64.normal k 0).
  2:{ rewrite <- (of_int_normal k 0) by lia.
      rewrite Z.pow_0_r, Z.mul_1_r. reflexivity. }
  change F64.c6_5 with (F64.normal 13 (-1)).
  change F64.c1024 with (F64.normal 1 10).
  rewrite mul_normal by lia.
  rewrite mul_normal by (rewrite Pos.mul_1_r; lia).
  rewrite Pos.mul_1_r. change (0 + -1 + 10) with 9.
  rewrite to_int_normal by (unfold GoInt.max_int; lia).
  rewrite roundDown256_quot
    by int_range.
  replace (Z.quot (Z.pos (k * 13) * 2 ^ 9) 256 * 256)
    with (Z.pos (k * 13) * 2 ^ 9).
  - apply of_int_normal; lia.
  - rewrite HV. replace (6656 * Z.pos k) with (26 * Z.pos k * 256) by lia.
    rewrite Z.quot_mul by lia. reflexivity.
Qed.

(* ------------------------------------------------------------------ *)
(** ** Rounding in general: the mantissa after a shift *)

Lemma shr_1_m (mrs : shr_record) :
  0 <= shr_m mrs -> shr_m (shr_1 mrs) = shr_m mrs / 2.
Proof.
  destruct mrs as [m r s]. cbn [shr_m]. intros Hm.
  destruct m as [| [p | p |] | p]; cbn [shr_1 shr_m]; try lia; try reflexivity.
  - rewrite Pos2Z.inj_xI. apply Z.div_unique with 1; lia.
  - rewrite Pos2Z.inj_xO. apply Z.div_unique with 0; lia.
Qed.

Lemma shr_iter_m (n : nat) (mrs : shr_record) :
  0 <= shr_m mrs ->
  shr_m (Nat.iter n shr_1 mrs) = shr_m mrs / 2 ^ Z.of_nat n.
Proof.
  intros Hm. induction n as [| n IH].
  - change (2 ^ Z.of_nat 0) with 1. rewrite Z.div_1_r. reflexivity.
  - rewrite Nat.iter_succ, shr_1_m.
    + rewrite IH, Nat2Z.inj_succ, Z.pow_succ_r, Z.div_div by lia.
      f_equal. lia.
    + rewrite IH. apply Z.div_pos; lia.
Qed.

(** The mantissa after [shr]: the quotient by [2 ^ n] when [n] is positive,
    unchanged otherwise. *)
Lemma shr_m_shr (mrs : shr_record) (e n : Z) :
  0 <= shr_m mrs ->
  shr_m (fst (shr mrs e n)) = shr_m mrs / 2 ^ Z.max 0 n
  /\ snd (shr mrs e n) = e + Z.max 0 n.
Proof.
  intros Hm. destruct n as [| p | p]; cbn [shr fst snd].
  - change (Z.max 0 0) with 0. rewrite Z.pow_0_r, Z.div_1_r. split; lia.
  - rewrite iter_pos_nat, shr_iter_m, positive_nat_Z by assumption.
    split; f_equal; lia.
  - change (Z.max 0 (Z.neg p)) with 0. rewrite Z.pow_0_r, Z.div_1_r. split; lia.
Qed.

Lemma shr_record_of_loc_m (m : Z) (l : location) :
  shr_m (shr_record_of_loc m l) = m.
Proof. destruct l as [| []]; reflexivity. Qed.

Lemma round_nearest_even_bound (m : Z) (l : location) :
  m <= round_nearest_even m l <= m + 1.
Proof.
  destruct l as [| []]; cbn [round_nearest_even]; try lia.
  destruct (Z.even m); lia.
Qed.

(** Comparing an integer-valued float with 3840. *)
Lemma ltb_normal_3840 (k : positive) (j : Z) :
  F64.digits k <= 53 -> 0 <= j ->
  F64.ltb (F64.normal k j) F64.c3840 = (Z.pos k * 2 ^ j <? 3840).
Proof.
  intros Hd Hj.
  pose proof (digits_bounds k) as [Hlo Hhi]. pose proof (digits_pos k) as Hdp.
  assert (Hpj : 0 < 2 ^ j) by (apply Z.pow_pos_nonneg; lia).
  unfold F64.ltb, SFltb, F64.normal, F64.c3840. cbn [SFcompare].
  unfold F64.prec.
  destruct (Z.compare_spec (j + F64.digits k - 53) (-41)) as [He | He | He].
  - rewrite Pos.compare_cont_spec.
    rewrite Pos2Z.inj_compare, pos_mul_pow2 by lia.
    replace (53 - F64.digits k) with (j + 41) by lia.
    rewrite Z.pow_add_r, Z.mul_assoc by lia.
    change (Z.pos 8444249301319680) with (3840 * 2 ^ 41).
    rewrite <- Zmult_compare_compat_r by (apply Z.lt_gt, Z.pow_pos_nonneg; lia).
    unfold Z.ltb. destruct (Z.pos k * 2 ^ j ?= 3840); reflexivity.

  - symmetry. apply Z.ltb_lt.
    assert (H : 2 ^ (F64.digits k + j) <= 2 ^ 11) by (apply Z.pow_le_mono_r; lia).
    rewrite Z.pow_add_r in H by lia. change (2 ^ 11) with 2048 in H. nia.
  - symmetry. apply Z.ltb_ge.
    assert (H : 2 ^ 12 <= 2 ^ (F64.digits k - 1 + j)) by (apply Z.pow_le_mono_r; lia).
    rewrite Z.pow_add_r in H by lia. change (2 ^ 12) with 4096 in H. nia.
Qed.

Lemma bumpMem_unfold (c r : Z) :
  bumpMem c r =
  ((c, bumpedRam c),
   if bumpedRam c =? r then AlreadyMax
   else if bumpedRam c <? r then AlreadyExceedsMax
   else Bumped).
Proof.
  unfold bumpMem. cbv zeta. fold (bumpRamMB c). fold (bumpedRam c).
  destruct (bumpedRam c =? r); [reflexivity |].
  destruct (bumpedRam c <? r); reflexivity.
Qed.

Lemma bumpMaxRam_eq (c : Z) :
  0 <= c -> bumpMaxRam c = Z.max 3840 (6656 * c).
Proof.
  intros Hc. unfold bumpMaxRam. rewrite upperBound_eq.
  replace (6656 * c) with (26 * c * 256) by lia.
  rewrite Z.div_mul by lia. f_equal. lia.
Qed.

Lemma bumpedRam_exact (c : Z) :
  0 <= c -> 13 * c < 2 ^ 53 -> bumpedRam c = bumpMaxRam c.
Proof.
  intros Hc Hb. rewrite bumpMaxRam_eq by assumption.
  destruct c as [| k | k]; [reflexivity | | lia].
  destruct (bumpRamMB_exact k Hb) as [E [HV [Hd Hd4]]].
  unfold bumpedRam. rewrite E.
  replace (F64.ltb (F64.normal (k * 13) 9) F64.c3840) with false.
  - rewrite to_int_normal by (unfold GoInt.max_int; lia). lia.
  - unfold F64.ltb, SFltb, F64.normal, F64.c3840. cbn [SFcompare].
    replace (9 + F64.digits (k * 13) - F64.prec ?= -41) with Gt; [reflexivity |].
    symmetry. apply Z.compare_gt_iff. unfold F64.prec. lia.
Qed.




(* ------------------------------------------------------------------ *)
(** ** Decimal digits *)

Lemma digitChar_spec (d : Z) :
  0 <= d < 10 -> isDigit (digitChar d) = true /\ digitValue (digitChar d) = d.
Proof.
  intros Hd.
  assert (H : d = 0 \/ d = 1 \/ d = 2 \/ d = 3 \/ d = 4
              \/ d = 5 \/ d = 6 \/ d = 7 \/ d = 8 \/ d = 9) by lia.
  repeat (destruct H as [-> | H]; [split; reflexivity |]).
  subst d. split; reflexivity.
Qed.

Lemma digit_not_sign (c : ascii) :
  isDigit c = true -> Ascii.eqb c "-" = false /\ Ascii.eqb c "+" = false.
Proof.
  intros H. split; apply Ascii.eqb_neq; intros ->; discriminate H.
Qed.

Lemma fmtDigits_digits (room : nat) (u : Z) (buf : gostring) :
  0 <= u -> forallb isDigit buf = true ->
  forallb isDigit (fmtDigits room u buf) = true.
Proof.
  revert u buf. induction room as [| room IH]; intros u buf Hu Hbuf.
  - exact Hbuf.
  - cbn [fmtDigits]. destruct (Z.leb_spec 10 u) as [H10 | H10].
    + apply IH.
      * apply Z.div_pos; lia.
      * cbn [forallb]. rewrite Hbuf, andb_true_r.
        apply digitChar_spec. apply Z.mod_pos_bound. lia.
    + cbn [forallb]. rewrite Hbuf, andb_true_r.
      apply digitChar_spec. lia.
Qed.

Lemma fmtDigits_value (room : nat) (u : Z) (buf : gostring) :
  0 <= u < 10 ^ Z.of_nat room ->
  fold_left decStep (fmtDigits room u buf) 0 = fold_left decStep buf u.
Proof.
  revert u buf. induction room as [| room IH]; intros u buf Hu.
  - cbn [fmtDigits]. change (10 ^ Z.of_nat 0) with 1 in Hu.
    replace u with 0 by lia. reflexivity.
  - cbn [fmtDigits]. destruct (Z.leb_spec 10 u) as [H10 | H10].
    + rewrite IH.
      * cbn [fold_left]. unfold decStep at 2.
        rewrite (proj2 (digitChar_spec (u mod 10)
                          (Z.mod_pos_bound u 10 ltac:(lia)))).
        f_equal. rewrite (Z.div_mod u 10) at 3 by lia. lia.
      * rewrite Nat2Z.inj_succ, Z.pow_succ_r in Hu by lia.
        split; [apply Z.div_pos; lia |].
        apply Z.div_lt_upper_bound; lia.
    + cbn [fold_left]. unfold decStep at 2.
      rewrite (proj2 (digitChar_spec u ltac:(lia))). reflexivity.
Qed.

Lemma fmtDigits_nonempty (room : nat) (u : Z) :
  fmtDigits (S room) u [] <> [].
Proof.
  assert (H : forall r v buf, buf <> [] -> fmtDigits r v buf <> []).
  { induction r as [| r IH]; intros v buf Hb; cbn [fmtDigits]; [exact Hb |].
    destruct (10 <=? v); [apply IH |]; discriminate. }
  cbn [fmtDigits]. destruct (10 <=? u); [apply H |]; discriminate.
Qed.

(** [%d] and [Atoi] are inverse on the non-negative [int]s. *)
Lemma formatInt_digits (v : Z) :
  0 <= v ->
  formatInt v <> [] /\ forallb isDigit (formatInt v) = true.
Proof.
  intros Hv. unfold formatInt.
  destruct (Z.ltb_spec v 0); [lia |].
  split; [apply fmtDigits_nonempty | apply fmtDigits_digits; auto].
Qed.

Lemma formatInt_value (v : Z) :
  0 <= v <= GoInt.max_int -> digitsValue (formatInt v) = v.
Proof.
  intros Hv. unfold formatInt, digitsValue.
  destruct (Z.ltb_spec v 0); [lia |].
  change (fun n ch => n * 10 + digitValue ch) with decStep.
  rewrite fmtDigits_value; [reflexivity |].
  unfold GoInt.max_int in Hv. change (10 ^ Z.of_nat 20) with 100000000000000000000.
  lia.
Qed.

Lemma Atoi_digits (ds : gostring) :
  ds <> [] -> forallb isDigit ds = true ->
  Atoi ds = if GoInt.in_rangeb (digitsValue ds) then Some (digitsValue ds) else None.
Proof.
  intros Hne Hd. unfold Atoi.
  destruct ds as [| c rest]; [congruence |].
  assert (Hc : isDigit c = true).
  { cbn [forallb] in Hd. apply andb_true_iff in Hd. apply Hd. }
  destruct (digit_not_sign c Hc) as [-> ->].
  rewrite Hd. reflexivity.
Qed.

Lemma Atoi_formatInt (v : Z) :
  0 <= v <= GoInt.max_int -> Atoi (formatInt v) = Some v.
Proof.
  intros Hv. destruct (formatInt_digits v (proj1 Hv)) as [Hne Hd].
  rewrite Atoi_digits, formatInt_value by assumption.
  replace (GoInt.in_rangeb v) with true; [reflexivity |].
  symmetry. apply in_rangeb_iff. unfold GoInt.in_range, GoInt.min_int in *. lia.
Qed.

(* ------------------------------------------------------------------ *)
(** ** The matcher *)

Lemma firstn_app_length {A : Type} (d rest : list A) :
  firstn (length d) (d ++ rest) = d.
Proof. induction d as [| a d IH]; cbn; [reflexivity | rewrite IH; reflexivity]. Qed.

Lemma skipn_app_length {A : Type} (d rest : list A) :
  skipn (length d) (d ++ rest) = rest.
Proof. induction d as [| a d IH]; cbn; [reflexivity | exact IH]. Qed.

Lemma digitRun_app (d rest : gostring) :
  forallb isDigit d = true ->
  digitRun (d ++ rest) = (length d + digitRun rest)%nat.
Proof.
  induction d as [| a d IH]; intros H; cbn [forallb] in H; [reflexivity |].
  apply andb_true_iff in H. destruct H as [Ha Hd].
  cbn [app digitRun length]. rewrite Ha, IH by assumption. reflexivity.
Qed.

Lemma firstn_digitRun (s : gostring) (j : nat) :
  (j <= digitRun s)%nat ->
  forallb isDigit (firstn j s) = true /\ length (firstn j s) = j.
Proof.
  revert j. induction s as [| a s IH]; intros j Hj; cbn [digitRun] in Hj.
  - replace j with O by lia. split; reflexivity.
  - destruct j as [| j]; [split; reflexivity |].
    destruct (isDigit a) eqn:Ha; [| lia].
    destruct (IH j ltac:(lia)) as [H1 H2].
    cbn [firstn forallb length]. rewrite Ha, H1, H2. split; reflexivity.
Qed.

(** The greedy attempt succeeds at once when the rest of the pattern
    matches after the whole run of digits. *)
Lemma tryLengths_greedy rest (s w : gostring) (caps : list gostring) (k : nat) :
  k <> O ->
  rest (skipn k s) = Some (w, caps) ->
  tryLengths rest s k = Some (firstn k s ++ w, firstn k s :: caps).
Proof.
  intros Hk H. destruct k as [| k]; [congruence |].
  cbn [tryLengths]. rewrite H. reflexivity.
Qed.

Lemma tryLengths_sound rest (s w : gostring) (caps : list gostring) (k : nat) :
  tryLengths rest s k = Some (w, caps) ->
  exists j w' caps',
    (1 <= j <= k)%nat
    /\ rest (skipn j s) = Some (w', caps')
    /\ w = firstn j s ++ w'
    /\ caps = firstn j s :: caps'.
Proof.
  induction k as [| k IH]; cbn [tryLengths]; [discriminate |].
  destruct (rest (skipn (S k) s)) as [[w' caps'] |] eqn:E.
  - intros H. injection H as <- <-.
    exists (S k), w', caps'. repeat split; auto; lia.
  - intros H. destruct (IH H) as [j [w' [caps' [Hj Hrest]]]].
    exists j, w', caps'. split; [lia | exact Hrest].
Qed.

Lemma matchAt_digits (re : list reItem) (s : gostring) :
  matchAt (ReDigits :: re) s = tryLengths (matchAt re) s (digitRun s).
Proof. reflexivity. Qed.

Lemma matchAt_chars (p : gostring) (re : list reItem) (s : gostring) :
  matchAt (map ReChar p ++ re) (p ++ s)
  = match matchAt re s with
    | Some (w, caps) => Some (p ++ w, caps)
    | None => None
    end.
Proof.
  induction p as [| c p IH].
  - cbn [map app]. destruct (matchAt re s) as [[w caps] |]; reflexivity.
  - cbn [map app matchAt]. rewrite Ascii.eqb_refl, IH.
    destruct (matchAt re s) as [[w caps] |]; reflexivity.
Qed.

Lemma matchAt_chars_sound (p : gostring) (re : list reItem)
    (s w : gostring) (caps : list gostring) :
  matchAt (map ReChar p ++ re) s = Some (w, caps) ->
  exists s' w', s = p ++ s' /\ matchAt re s' = Some (w', caps) /\ w = p ++ w'.
Proof.
  revert s w. induction p as [| c p IH]; intros s w H.
  - exists s, w. repeat split; auto.
  - cbn [map app matchAt] in H. destruct s as [| a s]; [discriminate |].
    destruct (Ascii.eqb_spec a c) as [-> | Hne]; [| discriminate].
    destruct (matchAt (map ReChar p ++ re) s) as [[w0 caps0] |] eqn:E;
      [| discriminate].
    injection H as <- <-.
    destruct (IH s w0 E) as [s' [w' [-> [Hm ->]]]].
    exists s', w'. repeat split; auto.
Qed.

(** At an occurrence whose second number is not followed by a digit, the
    anchored match captures the two numbers. *)
Lemma matchAt_tier (d1 d2 rest : gostring) :
  allDigits d1 -> allDigits d2 -> digitRun rest = O ->
  matchAt tierRegexp (tierText d1 d2 ++ rest)
  = Some (tierText d1 d2, [d1; d2]).
Proof.
  intros [Hn1 Hd1] [Hn2 Hd2] Hrest.
  unfold tierRegexp, tierText. rewrite <- !app_assoc.
  rewrite matchAt_chars.
  assert (Hrun1 : digitRun (d1 ++ lit "-" ++ d2 ++ rest) = length d1).
  { rewrite digitRun_app by assumption. cbn. lia. }
  assert (Hrun2 : digitRun (d2 ++ rest) = length d2).
  { rewrite digitRun_app, Hrest by assumption. lia. }
  assert (Hlast : matchAt [ReDigits] (d2 ++ rest) = Some (d2, [d2])).
  { rewrite matchAt_digits, Hrun2.
    rewrite (tryLengths_greedy _ _ [] []).
    - rewrite firstn_app_length, app_nil_r. reflexivity.
    - destruct d2; [congruence | discriminate].
    - reflexivity. }
  assert (Hmid : matchAt [ReChar "-"; ReDigits] (lit "-" ++ d2 ++ rest)
                 = Some (lit "-" ++ d2, [d2])).
  { change [ReChar "-"; ReDigits] with (map ReChar (lit "-") ++ [ReDigits]).
    rewrite matchAt_chars, Hlast. reflexivity. }
  rewrite matchAt_digits, Hrun1.
  rewrite (tryLengths_greedy _ _ (lit "-" ++ d2) [d2]).
  - rewrite firstn_app_length. reflexivity.
  - destruct d1; [congruence | discriminate].
  - rewrite skipn_app_length. exact Hmid.
Qed.

Lemma matchAt_tier_sound (s w : gostring) (caps : list gostring) :
  matchAt tierRegexp s = Some (w, caps) -> TierAt s.
Proof.
  unfold tierRegexp. intros H.
  apply matchAt_chars_sound in H. destruct H as [s1 [w1 [-> [H _]]]].
  rewrite matchAt_digits in H. apply tryLengths_sound in H.
  destruct H as [j1 [w2 [caps2 [Hj1 [H [_ _]]]]]].
  change [ReChar "-"; ReDigits] with (map ReChar (lit "-") ++ [ReDigits]) in H.
  apply matchAt_chars_sound in H. destruct H as [s2 [w3 [Hs2 [H _]]]].
  rewrite matchAt_digits in H. apply tryLengths_sound in H.
  destruct H as [j2 [w4 [caps4 [Hj2 _]]]].
  destruct (firstn_digitRun s1 j1 ltac:(lia)) as [Hd1 Hl1].
  destruct (firstn_digitRun s2 j2 ltac:(lia)) as [Hd2 Hl2].
  exists (firstn j1 s1), (firstn j2 s2), (skipn j2 s2).
  split; [| split].
  - split; [| exact Hd1]. intros E. rewrite E in Hl1. cbn in Hl1. lia.
  - split; [| exact Hd2]. intros E. rewrite E in Hl2. cbn in Hl2. lia.
  - unfold tierText. rewrite <- !app_assoc. f_equal.
    rewrite <- (firstn_skipn j1 s1) at 1. f_equal.
    rewrite Hs2. f_equal. symmetry. apply firstn_skipn.
Qed.

Lemma FindStringSubmatch_here (re : list reItem) (s w : gostring)
    (caps : list gostring) :
  matchAt re s = Some (w, caps) -> FindStringSubmatch re s = w :: caps.
Proof. intros H. destruct s; cbn [FindStringSubmatch]; rewrite H; reflexivity. Qed.

Lemma FindStringSubmatch_skip (re : list reItem) (pre s : gostring) :
  (forall p1 p2, pre = p1 ++ p2 -> p2 <> [] -> matchAt re (p2 ++ s) = None) ->
  FindStringSubmatch re (pre ++ s) = FindStringSubmatch re s.
Proof.
  induction pre as [| a pre IH]; intros H; [reflexivity |].
  pose proof (H [] (a :: pre) eq_refl ltac:(discriminate)) as H0.
  cbn [app] in H0 |- *. cbn [FindStringSubmatch]. rewrite H0.
  apply IH. intros p1 p2 -> Hp2. apply (H (a :: p1) p2); auto.
Qed.

(* ------------------------------------------------------------------ *)
(** ** [parseTier] *)

Lemma parseTier_at (pre d1 d2 post : gostring) :
  allDigits d1 -> allDigits d2 -> digitRun post = O ->
  (forall p1 p2, pre = p1 ++ p2 -> p2 <> [] ->
                 ~ TierAt (p2 ++ tierText d1 d2 ++ post)) ->
  parseTier (pre ++ tierText d1 d2 ++ post)
  = match Atoi d1, Atoi d2 with
    | Some cpu, Some ram => Ok (cpu, ram)
    | _, _ => Err InvalidTierNumbers
    end.
Proof.
  intros H1 H2 Hpost Hfirst. unfold parseTier.
  rewrite FindStringSubmatch_skip.
  - rewrite (FindStringSubmatch_here _ _ _ _ (matchAt_tier d1 d2 post H1 H2 Hpost)).
    reflexivity.
  - intros p1 p2 E Hp2.
    destruct (matchAt tierRegexp (p2 ++ tierText d1 d2 ++ post))
      as [[w caps] |] eqn:Em; [| reflexivity].
    exfalso. apply (Hfirst p1 p2 E Hp2).
    apply (matchAt_tier_sound _ _ _ Em).
Qed.

(** C6. Parsing after formatting is the identity: for every tier whose two
    fields are non-negative [int]s, [parseTier] applied to the string
    [db-custom-<vcpu>-<ram>] succeeds and returns exactly (vcpu, ram). *)
Theorem parseTier_formatTier :
  forall vcpu ram : Z,
    0 <= vcpu <= GoInt.max_int -> 0 <= ram <= GoInt.max_int ->
    parseTier (formatTier vcpu ram) = Ok (vcpu, ram).
Proof.
  intros vcpu ram Hv Hr.
  pose proof (parseTier_at [] (formatInt vcpu) (formatInt ram) []) as H.
  cbn [app] in H. unfold tierText in H. rewrite !app_nil_r in H.
  unfold formatTier. rewrite H.
  - rewrite !Atoi_formatInt by assumption. reflexivity.
  - apply formatInt_digits, Hv.
  - apply formatInt_digits, Hr.
  - reflexivity.
  - intros p1 p2 E Hp2. destruct p1; destruct p2; try discriminate E. congruence.
Qed.

Lemma parseTier_formatTier_witness :
  parseTier (formatTier 4 15360) = Ok (4, 15360).
Proof.
  apply parseTier_formatTier; unfold GoInt.max_int; lia.
Defined.

Lemma digitRun_skipn (s : gostring) : digitRun (skipn (digitRun s) s) = O.
Proof.
  induction s as [| a s IH]; [reflexivity |].
  cbn [digitRun]. destruct (isDigit a) eqn:Ha.
  - cbn [skipn]. exact IH.
  - cbn [skipn digitRun]. rewrite Ha. reflexivity.
Qed.

(** An occurrence can always be read with its second number taken up to the
    first character that is not a digit. *)
Lemma TierAt_maximal (s : gostring) :
  TierAt s ->
  exists d1 d2 post,
    allDigits d1 /\ allDigits d2 /\ digitRun post = O
    /\ s = tierText d1 d2 ++ post.
Proof.
  intros [d1 [d2 [rest [H1 [[Hn2 Hd2] ->]]]]].
  destruct (firstn_digitRun rest (digitRun rest) (le_n _)) as [Hd _].
  exists d1, (d2 ++ firstn (digitRun rest) rest), (skipn (digitRun rest) rest).
  split; [exact H1 |]. split; [| split].
  - split.
    + intros E. apply app_eq_nil in E. destruct E as [E _]. contradiction.
    + rewrite forallb_app, Hd2, Hd. reflexivity.
  - apply digitRun_skipn.
  - unfold tierText. rewrite <- !app_assoc.
    rewrite (firstn_skipn (digitRun rest) rest). reflexivity.
Qed.

Lemma matchAt_tier_complete (s : gostring) :
  TierAt s -> matchAt tierRegexp s <> None.
Proof.
  intros H. destruct (TierAt_maximal s H) as [d1 [d2 [post [H1 [H2 [Hp ->]]]]]].
  rewrite matchAt_tier by assumption. discriminate.
Qed.

Lemma matchAt_tier_caps (s w : gostring) (caps : list gostring) :
  matchAt tierRegexp s = Some (w, caps) -> length caps = 2%nat.
Proof.
  unfold tierRegexp. intros H.
  apply matchAt_chars_sound in H. destruct H as [s1 [w1 [_ [H _]]]].
  rewrite matchAt_digits in H. apply tryLengths_sound in H.
  destruct H as [j1 [w2 [caps2 [_ [H [_ ->]]]]]].
  change [ReChar "-"; ReDigits] with (map ReChar (lit "-") ++ [ReDigits]) in H.
  apply matchAt_chars_sound in H. destruct H as [s2 [w3 [_ [H _]]]].
  rewrite matchAt_digits in H. apply tryLengths_sound in H.
  destruct H as [j2 [w4 [caps4 [_ [H [_ ->]]]]]].
  cbn [matchAt] in H. injection H as _ <-. reflexivity.
Qed.

(** The search finds nothing exactly when the pattern matches at no
    position; what it finds is an anchored match at some position. *)
Lemma FindStringSubmatch_cases (re : list reItem) (s : gostring) :
  (FindStringSubmatch re s = []
   /\ forall pre rest, s = pre ++ rest -> matchAt re rest = None)
  \/ (exists pre rest w caps,
        s = pre ++ rest /\ matchAt re rest = Some (w, caps)
        /\ FindStringSubmatch re s = w :: caps).
Proof.
  induction s as [| a s IH].
  - cbn [FindStringSubmatch].
    destruct (matchAt re []) as [[w caps] |] eqn:E.
    + right. exists [], [], w, caps. auto.
    + left. split; [reflexivity |]. intros pre rest H.
      symmetry in H. apply app_eq_nil in H. destruct H as [_ ->]. exact E.
  - cbn [FindStringSubmatch].
    destruct (matchAt re (a :: s)) as [[w caps] |] eqn:E.
    + right. exists [], (a :: s), w, caps. auto.
    + destruct IH as [[Hnil Hall] | [pre [rest [w [caps [-> [Hm Hf]]]]]]].
      * left. split; [exact Hnil |]. intros pre rest H.
        destruct pre as [| b pre].
        -- cbn in H. subst rest. exact E.
        -- cbn in H. injection H as _ H. apply (Hall pre rest H).
      * right. exists (a :: pre), rest, w, caps. auto.
Qed.

(** [parseTier] reports a format error exactly on the strings that contain
    no occurrence of the pattern. *)
Lemma parseTier_format_error (s : gostring) :
  parseTier s = Err InvalidTierFormat
  <-> (forall pre rest, s = pre ++ rest -> ~ TierAt rest).
Proof.
  unfold parseTier.
  destruct (FindStringSubmatch_cases tierRegexp s)
    as [[Hnil Hall] | [pre [rest [w [caps [Hs [Hm Hf]]]]]]].
  - rewrite Hnil. cbn [length Nat.eqb negb]. split; [| reflexivity].
    intros _ pre rest E Ht. apply (matchAt_tier_complete rest Ht).
    apply (Hall pre rest E).
  - rewrite Hf. cbn [length]. rewrite (matchAt_tier_caps rest w caps Hm).
    cbn [Nat.eqb negb]. split.
    + destruct (Atoi (nth 1 (w :: caps) [])), (Atoi (nth 2 (w :: caps) []));
        discriminate.
    + intros H. exfalso. apply (H pre rest Hs).
      apply (matchAt_tier_sound rest w caps Hm).
Qed.

Lemma digitsValue_nonneg (ds : gostring) :
  forallb isDigit ds = true -> 0 <= digitsValue ds.
Proof.
  unfold digitsValue.
  assert (G : forall n, 0 <= n -> forallb isDigit ds = true ->
              0 <= fold_left (fun n ch => n * 10 + digitValue ch) ds n).
  { induction ds as [| c ds IH]; intros n Hn Hd; [exact Hn |].
    cbn [forallb] in Hd. apply andb_true_iff in Hd. destruct Hd as [Hc Hd].
    cbn [fold_left]. apply IH; [| exact Hd].
    unfold isDigit in Hc. apply andb_true_iff in Hc.
    destruct Hc as [Hc _]. apply N.leb_le in Hc.
    unfold digitValue. lia. }
  apply G. lia.
Qed.

(** On a run of digits [Atoi] fails exactly when the value overflows. *)
Lemma Atoi_allDigits (ds : gostring) :
  allDigits ds ->
  Atoi ds = if digitsValue ds <=? GoInt.max_int then Some (digitsValue ds)
            else None.
Proof.
  intros [Hne Hd]. rewrite Atoi_digits by assumption.
  pose proof (digitsValue_nonneg ds Hd) as Hnn.
  unfold GoInt.in_rangeb.
  replace (GoInt.min_int <=? digitsValue ds) with true; [reflexivity |].
  symmetry. apply Z.leb_le. unfold GoInt.min_int. lia.
Qed.

(** C10, amended.  The match is not anchored: [parseTier] reports a format
    error exactly on the strings that contain no
    [db-custom-<digits>-<digits>]; on a string that contains one, with
    arbitrary text before and after, it returns the two numbers of the first
    occurrence (the second number read up to the first character that is
    not a digit) when both fit an [int], and reports invalid numbers when
    one does not.  In particular [xdb-custom-1-3840y] parses to (1, 3840). *)
Theorem parseTier_unanchored :
  (forall s : gostring,
      parseTier s = Err InvalidTierFormat
      <-> (forall pre rest, s = pre ++ rest -> ~ TierAt rest))
  /\ (forall pre d1 d2 post : gostring,
        allDigits d1 -> allDigits d2 -> digitRun post = O ->
        (forall p1 p2, pre = p1 ++ p2 -> p2 <> [] ->
                       ~ TierAt (p2 ++ tierText d1 d2 ++ post)) ->
        parseTier (pre ++ tierText d1 d2 ++ post)
        = if (digitsValue d1 <=? GoInt.max_int)
             && (digitsValue d2 <=? GoInt.max_int)
          then Ok (digitsValue d1, digitsValue d2)
          else Err InvalidTierNumbers)
  /\ parseTier (lit "xdb-custom-1-3840y") = Ok (1, 3840).
Proof.
  split; [exact parseTier_format_error | split; [| reflexivity]].
  intros pre d1 d2 post H1 H2 Hpost Hfirst.
  rewrite parseTier_at by assumption.
  rewrite !Atoi_allDigits by assumption.
  destruct (digitsValue d1 <=? GoInt.max_int),
    (digitsValue d2 <=? GoInt.max_int); reflexivity.
Qed.

Lemma parseTier_unanchored_witness :
  parseTier (lit "x" ++ tierText (lit "1") (lit "3840") ++ lit "y")
  = if (digitsValue (lit "1") <=? GoInt.max_int)
       && (digitsValue (lit "3840") <=? GoInt.max_int)
    then Ok (digitsValue (lit "1"), digitsValue (lit "3840"))
    else Err InvalidTierNumbers.
Proof.
  apply (proj1 (proj2 parseTier_unanchored)).
  - split; [discriminate | reflexivity].
  - split; [discriminate | reflexivity].
  - reflexivity.
  - intros p1 p2 E Hp2 [e1 [e2 [rest [_ [_ Ht]]]]].
    destruct p1 as [| a p1].
    + cbn in E. subst p2. discriminate Ht.
    + destruct p1; [| destruct p1; discriminate E].
      destruct p2; [congruence | discriminate E].
Defined.

(** C10 as first stated fails: a string can contain the pattern and still be
    refused, when a number does not fit an [int] and [strconv.Atoi] reports
    a range error. *)
Lemma parseTier_overflow_counterexample :
  TierAt (lit "db-custom-99999999999999999999-1")
  /\ parseTier (lit "db-custom-99999999999999999999-1")
     = Err InvalidTierNumbers.
Proof.
  split; [| reflexivity].
  exists (lit "99999999999999999999"), (lit "1"), [].
  repeat split; discriminate.
Qed.

(* ------------------------------------------------------------------ *)
(** ** [parseMem] *)

Lemma digit_char_classes (c : ascii) :
  isDigit c = true ->
  isSpace c = false
  /\ Ascii.eqb c "013" = false
  /\ Ascii.eqb c "010" = false
  /\ charIn c (lit "0123456789_") = true
  /\ charIn c (lit "nN") = false
  /\ charIn c (lit "+-") = false
  /\ charIn c (lit "iI") = false
  /\ charIn c (lit "xX") = false.
Proof.
  destruct c as [[] [] [] [] [] [] [] []]; intros H;
    try discriminate H; repeat split.
Qed.

Lemma acceptAll_digits (buf ds : gostring) :
  forallb isDigit ds = true ->
  acceptAll "0123456789_" buf ds = (buf ++ ds, []).
Proof.
  revert buf. induction ds as [| c ds IH]; intros buf H.
  - rewrite app_nil_r. reflexivity.
  - cbn [forallb] in H. apply andb_true_iff in H. destruct H as [Hc Hd].
    cbn [acceptAll].
    rewrite (proj1 (proj2 (proj2 (proj2 (digit_char_classes c Hc))))).
    rewrite IH, <- app_assoc by assumption. reflexivity.
Qed.

Lemma accept_miss (ok : string) (buf : gostring) (c : ascii) (rest : gostring) :
  charIn c (lit ok) = false ->
  accept ok (buf, c :: rest) = (false, (buf, c :: rest)).
Proof. intros H. unfold accept. cbn [fst snd]. rewrite H. reflexivity. Qed.

Lemma accept_hit (ok : string) (buf : gostring) (c : ascii) (rest : gostring) :
  charIn c (lit ok) = true ->
  accept ok (buf, c :: rest) = (true, (buf ++ [c], rest)).
Proof. intros H. unfold accept. cbn [fst snd]. rewrite H. reflexivity. Qed.

Lemma accept_eof (ok : string) (buf : gostring) :
  accept ok (buf, []) = (false, (buf, [])).
Proof. reflexivity. Qed.

Lemma andAccept_false (ok : string) (st : tokenState) :
  andAccept ok (false, st) = (false, st).
Proof. reflexivity. Qed.

Lemma andAccept_true (ok : string) (st : tokenState) :
  andAccept ok (true, st) = accept ok st.
Proof. reflexivity. Qed.

(** On a run of digits up to the end of input, the float token is the
    whole input. *)
Lemma floatToken_digits (ds : gostring) :
  ds <> [] -> forallb isDigit ds = true -> floatToken ds = (ds, []).
Proof.
  intros Hne H. destruct ds as [| c rest]; [congruence |].
  pose proof H as Hall.
  cbn [forallb] in H. apply andb_true_iff in H. destruct H as [Hc Hd].
  destruct (digit_char_classes c Hc)
    as [_ [_ [_ [Hdig [Hnan [Hsign [Hinf _]]]]]]].
  unfold floatToken.
  rewrite (accept_miss "nN") by exact Hnan. rewrite !andAccept_false.
  cbn [fst snd].
  rewrite (accept_miss "+-") by exact Hsign. cbn [fst snd].
  rewrite (accept_miss "iI") by exact Hinf. rewrite !andAccept_false.
  cbn [fst snd].
  match goal with
  | |- context [andAccept "xX" ?st] =>
      assert (Hhex : andAccept "xX" st
                     = (false, (if charIn c (lit "0") then [c] else [],
                                if charIn c (lit "0") then rest else c :: rest)))
  end.
  { destruct (charIn c (lit "0")) eqn:Hz.
    - rewrite (accept_hit "0") by exact Hz. rewrite andAccept_true.
      destruct rest as [| r rest0]; [reflexivity |].
      cbn [forallb] in Hd. apply andb_true_iff in Hd.
      apply accept_miss. apply (digit_char_classes r (proj1 Hd)).
    - rewrite (accept_miss "0") by exact Hz. apply andAccept_false. }
  rewrite Hhex. cbn [fst snd].
  destruct (charIn c (lit "0")).
  - rewrite acceptAll_digits by exact Hd. reflexivity.
  - rewrite acceptAll_digits by exact Hall. reflexivity.
Qed.

Lemma SkipSpace_digit (c : ascii) (rest : gostring) :
  isDigit c = true -> SkipSpace (c :: rest) = Ok (c :: rest).
Proof.
  intros Hc. destruct (digit_char_classes c Hc) as [Hs [Hcr [Hnl _]]].
  cbn [SkipSpace]. rewrite Hcr, Hnl, Hs. reflexivity.
Qed.

Section ParseMemFacts.

Variable convertFloat : gostring -> option F64.float64.

(** A bare number, with nothing after its digits, is refused: the [%s]
    verb finds the input exhausted and [Sscanf] reports an error. *)
Lemma parseMem_bare_number (ds : gostring) :
  ds <> [] -> forallb isDigit ds = true ->
  parseMem convertFloat ds = Err InvalidMemoryFormat.
Proof.
  intros Hne Hd. unfold parseMem, Sscanf_f_s.
  destruct ds as [| c rest] eqn:E; [congruence |].
  rewrite SkipSpace_digit
    by (cbn [forallb] in Hd; apply andb_true_iff in Hd; apply Hd).
  rewrite floatToken_digits by assumption.
  destruct (convertFloat (c :: rest)); reflexivity.
Qed.

Lemma SkipSpace_head (s : gostring) (b : ascii) (rest : gostring) :
  SkipSpace s = Ok (b :: rest) -> isSpace b = false.
Proof.
  induction s as [| r s IH]; cbn [SkipSpace]; [discriminate |].
  destruct (Ascii.eqb r "013"
            && match s with c :: _ => Ascii.eqb c "010" | [] => false end);
    [exact IH |].
  destruct (Ascii.eqb r "010"); [discriminate |].
  destruct (isSpace r) eqn:Hr; [exact IH |].
  intros H. injection H as -> _. exact Hr.
Qed.

(** Whenever [Sscanf] reports no error the unit it stored is not empty:
    the arm of the [switch] for the empty unit is never taken. *)
Lemma Sscanf_unit_nonempty (str : gostring) :
  scan_err (Sscanf_f_s convertFloat str) = None ->
  scan_unit (Sscanf_f_s convertFloat str) <> [].
Proof.
  unfold Sscanf_f_s.
  destruct (SkipSpace str) as [[| a input] | e]; try discriminate.
  destruct (floatToken (a :: input)) as [token input'].
  destruct (convertFloat token) as [v |]; try discriminate.
  destruct (SkipSpace input') as [[| b rest] | e] eqn:E; try discriminate.
  intros _. cbn [scan_unit wordToken].
  rewrite (SkipSpace_head _ _ _ E). discriminate.
Qed.

End ParseMemFacts.

(** Skipping spaces twice is skipping them once: the scanner skips before
    each verb and again inside it, to the same effect. *)
Lemma SkipSpace_idempotent (s s' : gostring) :
  SkipSpace s = Ok s' -> SkipSpace s' = Ok s'.
Proof.
  induction s as [| r s IH]; cbn [SkipSpace].
  - intros H. injection H as <-. reflexivity.
  - destruct (Ascii.eqb r "013"
              && match s with c :: _ => Ascii.eqb c "010" | [] => false end)
      eqn:Hcr; [exact IH |].
    destruct (Ascii.eqb r "010") eqn:Hnl; [discriminate |].
    destruct (isSpace r) eqn:Hsp; [exact IH |].
    intros H. injection H as <-. cbn [SkipSpace].
    rewrite Hcr, Hnl, Hsp. reflexivity.
Qed.

Lemma strEq_true (a : gostring) (b : string) : strEq a b = true -> a = lit b.
Proof. unfold strEq. destruct (list_eq_dec ascii_dec a (lit b)); [auto | discriminate]. Qed.

Section ParseMemUnits.

Variable convertFloat : gostring -> option F64.float64.

(** Every success of [parseMem] went through one of the four unit
    letters. *)
Lemma parseMem_ok_unit (memStr : gostring) (v : F64.float64) :
  parseMem convertFloat memStr = Ok v ->
  let unit := scan_unit (Sscanf_f_s convertFloat memStr) in
  unit = lit "G" \/ unit = lit "g" \/ unit = lit "M" \/ unit = lit "m".
Proof.
  unfold parseMem. destruct memStr as [| a rest]; [discriminate |].
  pose proof (Sscanf_unit_nonempty convertFloat (a :: rest)) as Hne.
  destruct (scan_err (Sscanf_f_s convertFloat (a :: rest))); [discriminate |].
  specialize (Hne eq_refl).
  destruct (scan_n _ <? 1)%nat; [discriminate |].
  cbv zeta.
  destruct (strEq _ "G") eqn:EG; [intros _; left; apply strEq_true, EG |].
  destruct (strEq _ "g") eqn:Eg;
    [intros _; right; left; apply strEq_true, Eg |].
  destruct (strEq _ "M") eqn:EM;
    [intros _; right; right; left; apply strEq_true, EM |].
  destruct (strEq _ "m") eqn:Em;
    [intros _; right; right; right; apply strEq_true, Em |].
  destruct (strEq _ EmptyString) eqn:E0; [| discriminate].
  apply strEq_true in E0. contradiction.
Qed.

(** With a unit letter the number is scaled as documented. *)
Lemma parseMem_with_unit (v : F64.float64) :
  convertFloat (lit "6144") = Some v ->
  parseMem convertFloat (lit "6144M") = Ok v
  /\ parseMem convertFloat (lit "6144m") = Ok v
  /\ parseMem convertFloat (lit "6144G") = Ok (F64.mul v F64.c1024)
  /\ parseMem convertFloat (lit "6144g") = Ok (F64.mul v F64.c1024)
  /\ parseMem convertFloat (lit "6144k") = Err (InvalidUnit (lit "k")).
Proof.
  intros H. vm_compute in H.
  repeat split; vm_compute; rewrite H; reflexivity.
Qed.

(** After the unit the scanner stops reading: text that follows a space is
    ignored, and spaces between the number and the unit are skipped. *)
Lemma parseMem_text_after_space (v : F64.float64) :
  convertFloat (lit "6") = Some v ->
  parseMem convertFloat (lit "6G x") = Ok (F64.mul v F64.c1024)
  /\ parseMem convertFloat (lit "6 G") = Ok (F64.mul v F64.c1024)
  /\ parseMem convertFloat (lit "6Gx") = Err (InvalidUnit (lit "Gx")).
Proof.
  intros H. vm_compute in H.
  repeat split; vm_compute; rewrite H; reflexivity.
Qed.

End ParseMemUnits.

(** C3.  [parseMem] on a number without unit suffix.  The claim has a bare
    number such as [6144] accepted and read as megabytes; the code refuses
    it, whatever the float conversion: after [%f] has read the digits, [%s]
    finds no input and [Sscanf] returns an error, which [parseMem] reports
    as an invalid memory format. *)
Theorem parseMem_refuses_bare_number :
  forall convertFloat : gostring -> option F64.float64,
    parseMem convertFloat (lit "6144") = Err InvalidMemoryFormat.
Proof.
  intros convertFloat. apply parseMem_bare_number; [discriminate | reflexivity].
Qed.

(* ================================================================== *)
(** * Further properties of the code *)

(* ------------------------------------------------------------------ *)
(** ** The table as the searches see it *)

Lemma knownTiers_sorted : StronglySorted tierLt knownTiers.
Proof. apply ascendingb_sorted. vm_compute. reflexivity. Qed.

Lemma knownTiers_valid (t : KnownTier.t) :
  In t knownTiers ->
  validateTier (KnownTier.cpu t) (KnownTier.ram t) = true.
Proof.
  revert t. apply Forall_forall, Forall_forall. apply forallb_forall.
  vm_compute. reflexivity.
Qed.

Lemma StronglySorted_split {A : Type} (R : A -> A -> Prop)
    (before after : list A) (x : A) :
  StronglySorted R (before ++ x :: after) ->
  Forall (fun y => R y x) before /\ Forall (R x) after.
Proof.
  induction before as [| b before IH]; cbn [app]; intros H.
  - split; [constructor | apply StronglySorted_inv in H; apply H].
  - apply StronglySorted_inv in H. destruct H as [Hs Hb].
    destruct (IH Hs) as [H1 H2]. split; [| exact H2].
    constructor; [| exact H1].
    rewrite Forall_forall in Hb. apply Hb. apply in_or_app. right. left.
    reflexivity.
Qed.

Lemma Above_tupleLt (cpu ram : Z) (t : KnownTier.t) :
  Above cpu ram t <-> tupleLt (cpu, ram) (tierPair t).
Proof. unfold Above, tupleLt, tierPair. cbn [fst snd]. lia. Qed.

Lemma Below_tupleLt (cpu ram : Z) (t : KnownTier.t) :
  Below cpu ram t <-> tupleLt (tierPair t) (cpu, ram).
Proof. unfold Below, tupleLt, tierPair. cbn [fst snd]. lia. Qed.

Lemma tupleLe_of_tierLt (a b : KnownTier.t) :
  tierLt a b -> tupleLe (tierPair a) (tierPair b).
Proof. intros H. right. exact H. Qed.

(** What a successful forward search returns, on any sorted table. *)
Lemma findNextIn_least (table : list KnownTier.t) (cpu ram c r : Z) :
  StronglySorted tierLt table ->
  findNextIn table cpu ram = (c, r, true) ->
  In (KnownTier.mk c r) table
  /\ tupleLt (cpu, ram) (c, r)
  /\ (forall t, In t table -> tupleLt (cpu, ram) (tierPair t) ->
                tupleLe (c, r) (tierPair t)).
Proof.
  intros Hs H. apply findNextIn_found in H.
  destruct H as [before [after [E [Hb Ha]]]]. subst table.
  destruct (StronglySorted_split _ _ _ _ Hs) as [_ Hafter].
  split; [apply in_or_app; right; left; reflexivity |].
  split; [apply (Above_tupleLt cpu ram (KnownTier.mk c r)), Ha |].
  intros t Ht Habove. apply in_app_or in Ht. destruct Ht as [Ht | [<- | Ht]].
  - exfalso. rewrite Forall_forall in Hb. apply (Hb t Ht).
    apply Above_tupleLt, Habove.
  - left. reflexivity.
  - rewrite Forall_forall in Hafter.
    apply (tupleLe_of_tierLt (KnownTier.mk c r) t), Hafter, Ht.
Qed.

Lemma findPrevFrom_greatest (table : list KnownTier.t) (cpu ram c r : Z) :
  StronglySorted tierLt table ->
  findPrevFrom table (length table) cpu ram = Some (c, r, true) ->
  In (KnownTier.mk c r) table
  /\ tupleLt (c, r) (cpu, ram)
  /\ (forall t, In t table -> tupleLt (tierPair t) (cpu, ram) ->
                tupleLe (tierPair t) (c, r)).
Proof.
  intros Hs H. apply findPrevFrom_found in H.
  destruct H as [before [after [E [Ha Hb]]]]. subst table.
  destruct (StronglySorted_split _ _ _ _ Hs) as [Hbefore _].
  split; [apply in_or_app; right; left; reflexivity |].
  split; [apply (Below_tupleLt cpu ram (KnownTier.mk c r)), Hb |].
  intros t Ht Hbelow. apply in_app_or in Ht. destruct Ht as [Ht | [<- | Ht]].
  - rewrite Forall_forall in Hbefore.
    apply (tupleLe_of_tierLt t (KnownTier.mk c r)), Hbefore, Ht.
  - left. reflexivity.
  - exfalso. rewrite Forall_forall in Ha. apply (Ha t Ht).
    apply Below_tupleLt, Hbelow.
Qed.

(** X1. A tier found by [findNextKnownTier] is an entry of the table, passes
    [validateTier], lies strictly above the query, and is the least entry
    that does. *)
Theorem next_known_tier_is_nearest :
  forall cpu ram c r : Z,
    findNextKnownTier cpu ram = (c, r, true) ->
    In (KnownTier.mk c r) knownTiers
    /\ validateTier c r = true
    /\ tupleLt (cpu, ram) (c, r)
    /\ (forall t, In t knownTiers -> tupleLt (cpu, ram) (tierPair t) ->
                  tupleLe (c, r) (tierPair t)).
Proof.
  intros cpu ram c r H.
  destruct (findNextIn_least knownTiers cpu ram c r knownTiers_sorted H)
    as [Hin [Hlt Hleast]].
  split; [exact Hin |]. split; [| split; assumption].
  apply (knownTiers_valid (KnownTier.mk c r) Hin).
Qed.

Lemma next_known_tier_is_nearest_witness :
  In (KnownTier.mk 2 13312) knownTiers
  /\ validateTier 2 13312 = true
  /\ tupleLt (2, 8000) (2, 13312)
  /\ (forall t, In t knownTiers -> tupleLt (2, 8000) (tierPair t) ->
                tupleLe (2, 13312) (tierPair t)).
Proof.
  apply (next_known_tier_is_nearest 2 8000 2 13312). reflexivity.
Defined.

(** X2. A tier found by [findPreviousKnownTier] (the suggestion of the
    [-downgrade] mode) is an entry of the table, passes [validateTier], lies
    strictly below the query, and is the greatest entry that does. *)
Theorem previous_known_tier_is_nearest :
  forall cpu ram c r : Z,
    findPreviousKnownTier cpu ram = Some (c, r, true) ->
    In (KnownTier.mk c r) knownTiers
    /\ validateTier c r = true
    /\ tupleLt (c, r) (cpu, ram)
    /\ (forall t, In t knownTiers -> tupleLt (tierPair t) (cpu, ram) ->
                  tupleLe (tierPair t) (c, r)).
Proof.
  intros cpu ram c r H.
  destruct (findPrevFrom_greatest knownTiers cpu ram c r knownTiers_sorted H)
    as [Hin [Hlt Hmost]].
  split; [exact Hin |]. split; [| split; assumption].
  apply (knownTiers_valid (KnownTier.mk c r) Hin).
Qed.

Lemma previous_known_tier_is_nearest_witness :
  In (KnownTier.mk 8 30720) knownTiers
  /\ validateTier 8 30720 = true
  /\ tupleLt (8, 30720) (8, 53248)
  /\ (forall t, In t knownTiers -> tupleLt (tierPair t) (8, 53248) ->
                tupleLe (tierPair t) (8, 30720)).
Proof.
  apply (previous_known_tier_is_nearest 8 53248 8 30720). reflexivity.
Defined.

Lemma knownTiers_bounds (t : KnownTier.t) :
  In t knownTiers ->
  tupleLe (1, 3840) (tierPair t) /\ tupleLe (tierPair t) (96, 638976).
Proof.
  revert t. apply Forall_forall. unfold knownTiers. cbn [map fst snd].
  repeat (constructor;
          [unfold tupleLe, tupleLt, tierPair; cbn [fst snd KnownTier.cpu KnownTier.ram];
           split; first [left; reflexivity | right; lia] |]).
  constructor.
Qed.

Lemma tupleLt_le_trans (a b c : Z * Z) :
  tupleLt a b -> tupleLe b c -> tupleLt a c.
Proof. intros H [<- | H2]; [exact H | eapply tupleLt_trans; eauto]. Qed.

Lemma tupleLe_lt_trans (a b c : Z * Z) :
  tupleLe a b -> tupleLt b c -> tupleLt a c.
Proof. intros [-> | H1] H; [exact H | eapply tupleLt_trans; eauto]. Qed.

(** Whether the forward search finds a tier is decided by the last entry
    of the table. *)
Lemma findNextKnownTier_split (cpu ram : Z) :
  (tupleLt (cpu, ram) (96, 638976)
   /\ exists c r, findNextKnownTier cpu ram = (c, r, true))
  \/ (~ tupleLt (cpu, ram) (96, 638976)
      /\ findNextKnownTier cpu ram = (0, 0, false)).
Proof.
  assert (Hlast : In (KnownTier.mk 96 638976) knownTiers)
    by (vm_compute; tauto).
  unfold findNextKnownTier.
  destruct (findNextIn knownTiers cpu ram) as [[c r] [|]] eqn:E.
  - left. split; [| exists c, r; reflexivity].
    destruct (findNextIn_least knownTiers cpu ram c r knownTiers_sorted E)
      as [Hin [Hlt _]].
    apply (tupleLt_le_trans _ _ _ Hlt).
    apply (knownTiers_bounds (KnownTier.mk c r) Hin).
  - assert (E' : snd (findNextIn knownTiers cpu ram) = false)
      by (rewrite E; reflexivity).
    right. split.
    + intros Hlt. apply findNextIn_not_found in E'.
      rewrite Forall_forall in E'.
      apply (E' _ Hlast). apply Above_tupleLt. exact Hlt.
    + rewrite <- E. apply findNextIn_not_found_value, E'.
Qed.

(** Whether the backward search finds a tier is decided by the first
    entry. *)
Lemma findPreviousKnownTier_split (cpu ram : Z) :
  (tupleLt (1, 3840) (cpu, ram)
   /\ exists c r, findPreviousKnownTier cpu ram = Some (c, r, true))
  \/ (~ tupleLt (1, 3840) (cpu, ram)
      /\ findPreviousKnownTier cpu ram = Some (0, 0, false)).
Proof.
  assert (Hfirst : In (KnownTier.mk 1 3840) knownTiers)
    by (vm_compute; tauto).
  destruct (findPrevFrom_total knownTiers cpu ram) as [c [r [[|] [E Hz]]]].
  - left. split; [| exists c, r; exact E].
    destruct (findPrevFrom_greatest knownTiers cpu ram c r knownTiers_sorted E)
      as [Hin [Hlt _]].
    apply (tupleLe_lt_trans _ (c, r)); [| exact Hlt].
    apply (knownTiers_bounds (KnownTier.mk c r) Hin).
  - destruct (Hz eq_refl) as [-> ->]. right. split; [| exact E].
    intros Hlt. apply findPrevFrom_not_found in E.
    rewrite Forall_forall in E.
    apply (E _ Hfirst). apply Below_tupleLt. exact Hlt.
Qed.

(** X3. [findNextKnownTier] finds a tier exactly for the queries strictly
    below the last entry (96, 638976), and [findPreviousKnownTier] exactly
    for the queries strictly above the first entry (1, 3840); otherwise each
    returns the zero tier marked not found. *)
Theorem known_tier_found_iff :
  forall cpu ram : Z,
    ((exists c r, findNextKnownTier cpu ram = (c, r, true))
     <-> tupleLt (cpu, ram) (96, 638976))
    /\ (findNextKnownTier cpu ram = (0, 0, false)
        <-> ~ tupleLt (cpu, ram) (96, 638976))
    /\ ((exists c r, findPreviousKnownTier cpu ram = Some (c, r, true))
        <-> tupleLt (1, 3840) (cpu, ram))
    /\ (findPreviousKnownTier cpu ram = Some (0, 0, false)
        <-> ~ tupleLt (1, 3840) (cpu, ram)).
Proof.
  intros cpu ram.
  destruct (findNextKnownTier_split cpu ram) as [[Hn [cn [rn En]]] | [Hn En]];
    destruct (findPreviousKnownTier_split cpu ram)
      as [[Hp [cp [rp Ep]]] | [Hp Ep]];
    rewrite En, Ep;
    repeat split;
    try (intros _; assumption);
    try (intros _; eexists; eexists; reflexivity);
    try (intros H; discriminate H);
    try (intros [c [r H]]; discriminate H);
    try (intros H; contradiction);
    try reflexivity.
Qed.

(** X4. On the table the two searches are inverse to each other: from every
    entry but the last, the next tier is found and the tier before that one
    is the entry again; from every entry but the first, likewise with the
    searches exchanged. *)
Theorem known_tier_round_trip :
  forall c r : Z,
    In (KnownTier.mk c r) knownTiers ->
    ((c, r) <> (96, 638976) ->
     exists c' r',
       findNextKnownTier c r = (c', r', true)
       /\ findPreviousKnownTier c' r' = Some (c, r, true))
    /\ ((c, r) <> (1, 3840) ->
        exists c' r',
          findPreviousKnownTier c r = Some (c', r', true)
          /\ findNextKnownTier c' r' = (c, r, true)).
Proof.
  intros c r Hin. unfold knownTiers in Hin. cbn [map In fst snd] in Hin.
  repeat (destruct Hin as [Hin | Hin];
          [injection Hin as <- <-;
           split; intros Hne;
           first [ do 2 eexists; split; reflexivity
                 | exfalso; apply Hne; reflexivity ] |]).
  destruct Hin.
Qed.

Lemma known_tier_round_trip_witness :
  ((4, 15360) <> (96, 638976) ->
   exists c' r',
     findNextKnownTier 4 15360 = (c', r', true)
     /\ findPreviousKnownTier c' r' = Some (4, 15360, true))
  /\ ((4, 15360) <> (1, 3840) ->
      exists c' r',
        findPreviousKnownTier 4 15360 = Some (c', r', true)
        /\ findNextKnownTier c' r' = (4, 15360, true)).
Proof.
  apply (known_tier_round_trip 4 15360). vm_compute. tauto.
Defined.

(* ------------------------------------------------------------------ *)
(** ** The rounding engine as a clamp *)

Lemma fixCpu_eq (cpu : Z) :
  fixCpu cpu =
  if cpu <? 1 then 1
  else if cpu >? 96 then 96
  else if (cpu =? 1) || Z.even cpu then cpu
  else cpu + 1.
Proof.
  unfold fixCpu, nearestValidTier. cbn [fst].
  destruct (Z.ltb_spec cpu 1); [reflexivity |].
  destruct (Z.gtb_spec cpu 96); [reflexivity |].
  rewrite odd_test_iff_even.
  destruct (cpu =? 1), (Z.even cpu); cbn [negb andb orb]; try reflexivity.
  unfold GoInt.add. apply wrap_small. int_range.
Qed.

Lemma fixCpu_least (cpu c' : Z) :
  ValidCpu c' -> cpu <= c' -> fixCpu cpu <= c'.
Proof.
  intros [Hr Hp] Hle. rewrite fixCpu_eq.
  destruct (Z.ltb_spec cpu 1); [lia |].
  destruct (Z.gtb_spec cpu 96); [lia |].
  destruct (Z.eqb_spec cpu 1); cbn [orb]; [lia |].
  destruct (Z.even cpu) eqn:Hev; [lia |].
  destruct (Z.eq_dec c' cpu) as [-> | Hne]; [| lia].
  destruct Hp as [-> | Hp]; congruence.
Qed.

Lemma fixCpu_above (cpu : Z) : cpu <= 96 -> cpu <= fixCpu cpu.
Proof.
  intros H. rewrite fixCpu_eq.
  destruct (Z.ltb_spec cpu 1); [lia |].
  destruct (Z.gtb_spec cpu 96); [lia |].
  destruct ((cpu =? 1) || Z.even cpu); lia.
Qed.

Lemma fixCpu_mono (cpu1 cpu2 : Z) :
  cpu1 <= cpu2 -> fixCpu cpu1 <= fixCpu cpu2.
Proof.
  intros H. destruct (fixCpu_cases cpu2) as [Hr [Hp _]].
  destruct (Z.leb_spec cpu2 96) as [H96 | H96].
  - apply fixCpu_least; [split; assumption |].
    pose proof (fixCpu_above cpu2 H96). lia.
  - destruct (fixCpu_cases cpu1) as [Hr1 _].
    rewrite (fixCpu_eq cpu2).
    destruct (Z.ltb_spec cpu2 1); [lia |].
    destruct (Z.gtb_spec cpu2 96); lia.
Qed.

(** Without wrap-around the memory returned is the request rounded up to a
    multiple of 256 and clamped into the band of the adjusted vCPU count. *)
Lemma nearestValidTier_clamp (cpu ram : Z) :
  GoInt.min_int <= ram <= GoInt.max_int - 255 ->
  snd (nearestValidTier cpu ram)
  = Z.min (6656 * fixCpu cpu)
      (Z.max (minRamSpec (fixCpu cpu))
         (Z.max 3840 (Z.quot (ram + 255) 256 * 256))).
Proof.
  intros Hr. rewrite nearestValidTier_ram. cbv zeta.
  destruct (fixCpu_cases cpu) as [Hc _].
  destruct (rounded_bounds (fixCpu cpu) Hc) as [Emin [Emax _]].
  rewrite Emin, Emax, upperBound_eq, roundUp256_quot.
  unfold GoInt.add. rewrite wrap_small by int_range.
  fold (minRamSpec (fixCpu cpu)).
  set (up := Z.quot (ram + 255) 256 * 256).
  destruct (Z.ltb_spec up 3840);
    (match goal with
     | |- context [ (?a <? minRamSpec ?c) ] =>
         destruct (Z.ltb_spec a (minRamSpec c))
     end);
    (match goal with
     | |- context [ (?a >? 6656 * ?c) ] => destruct (Z.gtb_spec a (6656 * c))
     end); lia.
Qed.

Lemma validateTier_cpu (c m : Z) :
  validateTier c m = true -> ValidCpu c.
Proof.
  intros H. apply validateTier_rules in H. destruct H. split; assumption.
Qed.

(** X5. Within the range where [ram + 255] does not wrap, [nearestValidTier]
    rounds up: the vCPU count returned is the least one the validator
    accepts at or above the request (96 when the request is larger), and
    the memory returned is the least memory valid for that count at or above
    the request, or the largest valid memory, [6656 * cpu], when the request
    exceeds it. *)
Theorem nearestValidTier_rounds_up :
  forall cpu ram : Z,
    GoInt.min_int <= ram <= GoInt.max_int - 255 ->
    let c := fst (nearestValidTier cpu ram) in
    let m := snd (nearestValidTier cpu ram) in
    validateTier c m = true
    /\ (cpu <= 96 -> cpu <= c)
    /\ (96 <= cpu -> c = 96)
    /\ (forall c', ValidCpu c' -> cpu <= c' -> c <= c')
    /\ (ram <= 6656 * c -> ram <= m)
    /\ (6656 * c <= ram -> m = 6656 * c)
    /\ (forall m', validateTier c m' = true -> ram <= m' -> m <= m').
Proof.
  intros cpu ram Hr c m. subst c m.
  rewrite nearestValidTier_cpu, nearestValidTier_clamp by assumption.
  destruct (fixCpu_cases cpu) as [Hc [Hp _]].
  destruct (rounded_bounds (fixCpu cpu) Hc) as [Emin [Emax [Hord _]]].
  rewrite Emin, Emax, upperBound_eq in Hord.
  fold (minRamSpec (fixCpu cpu)) in Hord.
  set (c := fixCpu cpu) in *.
  assert (Hup : ram <= Z.quot (ram + 255) 256 * 256 \/ ram < 0).
  { destruct (Z.leb_spec 0 ram); [left | right; assumption].
    rewrite Z.quot_div_nonneg by lia.
    Z.to_euclidean_division_equations. lia. }
  split; [| split; [| split; [| split; [| split; [| split]]]]].
  - pose proof (nearestValidTier_valid cpu ram) as Hv.
    rewrite nearestValidTier_cpu, nearestValidTier_clamp in Hv by assumption.
    apply validateTier_rules. exact Hv.
  - apply fixCpu_above.
  - intros H. unfold c. rewrite fixCpu_eq.
    destruct (Z.ltb_spec cpu 1); [lia |].
    destruct (Z.gtb_spec cpu 96); [reflexivity |].
    replace cpu with 96 by lia. reflexivity.
  - apply fixCpu_least.
  - lia.
  - intros H. 
    assert (6656 * c <= Z.quot (ram + 255) 256 * 256) by lia. lia.
  - intros m' Hv Hle. apply validateTier_rules in Hv.
    destruct Hv as [_ _ Hg Hf Hlo Hhi]. rewrite upperBound_eq in Hhi.
    assert (H1 : Z.quot (ram + 255) 256 * 256 <= m').
    { destruct (Z.leb_spec 0 (ram + 255)).
      - rewrite Z.quot_div_nonneg by lia.
        Z.to_euclidean_division_equations. lia.
      - assert (Z.quot (ram + 255) 256 <= 0).
        { replace (ram + 255) with (- (- (ram + 255))) by lia.
          rewrite Z.quot_opp_l, Z.quot_div_nonneg by lia.
          pose proof (Z.div_pos (- (ram + 255)) 256). lia. }
        lia. }
    assert (H2 : minRamSpec c <= m').
    { unfold minRamSpec. Z.to_euclidean_division_equations. lia. }
    lia.
Qed.

Lemma nearestValidTier_rounds_up_witness :
  let c := fst (nearestValidTier 7 20000) in
  let m := snd (nearestValidTier 7 20000) in
  validateTier c m = true
  /\ (7 <= 96 -> 7 <= c)
  /\ (96 <= 7 -> c = 96)
  /\ (forall c', ValidCpu c' -> 7 <= c' -> c <= c')
  /\ (20000 <= 6656 * c -> 20000 <= m)
  /\ (6656 * c <= 20000 -> m = 6656 * c)
  /\ (forall m', validateTier c m' = true -> 20000 <= m' -> m <= m').
Proof.
  apply (nearestValidTier_rounds_up 7 20000).
  unfold GoInt.min_int, GoInt.max_int. lia.
Defined.

Lemma lowerBound_mono (c1 c2 : Z) :
  0 <= c1 <= c2 -> minRamSpec c1 <= minRamSpec c2.
Proof.
  intros H. unfold minRamSpec. rewrite !lowerBound_eq by lia.
  Z.to_euclidean_division_equations. lia.
Qed.

Lemma quot_round_mono (r1 r2 : Z) :
  r1 <= r2 -> Z.quot (r1 + 255) 256 * 256 <= Z.quot (r2 + 255) 256 * 256.
Proof.
  intros H. assert (Z.quot (r1 + 255) 256 <= Z.quot (r2 + 255) 256)
    by (apply Z.quot_le_mono; lia).
  lia.
Qed.

(** X6. [nearestValidTier] is monotone: as long as the memory requests stay
    where [ram + 255] does not wrap, asking for at least as many vCPUs and
    at least as much memory gives at least as many vCPUs and at least as
    much memory. *)
Theorem nearestValidTier_monotone :
  forall cpu1 ram1 cpu2 ram2 : Z,
    cpu1 <= cpu2 -> ram1 <= ram2 ->
    GoInt.min_int <= ram1 -> ram2 <= GoInt.max_int - 255 ->
    fst (nearestValidTier cpu1 ram1) <= fst (nearestValidTier cpu2 ram2)
    /\ snd (nearestValidTier cpu1 ram1) <= snd (nearestValidTier cpu2 ram2).
Proof.
  intros cpu1 ram1 cpu2 ram2 Hc Hr Hlo Hhi.
  rewrite !nearestValidTier_cpu, !nearestValidTier_clamp by lia.
  pose proof (fixCpu_mono cpu1 cpu2 Hc) as Hm.
  destruct (fixCpu_cases cpu1) as [Hc1 _].
  pose proof (lowerBound_mono (fixCpu cpu1) (fixCpu cpu2) ltac:(lia)).
  pose proof (quot_round_mono ram1 ram2 Hr).
  split; [exact Hm | lia].
Qed.

Lemma nearestValidTier_monotone_witness :
  fst (nearestValidTier 3 5000) <= fst (nearestValidTier 8 32000)
  /\ snd (nearestValidTier 3 5000) <= snd (nearestValidTier 8 32000).
Proof.
  apply nearestValidTier_monotone; unfold GoInt.min_int, GoInt.max_int; lia.
Defined.

(** X7. The wrap-around of [ram + 255]: a request within 255 of the largest
    [int] is treated like a request for nothing and gets the smallest
    memory valid for the vCPU count, while the largest request that does not
    wrap gets the largest one. *)
Theorem nearestValidTier_wraps :
  forall cpu ram : Z,
    GoInt.max_int - 255 < ram <= GoInt.max_int ->
    nearestValidTier cpu ram = nearestValidTier cpu 0
    /\ snd (nearestValidTier cpu ram)
       = Z.max 3840 (minRamSpec (fst (nearestValidTier cpu ram)))
    /\ snd (nearestValidTier cpu (GoInt.max_int - 255))
       = 6656 * fst (nearestValidTier cpu ram)
    /\ snd (nearestValidTier cpu ram)
       < snd (nearestValidTier cpu (GoInt.max_int - 255)).
Proof.
  intros cpu ram Hr.
  assert (Hup : roundUp256 ram <= 0).
  { rewrite roundUp256_quot. unfold GoInt.add, GoInt.wrap.
    unfold GoInt.max_int in Hr.
    replace ((ram + 255 + 2 ^ 63) mod 2 ^ 64) with (ram + 255 - 2 ^ 63).
    - replace (ram + 255 - 2 ^ 63 - 2 ^ 63) with (- (2 ^ 64 - ram - 255)) by lia.
      rewrite Z.quot_opp_l, Z.quot_div_nonneg by lia.
      pose proof (Z.div_pos (2 ^ 64 - ram - 255) 256). lia.
    - apply Z.mod_unique with 1; lia. }
  destruct (fixCpu_cases cpu) as [Hc _].
  destruct (rounded_bounds (fixCpu cpu) Hc) as [Emin [Emax [Hord _]]].
  assert (E : snd (nearestValidTier cpu ram)
              = Z.max 3840 (minRamSpec (fixCpu cpu))
              /\ snd (nearestValidTier cpu 0)
                 = Z.max 3840 (minRamSpec (fixCpu cpu))).
  { rewrite (nearestValidTier_clamp cpu 0)
      by (unfold GoInt.min_int, GoInt.max_int; lia).
    rewrite nearestValidTier_ram. cbv zeta.
    rewrite Emin, Emax, upperBound_eq in *.
    fold (minRamSpec (fixCpu cpu)) in *.
    change (Z.quot (0 + 255) 256 * 256) with 0.
    destruct (Z.ltb_spec (roundUp256 ram) 3840); [| lia].
    destruct (Z.ltb_spec 3840 (minRamSpec (fixCpu cpu)));
      (match goal with
       | |- context [ (?a >? 6656 * ?c) ] => destruct (Z.gtb_spec a (6656 * c))
       end); lia. }
  destruct E as [E1 E2].
  rewrite Emin, Emax, upperBound_eq in Hord.
  fold (minRamSpec (fixCpu cpu)) in Hord.
  assert (Hmax : snd (nearestValidTier cpu (GoInt.max_int - 255))
                 = 6656 * fixCpu cpu).
  { rewrite nearestValidTier_clamp
      by (unfold GoInt.min_int, GoInt.max_int; lia).
    unfold GoInt.max_int.
    change (Z.quot (2 ^ 63 - 1 - 255 + 255) 256 * 256)
      with 9223372036854775552.
    lia. }
  split; [| split; [| split]].
  - rewrite (surjective_pairing (nearestValidTier cpu ram)),
      (surjective_pairing (nearestValidTier cpu 0)).
    rewrite !nearestValidTier_cpu, E1, E2. reflexivity.
  - rewrite nearestValidTier_cpu. exact E1.
  - rewrite nearestValidTier_cpu. exact Hmax.
  - rewrite E1, Hmax.
    assert (minRamSpec (fixCpu cpu) < 6656 * fixCpu cpu).
    { unfold minRamSpec. rewrite lowerBound_eq by lia.
      Z.to_euclidean_division_equations. lia. }
    lia.
Qed.

Lemma nearestValidTier_wraps_witness :
  nearestValidTier 4 GoInt.max_int = nearestValidTier 4 0
  /\ snd (nearestValidTier 4 GoInt.max_int)
     = Z.max 3840 (minRamSpec (fst (nearestValidTier 4 GoInt.max_int)))
  /\ snd (nearestValidTier 4 (GoInt.max_int - 255))
     = 6656 * fst (nearestValidTier 4 GoInt.max_int)
  /\ snd (nearestValidTier 4 GoInt.max_int)
     < snd (nearestValidTier 4 (GoInt.max_int - 255)).
Proof.
  apply (nearestValidTier_wraps 4 GoInt.max_int).
  unfold GoInt.max_int. lia.
Defined.

(* ------------------------------------------------------------------ *)
(** ** The validator and the documented ratios *)

Lemma minRamSpec_ratio (c : Z) :
  1 <= c <= 96 -> 9216 * c <= 10 * minRamSpec c.
Proof.
  intros Hc.
  pose (P := fun c => 9216 * c <=? 10 * minRamSpec c).
  assert (HP : P c = true).
  { apply (forallb_Zinterval P 1 96); [vm_compute; reflexivity | lia]. }
  apply Z.leb_le. exact HP.
Qed.

(** X8. [validateTier] enforces the documented ratios exactly, the
    truncation of the two bounds notwithstanding: a pair is accepted if and
    only if the vCPU count is 1 or an even number up to 96, the memory is a
    multiple of 256 of at least 3840, and the memory per vCPU lies between
    0.9 and 6.5 times 1024. *)
Theorem validateTier_exact_ratio :
  forall cpu ram : Z,
    validateTier cpu ram = true
    <-> (ValidCpu cpu
         /\ ram mod 256 = 0
         /\ 3840 <= ram
         /\ 9 * 1024 * cpu <= 10 * ram
         /\ 10 * ram <= 65 * 1024 * cpu).
Proof.
  intros cpu ram. rewrite validateTier_rules. split.
  - intros [Hc Hp Hg Hf Hlo Hhi]. rewrite upperBound_eq in Hhi.
    split; [split; assumption |]. repeat split; try assumption; try lia.
    pose proof (minRamSpec_ratio cpu Hc) as Hr.
    assert (minRamSpec cpu <= ram).
    { unfold minRamSpec. Z.to_euclidean_division_equations. lia. }
    lia.
  - intros [[Hc Hp] [Hg [Hf [Hlo Hhi]]]].
    constructor; try assumption.
    + rewrite lowerBound_eq by lia. Z.to_euclidean_division_equations. lia.
    + rewrite upperBound_eq. lia.
Qed.

(* ------------------------------------------------------------------ *)
(** ** The bump-memory branch on tiers the validator knows *)

Lemma bumpedRam_valid_cpu (c : Z) :
  1 <= c <= 96 -> bumpedRam c = 6656 * c.
Proof.
  intros Hc. rewrite bumpedRam_exact by lia.
  rewrite bumpMaxRam_eq by lia. lia.
Qed.

(** X9. Bumping a tier whose vCPU count the validator accepts gives that
    count with [6656 * c] MB, whatever the memory was; this tier passes
    [validateTier], no tier of the same count with more memory does, and
    bumping it again reports that it is already at the maximum. *)
Theorem bumpMem_reaches_valid_maximum :
  forall c r : Z,
    ValidCpu c ->
    fst (bumpMem c r) = (c, 6656 * c)
    /\ validateTier c (6656 * c) = true
    /\ (forall m, validateTier c m = true -> m <= 6656 * c)
    /\ bumpMem c (6656 * c) = ((c, 6656 * c), AlreadyMax).
Proof.
  intros c r [Hc Hp].
  split; [| split; [| split]].
  - rewrite bumpMem_unfold, bumpedRam_valid_cpu by assumption. reflexivity.
  - apply validateTier_rules. constructor; try assumption.
    + replace (6656 * c) with (26 * c * 256) by lia. apply Z.mod_mul. lia.
    + lia.
    + rewrite lowerBound_eq by lia. Z.to_euclidean_division_equations. lia.
    + rewrite upperBound_eq. lia.
  - intros m Hm. apply validateTier_rules in Hm.
    destruct Hm as [_ _ _ _ _ Hhi]. rewrite upperBound_eq in Hhi. exact Hhi.
  - rewrite bumpMem_unfold, bumpedRam_valid_cpu by assumption.
    rewrite Z.eqb_refl. reflexivity.
Qed.

Lemma bumpMem_reaches_valid_maximum_witness :
  fst (bumpMem 4 3840) = (4, 6656 * 4)
  /\ validateTier 4 (6656 * 4) = true
  /\ (forall m, validateTier 4 m = true -> m <= 6656 * 4)
  /\ bumpMem 4 (6656 * 4) = ((4, 6656 * 4), AlreadyMax).
Proof.
  apply (bumpMem_reaches_valid_maximum 4 3840).
  split; [lia | right; reflexivity].
Defined.

(** X10. A tier that passes [validateTier] is never reported as exceeding
    the maximum: bumping it reports AlreadyMax when its memory is
    [6656 * c] and Bumped otherwise, and the new memory is never below the
    old one. *)
Theorem bumpMem_of_valid_tier :
  forall c r : Z,
    validateTier c r = true ->
    snd (bumpMem c r) = (if r =? 6656 * c then AlreadyMax else Bumped)
    /\ r <= snd (fst (bumpMem c r)).
Proof.
  intros c r Hv. apply validateTier_rules in Hv.
  destruct Hv as [Hc _ _ _ _ Hhi]. rewrite upperBound_eq in Hhi.
  rewrite bumpMem_unfold, bumpedRam_valid_cpu by assumption.
  cbn [fst snd]. split; [| exact Hhi].
  rewrite (Z.eqb_sym r).
  destruct (Z.eqb_spec (6656 * c) r); [reflexivity |].
  destruct (Z.ltb_spec (6656 * c) r); [lia | reflexivity].
Qed.

Lemma bumpMem_of_valid_tier_witness :
  snd (bumpMem 4 15360) = (if 15360 =? 6656 * 4 then AlreadyMax else Bumped)
  /\ 15360 <= snd (fst (bumpMem 4 15360)).
Proof.
  apply (bumpMem_of_valid_tier 4 15360). reflexivity.
Defined.

(* ------------------------------------------------------------------ *)
(** ** 1.5 GB per vCPU: the [-cpu] branch and [suggestNextTier] *)

Lemma of_int_pos (k : positive) :
  F64.digits k <= 53 -> F64.of_int (Z.pos k) = F64.normal k 0.
Proof.
  intros Hk. rewrite <- (of_int_normal k 0) by lia.
  rewrite Z.pow_0_r, Z.mul_1_r. reflexivity.
Qed.

(** [x * 1.5 * 1024] is exact on an integer [x] below [2^53 / 3]. *)
Lemma standard_ram_exact (k : positive) :
  3 * Z.pos k < 2 ^ 53 ->
  F64.mul (F64.mul (F64.normal k 0) c1_5) F64.c1024 = F64.normal (k * 3) 9
  /\ Z.pos (k * 3) * 2 ^ 9 = 1536 * Z.pos k
  /\ F64.digits (k * 3) <= 53.
Proof.
  intros Hk.
  assert (Hd : F64.digits (k * 3) <= 53).
  { apply digits_le; [lia |]. rewrite Pos2Z.inj_mul. lia. }
  assert (Hd2 : 2 <= F64.digits (k * 3)).
  { pose proof (digits_mul_lower k 3) as H. pose proof (digits_pos k).
    change (F64.digits 3) with 2 in H. lia. }
  assert (HV : Z.pos (k * 3) * 2 ^ 9 = 1536 * Z.pos k).
  { rewrite Pos2Z.inj_mul. change (2 ^ 9) with 512. lia. }
  split; [| auto].
  change c1_5 with (F64.normal 3 (-1)).
  change F64.c1024 with (F64.normal 1 10).
  rewrite mul_normal by lia.
  rewrite mul_normal by (rewrite Pos.mul_1_r; lia).
  rewrite Pos.mul_1_r. reflexivity.
Qed.

(** The memory both places derive from an integer vCPU count. *)
Lemma standard_ram_finish (k : positive) :
  3 * Z.pos k < 2 ^ 53 ->
  roundUp256
    (F64.to_int (F64.mul (F64.mul (F64.normal k 0) c1_5) F64.c1024))
  = 1536 * Z.pos k.
Proof.
  intros Hk. destruct (standard_ram_exact k Hk) as [E [HV Hd]].
  rewrite E, to_int_normal by (unfold GoInt.max_int; lia).
  rewrite HV. apply roundUp256_fixed.
  - unfold GoInt.max_int. lia.
  - replace (1536 * Z.pos k) with (6 * Z.pos k * 256) by lia.
    apply Z.mod_mul. lia.
Qed.

Lemma cpuBranch_of_int (k : Z) :
  1 <= k -> 3 * k < 2 ^ 53 ->
  cpuBranch (F64.of_int k) = (k, Z.max 3840 (1536 * k)).
Proof.
  intros H1 Hk. destruct k as [| k | k]; try lia.
  assert (Hk53 : F64.digits k <= 53) by (apply digits_le; lia).
  destruct (standard_ram_exact k Hk) as [_ [HV Hd]].
  unfold cpuBranch. rewrite of_int_pos by assumption.
  rewrite standard_ram_finish by assumption.
  rewrite to_int_normal by (unfold GoInt.max_int; lia).
  rewrite Z.pow_0_r, Z.mul_1_r. f_equal.
  rewrite <- HV. rewrite of_int_normal, ltb_normal_3840 by lia.
  destruct (Z.ltb_spec (Z.pos (k * 3) * 2 ^ 9) 3840) as [Hlt | Hge].
  - change (F64.to_int F64.c3840) with 3840. lia.
  - rewrite to_int_normal by (unfold GoInt.max_int; lia). lia.
Qed.

Lemma standard_tier_valid (k : Z) :
  validateTier k (Z.max 3840 (1536 * k)) = true <-> ValidCpu k.
Proof.
  rewrite validateTier_rules. split.
  - intros [Hc Hp _ _ _ _]. split; assumption.
  - intros [Hc Hp]. constructor; try assumption.
    + destruct (Z.max_spec 3840 (1536 * k)) as [[_ ->] | [_ ->]];
        [| reflexivity].
      replace (1536 * k) with (6 * k * 256) by lia. apply Z.mod_mul. lia.
    + lia.
    + rewrite lowerBound_eq by lia. Z.to_euclidean_division_equations. lia.
    + rewrite upperBound_eq. lia.
Qed.

(** X11. The [-cpu] branch on a whole number [k] of vCPUs, [1 <= k] and
    [3 * k < 2^53]: the recommended tier has [k] vCPUs and
    [max 3840 (1536 * k)] MB, and it passes [validateTier] exactly when [k]
    is 1 or an even number up to 96; the branch itself never checks. *)
Theorem cpuBranch_recommends :
  forall k : Z,
    1 <= k -> 3 * k < 2 ^ 53 ->
    cpuBranch (F64.of_int k) = (k, Z.max 3840 (1536 * k))
    /\ (validateTier (fst (cpuBranch (F64.of_int k)))
          (snd (cpuBranch (F64.of_int k))) = true
        <-> ValidCpu k).
Proof.
  intros k H1 Hk. rewrite cpuBranch_of_int by assumption.
  split; [reflexivity |]. cbn [fst snd]. apply standard_tier_valid.
Qed.

Lemma cpuBranch_recommends_witness :
  cpuBranch (F64.of_int 3) = (3, Z.max 3840 (1536 * 3))
  /\ (validateTier (fst (cpuBranch (F64.of_int 3)))
        (snd (cpuBranch (F64.of_int 3))) = true
      <-> ValidCpu 3).
Proof. apply (cpuBranch_recommends 3); lia. Defined.

(* ------------------------------------------------------------------ *)
(** ** The [-t] branch *)

Lemma valid_below_last (c r : Z) :
  validateTier c r = true -> tupleLe (c, r) (96, 638976).
Proof.
  intros Hv. apply validateTier_rules in Hv.
  destruct Hv as [Hc _ _ _ _ Hhi]. rewrite upperBound_eq in Hhi.
  unfold tupleLe, tupleLt. cbn [fst snd].
  destruct (Z.eq_dec c 96) as [-> | Hne].
  - destruct (Z.eq_dec r 638976) as [-> | Hr]; [left; reflexivity |].
    right. right. lia.
  - right. left. lia.
Qed.

Lemma tierBranch_found (c r c' r' : Z) :
  findNextKnownTier c r = (c', r', true) -> tierBranch c r = NextKnown c' r'.
Proof. intros E. unfold tierBranch. rewrite E. reflexivity. Qed.

(** X12. For a tier that passes [validateTier] the [-t] branch never prints
    that the tier is already valid.  It prints the tier that
    [findNextKnownTier] finds: an entry of the table that passes
    [validateTier], lies strictly above the given tier and is the least
    entry that does.  Only for the last entry db-custom-96-638976 does it
    fall back on [suggestNextTier] and print db-custom-416-638976, which
    [validateTier] rejects. *)
Theorem tierBranch_on_valid_tier :
  forall c r : Z,
    validateTier c r = true ->
    tierBranch c r <> AlreadyValid
    /\ ((exists c' r',
            tierBranch c r = NextKnown c' r'
            /\ findNextKnownTier c r = (c', r', true)
            /\ In (KnownTier.mk c' r') knownTiers
            /\ validateTier c' r' = true
            /\ tupleLt (c, r) (c', r')
            /\ (forall t, In t knownTiers -> tupleLt (c, r) (tierPair t) ->
                          tupleLe (c', r') (tierPair t)))
        \/ ((c, r) = (96, 638976)
            /\ findNextKnownTier c r = (0, 0, false)
            /\ tierBranch c r = NextValid 416 638976
            /\ validateTier 416 638976 = false)).
Proof.
  intros c r Hv.
  assert (H : (exists c' r',
                  tierBranch c r = NextKnown c' r'
                  /\ findNextKnownTier c r = (c', r', true)
                  /\ In (KnownTier.mk c' r') knownTiers
                  /\ validateTier c' r' = true
                  /\ tupleLt (c, r) (c', r')
                  /\ (forall t, In t knownTiers ->
                                tupleLt (c, r) (tierPair t) ->
                                tupleLe (c', r') (tierPair t)))
              \/ ((c, r) = (96, 638976)
                  /\ findNextKnownTier c r = (0, 0, false)
                  /\ tierBranch c r = NextValid 416 638976
                  /\ validateTier 416 638976 = false)).
  { destruct (valid_below_last c r Hv) as [E | Hlt].
    - right. split; [exact E |]. injection E as -> ->.
      repeat split; vm_compute; reflexivity.
    - left.
      destruct (findNextKnownTier_split c r) as [[_ [c' [r' E]]] | [Hn _]];
        [| contradiction].
      exists c', r'. split; [apply tierBranch_found, E |].
      split; [exact E |].
      destruct (findNextIn_least knownTiers c r c' r' knownTiers_sorted E)
        as [Hin [Habove Hleast]].
      split; [exact Hin |].
      split; [apply (knownTiers_valid (KnownTier.mk c' r') Hin) |].
      split; [exact Habove | exact Hleast]. }
  split; [| exact H].
  destruct H as [[c' [r' [E _]]] | [_ [_ [E _]]]]; rewrite E; discriminate.
Qed.

Lemma tierBranch_on_valid_tier_witness :
  tierBranch 4 15360 <> AlreadyValid
  /\ ((exists c' r',
          tierBranch 4 15360 = NextKnown c' r'
          /\ findNextKnownTier 4 15360 = (c', r', true)
          /\ In (KnownTier.mk c' r') knownTiers
          /\ validateTier c' r' = true
          /\ tupleLt (4, 15360) (c', r')
          /\ (forall t, In t knownTiers -> tupleLt (4, 15360) (tierPair t) ->
                        tupleLe (c', r') (tierPair t)))
      \/ ((4, 15360) = (96, 638976)
          /\ findNextKnownTier 4 15360 = (0, 0, false)
          /\ tierBranch 4 15360 = NextValid 416 638976
          /\ validateTier 416 638976 = false)).
Proof. apply (tierBranch_on_valid_tier 4 15360). reflexivity. Defined.

(* ------------------------------------------------------------------ *)
(** ** The [-check-downgrade] branch *)

Lemma isLower_iff (a b c d : Z) :
  (a <? c) || ((a =? c) && (b <? d)) = true <-> tupleLt (a, b) (c, d).
Proof. apply (tupleLtb_iff (a, b) (c, d)). Qed.

(** X13. The [-check-downgrade] branch always produces its report, and
    every line of the report is accounted for.  The two validity flags are
    those of [validateTier].  The answer is Yes exactly when the
    recommended tier passes [validateTier] and is strictly below the
    current one.  A nearest valid tier is printed exactly when the
    recommended tier is invalid; it is [nearestValidTier] of the
    recommended tier and passes [validateTier]; it is called a valid
    downgrade exactly when it is strictly below the current tier.  The
    recommended tier is reported as not lower exactly when it is not
    strictly below the current one.  Under Yes nothing is said about known
    tiers; under No the suggested known lower tier is the one
    [findPreviousKnownTier] finds - an entry of the table that passes
    [validateTier], lies strictly below the current tier and is the
    greatest entry that does - when the current tier is above
    db-custom-1-3840, and otherwise no lower tier is reported. *)
Theorem checkDowngrade_sound :
  forall currCPU currRAM recCPU recRAM : Z,
    exists rep,
      checkDowngrade currCPU currRAM recCPU recRAM = Some rep
      /\ dr_validCurr rep = validateTier currCPU currRAM
      /\ dr_validRec rep = validateTier recCPU recRAM
      /\ (dr_yes rep = true
          <-> validateTier recCPU recRAM = true /\ tupleLt (recCPU, recRAM) (currCPU, currRAM))
      /\ dr_nearest rep
         = (if validateTier recCPU recRAM then None
            else Some (nearestValidTier recCPU recRAM))
      /\ (forall a, dr_nearest rep = Some a ->
                    validateTier (fst a) (snd a) = true)
      /\ (dr_nearestLower rep = true
          <-> validateTier recCPU recRAM = false
              /\ tupleLt (nearestValidTier recCPU recRAM) (currCPU, currRAM))
      /\ (dr_notLower rep = true <-> ~ tupleLt (recCPU, recRAM) (currCPU, currRAM))
      /\ (dr_yes rep = true -> dr_knownLower rep = None)
      /\ (dr_yes rep = false -> tupleLt (1, 3840) (currCPU, currRAM) ->
          exists pc pr,
            dr_knownLower rep = Some (Some (pc, pr))
            /\ findPreviousKnownTier currCPU currRAM = Some (pc, pr, true)
            /\ In (KnownTier.mk pc pr) knownTiers
            /\ validateTier pc pr = true
            /\ tupleLt (pc, pr) (currCPU, currRAM)
            /\ (forall t, In t knownTiers ->
                          tupleLt (tierPair t) (currCPU, currRAM) ->
                          tupleLe (tierPair t) (pc, pr)))
      /\ (dr_yes rep = false -> ~ tupleLt (1, 3840) (currCPU, currRAM) ->
          dr_knownLower rep = Some None).
Proof.
  intros cc cr rc rr. unfold checkDowngrade.
  pose proof (isLower_iff rc rr cc cr) as HL.
  pose proof (nearestValidTier_valid rc rr) as Hadj.
  apply validateTier_rules in Hadj.
  destruct (nearestValidTier rc rr) as [ac ar] eqn:En. cbn [fst snd] in Hadj.
  pose proof (isLower_iff ac ar cc cr) as HA.
  destruct (validateTier rc rr && ((rc <? cc) || ((rc =? cc) && (rr <? cr))))
    eqn:Eb.
  - (* "Valid downgrade: Yes" *)
    apply andb_true_iff in Eb. destruct Eb as [Ev El].
    eexists. split; [reflexivity |].
    cbn [dr_validCurr dr_validRec dr_yes dr_nearest dr_nearestLower
           dr_notLower dr_knownLower].
    split; [reflexivity |]. split; [reflexivity |].
    split; [split; [intros _; split; [exact Ev | apply HL, El] | reflexivity] |].
    split; [rewrite Ev; reflexivity |].
    split; [discriminate |].
    split; [split; [discriminate | intros [Hv _]; congruence] |].
    split.
    { split; [discriminate |]. intros Hn. exfalso. apply Hn, HL, El. }
    split; [reflexivity |].
    split; discriminate.
  - (* "Valid downgrade: No" *)
    assert (Hprev : exists pc pr found,
               findPreviousKnownTier cc cr = Some (pc, pr, found)
               /\ (found = true ->
                   tupleLt (1, 3840) (cc, cr)
                   /\ In (KnownTier.mk pc pr) knownTiers
                   /\ validateTier pc pr = true
                   /\ tupleLt (pc, pr) (cc, cr)
                   /\ (forall t, In t knownTiers ->
                                 tupleLt (tierPair t) (cc, cr) ->
                                 tupleLe (tierPair t) (pc, pr)))
               /\ (found = false -> ~ tupleLt (1, 3840) (cc, cr))).
    { destruct (findPreviousKnownTier_split cc cr)
        as [[Hp [pc [pr Ep]]] | [Hp Ep]].
      - exists pc, pr, true. split; [exact Ep |]. split; [| discriminate].
        intros _.
        destruct (findPrevFrom_greatest knownTiers cc cr pc pr
                    knownTiers_sorted Ep) as [Hin [Hlt Hgr]].
        split; [exact Hp |]. split; [exact Hin |].
        split; [apply (knownTiers_valid (KnownTier.mk pc pr) Hin) |].
        split; [exact Hlt | exact Hgr].
      - exists 0, 0, false. split; [exact Ep |]. split; [discriminate |].
        intros _. exact Hp. }
    destruct Hprev as [pc [pr [found [Ep [Hfound Hnone]]]]]. rewrite Ep.
    eexists. split; [reflexivity |].
    cbn [dr_validCurr dr_validRec dr_yes dr_nearest dr_nearestLower
           dr_notLower dr_knownLower].
    split; [reflexivity |]. split; [reflexivity |].
    split.
    { split; [discriminate |]. intros [Hv Hlt]. apply HL in Hlt.
      rewrite Hv, Hlt in Eb. discriminate Eb. }
    split; [reflexivity |].
    split.
    { intros a Ha. destruct (validateTier rc rr); [discriminate Ha |].
      injection Ha as <-. exact Hadj. }
    split.
    { rewrite andb_true_iff, negb_true_iff, HA. reflexivity. }
    split.
    { rewrite negb_true_iff, <- HL.
      destruct ((rc <? cc) || ((rc =? cc) && (rr <? cr)));
        split; congruence. }
    split; [discriminate |].
    split.
    { intros _ Hab. destruct found.
      - exists pc, pr. split; [reflexivity |]. split; [reflexivity |].
        apply Hfound. reflexivity.
      - exfalso. apply (Hnone eq_refl), Hab. }
    intros _ Hnab. destruct found; [| reflexivity].
    exfalso. apply Hnab. apply Hfound. reflexivity.
Qed.

Lemma checkDowngrade_sound_witness :
  exists rep,
    checkDowngrade 8 53248 8 32001 = Some rep
    /\ dr_validCurr rep = validateTier 8 53248
    /\ dr_validRec rep = validateTier 8 32001
    /\ (dr_yes rep = true
        <-> validateTier 8 32001 = true /\ tupleLt (8, 32001) (8, 53248))
    /\ dr_nearest rep
       = (if validateTier 8 32001 then None
          else Some (nearestValidTier 8 32001))
    /\ (forall a, dr_nearest rep = Some a ->
                  validateTier (fst a) (snd a) = true)
    /\ (dr_nearestLower rep = true
        <-> validateTier 8 32001 = false
            /\ tupleLt (nearestValidTier 8 32001) (8, 53248))
    /\ (dr_notLower rep = true <-> ~ tupleLt (8, 32001) (8, 53248))
    /\ (dr_yes rep = true -> dr_knownLower rep = None)
    /\ (dr_yes rep = false -> tupleLt (1, 3840) (8, 53248) ->
        exists pc pr,
          dr_knownLower rep = Some (Some (pc, pr))
          /\ findPreviousKnownTier 8 53248 = Some (pc, pr, true)
          /\ In (KnownTier.mk pc pr) knownTiers
          /\ validateTier pc pr = true
          /\ tupleLt (pc, pr) (8, 53248)
          /\ (forall t, In t knownTiers ->
                        tupleLt (tierPair t) (8, 53248) ->
                        tupleLe (tierPair t) (pc, pr)))
    /\ (dr_yes rep = false -> ~ tupleLt (1, 3840) (8, 53248) ->
        dr_knownLower rep = Some None).
Proof. apply (checkDowngrade_sound 8 53248 8 32001). Defined.

(* ------------------------------------------------------------------ *)
(** ** What [parseTier] returns *)

(** The two groups of an anchored match are runs of digits. *)
Lemma matchAt_tier_groups (s w : gostring) (caps : list gostring) :
  matchAt tierRegexp s = Some (w, caps) ->
  exists d1 d2, caps = [d1; d2] /\ allDigits d1 /\ allDigits d2.
Proof.
  unfold tierRegexp. intros H.
  apply matchAt_chars_sound in H. destruct H as [s1 [w1 [_ [H _]]]].
  rewrite matchAt_digits in H. apply tryLengths_sound in H.
  destruct H as [j1 [w2 [caps2 [Hj1 [H [_ ->]]]]]].
  change [ReChar "-"; ReDigits] with (map ReChar (lit "-") ++ [ReDigits]) in H.
  apply matchAt_chars_sound in H. destruct H as [s2 [w3 [_ [H _]]]].
  rewrite matchAt_digits in H. apply tryLengths_sound in H.
  destruct H as [j2 [w4 [caps4 [Hj2 [H [_ ->]]]]]].
  cbn [matchAt] in H. injection H as _ <-.
  destruct (firstn_digitRun s1 j1 ltac:(lia)) as [Hd1 Hl1].
  destruct (firstn_digitRun s2 j2 ltac:(lia)) as [Hd2 Hl2].
  exists (firstn j1 s1), (firstn j2 s2).
  split; [reflexivity |]. split.
  - split; [| exact Hd1]. intros E. rewrite E in Hl1. cbn in Hl1. lia.
  - split; [| exact Hd2]. intros E. rewrite E in Hl2. cbn in Hl2. lia.
Qed.

Lemma Atoi_allDigits_range (ds : gostring) (v : Z) :
  allDigits ds -> Atoi ds = Some v -> 0 <= v <= GoInt.max_int.
Proof.
  intros Hd H. rewrite Atoi_allDigits in H by assumption.
  destruct (Z.leb_spec (digitsValue ds) GoInt.max_int) as [Hle |];
    [| discriminate H].
  injection H as <-. split; [| exact Hle].
  apply digitsValue_nonneg, Hd.
Qed.

Lemma parseTier_Ok_range (s : gostring) (c r : Z) :
  parseTier s = Ok (c, r) ->
  0 <= c <= GoInt.max_int /\ 0 <= r <= GoInt.max_int.
Proof.
  unfold parseTier.
  destruct (FindStringSubmatch_cases tierRegexp s)
    as [[Hnil _] | [pre [rest [w [caps [_ [Hm Hf]]]]]]].
  - rewrite Hnil. cbn [length Nat.eqb negb]. discriminate.
  - rewrite Hf.
    destruct (matchAt_tier_groups rest w caps Hm) as [d1 [d2 [-> [H1 H2]]]].
    cbn [length Nat.eqb negb nth].
    destruct (Atoi d1) as [v1 |] eqn:E1; [| discriminate].
    destruct (Atoi d2) as [v2 |] eqn:E2; [| discriminate].
    intros H. injection H as <- <-.
    split; [apply (Atoi_allDigits_range d1 v1 H1 E1)
           | apply (Atoi_allDigits_range d2 v2 H2 E2)].
Qed.

(** Formatting, then parsing, on the values [parseTier] can return. *)
Lemma parseTier_of_formatTier (vcpu ram : Z) :
  0 <= vcpu <= GoInt.max_int -> 0 <= ram <= GoInt.max_int ->
  parseTier (formatTier vcpu ram) = Ok (vcpu, ram).
Proof.
  intros Hv Hr.
  pose proof (parseTier_at [] (formatInt vcpu) (formatInt ram) []) as H.
  cbn [app] in H. unfold tierText in H. rewrite !app_nil_r in H.
  unfold formatTier. rewrite H.
  - rewrite !Atoi_formatInt by assumption. reflexivity.
  - apply formatInt_digits, Hv.
  - apply formatInt_digits, Hr.
  - reflexivity.
  - intros p1 p2 E Hp2. destruct p1; destruct p2; try discriminate E. congruence.
Qed.

(** X14. Whatever the input, the two numbers [parseTier] returns are
    non-negative and fit an [int], so a minus sign is never read; and the
    pair is the canonical reading of the tier: formatting it as
    db-custom-<cpu>-<ram> and parsing that gives the same pair. *)
Theorem parseTier_returns_canonical :
  forall (s : gostring) (c r : Z),
    parseTier s = Ok (c, r) ->
    0 <= c <= GoInt.max_int
    /\ 0 <= r <= GoInt.max_int
    /\ parseTier (formatTier c r) = Ok (c, r).
Proof.
  intros s c r H. destruct (parseTier_Ok_range s c r H) as [Hc Hr].
  split; [exact Hc |]. split; [exact Hr |].
  apply parseTier_of_formatTier; assumption.
Qed.

Lemma parseTier_returns_canonical_witness :
  0 <= 4 <= GoInt.max_int
  /\ 0 <= 15360 <= GoInt.max_int
  /\ parseTier (formatTier 4 15360) = Ok (4, 15360).
Proof.
  apply (parseTier_returns_canonical (lit "my db-custom-004-15360MB")).
  reflexivity.
Defined.

(* ------------------------------------------------------------------ *)
(** ** The [-bump-mem] branch from the command line to the printed tier *)

Lemma bumpedRam_range (c : Z) :
  0 <= c -> 13 * c < 2 ^ 53 ->
  bumpedRam c = Z.max 3840 (6656 * c)
  /\ 3840 <= bumpedRam c <= GoInt.max_int
  /\ bumpedRam c mod 256 = 0.
Proof.
  intros Hc Hb. rewrite bumpedRam_exact, bumpMaxRam_eq by assumption.
  split; [reflexivity |]. split; [unfold GoInt.max_int; lia |].
  destruct (Z.max_spec 3840 (6656 * c)) as [[_ ->] | [_ ->]];
    [| reflexivity].
  replace (6656 * c) with (26 * c * 256) by lia. apply Z.mod_mul. lia.
Qed.

(** X15. The [-bump-mem] branch on any string [parseTier] accepts with a
    vCPU count [c] where float64 computes [6.5 * c * 1024] exactly
    ([13 * c < 2 ^ 53]): the new tier is [c] vCPUs with
    [max 3840 (6656 * c)] MB, a multiple of 256 of at least 3840; the
    string printed as the new tier is accepted by [parseTier] with these
    two numbers, and bumping that tier reports that it is already at the
    maximum. *)
Theorem bumpMem_printed_tier_parses :
  forall (s : gostring) (c r : Z),
    parseTier s = Ok (c, r) -> 13 * c < 2 ^ 53 ->
    let newTier := fst (bumpMem c r) in
    newTier = (c, Z.max 3840 (6656 * c))
    /\ 3840 <= snd newTier
    /\ snd newTier mod 256 = 0
    /\ parseTier (formatTier (fst newTier) (snd newTier)) = Ok newTier
    /\ bumpMem (fst newTier) (snd newTier) = (newTier, AlreadyMax).
Proof.
  intros s c r H Hb. destruct (parseTier_Ok_range s c r H) as [Hc _].
  destruct (bumpedRam_range c (proj1 Hc) Hb) as [He [Hm Hg]].
  cbv zeta. rewrite bumpMem_unfold. cbn [fst snd].
  split; [rewrite He; reflexivity |]. split; [apply Hm |].
  split; [exact Hg |]. split.
  - apply parseTier_of_formatTier; [exact Hc | lia].
  - rewrite bumpMem_unfold, Z.eqb_refl. reflexivity.
Qed.

Lemma bumpMem_printed_tier_parses_witness :
  let newTier := fst (bumpMem 4 3840) in
  newTier = (4, Z.max 3840 (6656 * 4))
  /\ 3840 <= snd newTier
  /\ snd newTier mod 256 = 0
  /\ parseTier (formatTier (fst newTier) (snd newTier)) = Ok newTier
  /\ bumpMem (fst newTier) (snd newTier) = (newTier, AlreadyMax).
Proof.
  apply (bumpMem_printed_tier_parses (lit "db-custom-4-3840"));
    [reflexivity | lia].
Defined.

(* ------------------------------------------------------------------ *)
(** ** [parseMem] on a number followed by a unit *)

Lemma number_end_classes (c : ascii) :
  charIn c (lit "0123456789_.eEpPxX") = false ->
  charIn c (lit "0123456789_") = false
  /\ charIn c (lit "xX") = false
  /\ charIn c (lit ".") = false
  /\ charIn c (lit "eEpP") = false.
Proof.
  destruct c as [[] [] [] [] [] [] [] []]; intros H;
    try discriminate H; repeat split.
Qed.

Lemma acceptAll_digits_stop (buf ds : gostring) (c : ascii) (rest : gostring) :
  forallb isDigit ds = true ->
  charIn c (lit "0123456789_") = false ->
  acceptAll "0123456789_" buf (ds ++ c :: rest) = (buf ++ ds, c :: rest).
Proof.
  intros H Hc. revert buf. induction ds as [| d ds IH]; intros buf.
  - rewrite app_nil_r. cbn [app acceptAll]. rewrite Hc. reflexivity.
  - cbn [forallb] in H. apply andb_true_iff in H. destruct H as [Hd Hds].
    cbn [app acceptAll].
    rewrite (proj1 (proj2 (proj2 (proj2 (digit_char_classes d Hd))))).
    rewrite IH, <- app_assoc by assumption. reflexivity.
Qed.

(** The float token of a run of digits stops at the first character that
    cannot continue a number. *)
Lemma floatToken_digits_stop (ds : gostring) (c : ascii) (rest : gostring) :
  ds <> [] -> forallb isDigit ds = true ->
  charIn c (lit "0123456789_.eEpPxX") = false ->
  floatToken (ds ++ c :: rest) = (ds, c :: rest).
Proof.
  intros Hne H Hend.
  destruct (number_end_classes c Hend) as [Hcd [Hcx [Hcp Hce]]].
  destruct ds as [| d ds']; [congruence |].
  pose proof H as Hall.
  cbn [forallb] in H. apply andb_true_iff in H. destruct H as [Hd Hds].
  destruct (digit_char_classes d Hd)
    as [_ [_ [_ [Hdig [Hnan [Hsign [Hinf _]]]]]]].
  unfold floatToken. cbn [app].
  rewrite (accept_miss "nN") by exact Hnan. rewrite !andAccept_false.
  cbn [fst snd].
  rewrite (accept_miss "+-") by exact Hsign. cbn [fst snd].
  rewrite (accept_miss "iI") by exact Hinf. rewrite !andAccept_false.
  cbn [fst snd].
  match goal with
  | |- context [andAccept "xX" ?st] =>
      assert (Hhex : andAccept "xX" st
                     = (false, (if charIn d (lit "0") then [d] else [],
                                if charIn d (lit "0") then ds' ++ c :: rest
                                else d :: ds' ++ c :: rest)))
  end.
  { destruct (charIn d (lit "0")) eqn:Hz.
    - rewrite (accept_hit "0") by exact Hz. rewrite andAccept_true.
      destruct ds' as [| r ds0].
      + apply accept_miss. exact Hcx.
      + cbn [forallb] in Hds. apply andb_true_iff in Hds.
        apply accept_miss. apply (digit_char_classes r (proj1 Hds)).
    - rewrite (accept_miss "0") by exact Hz. apply andAccept_false. }
  rewrite Hhex. cbn [fst snd].
  match goal with
  | |- context [acceptAll "0123456789_" ?b ?i] =>
      assert (Hrun : acceptAll "0123456789_" b i = (d :: ds', c :: rest))
  end.
  { destruct (charIn d (lit "0")).
    - rewrite acceptAll_digits_stop by assumption. reflexivity.
    - change (d :: ds' ++ c :: rest) with ((d :: ds') ++ c :: rest).
      rewrite (acceptAll_digits_stop [] (d :: ds')) by assumption.
      reflexivity. }
  rewrite Hrun.
  rewrite (accept_miss ".") by exact Hcp. cbn [fst snd].
  rewrite (accept_miss "eEpP") by exact Hce. reflexivity.
Qed.

Lemma SkipSpace_nonspace (c : ascii) (rest : gostring) :
  isSpace c = false -> SkipSpace (c :: rest) = Ok (c :: rest).
Proof.
  intros Hc. cbn [SkipSpace].
  assert (Hcr : Ascii.eqb c "013" = false).
  { destruct (Ascii.eqb_spec c "013") as [-> |]; [discriminate Hc | reflexivity]. }
  assert (Hnl : Ascii.eqb c "010" = false).
  { destruct (Ascii.eqb_spec c "010") as [-> |]; [discriminate Hc | reflexivity]. }
  rewrite Hcr, Hnl, Hc. reflexivity.
Qed.

Section ParseMemNumbers.

Variable convertFloat : gostring -> option F64.float64.

Lemma Sscanf_number_unit (ds : gostring) (c : ascii) (rest : gostring)
    (v : F64.float64) :
  allDigits ds -> convertFloat ds = Some v ->
  charIn c (lit "0123456789_.eEpPxX") = false -> isSpace c = false ->
  Sscanf_f_s convertFloat (ds ++ c :: rest)
  = mkScanned 2 v (wordToken (c :: rest)) None.
Proof.
  intros [Hne Hd] Hv Hend Hsp. unfold Sscanf_f_s.
  destruct ds as [| d ds'] eqn:E; [congruence |].
  cbn [app]. rewrite SkipSpace_digit
    by (cbn [forallb] in Hd; apply andb_true_iff in Hd; apply Hd).
  change (d :: ds' ++ c :: rest) with ((d :: ds') ++ c :: rest).
  rewrite floatToken_digits_stop by assumption.
  rewrite Hv, SkipSpace_nonspace by assumption. reflexivity.
Qed.

(** X16. [parseMem] on ASCII input made of a run of digits followed by a
    unit: when the digits convert to [v] and the next character neither
    continues a number nor is a space, the unit is the text up to the next
    space, and the result is [v * 1024] for G or g, [v] for M or m, and the
    error naming the unit for anything else.  (On ASCII input the runes
    [fmt] scans are the bytes of the string, and its spaces are the ones of
    [isSpace].) *)
Theorem parseMem_number_with_unit :
  forall (ds : gostring) (c : ascii) (rest : gostring) (v : F64.float64),
    allDigits ds -> convertFloat ds = Some v ->
    forallb isASCII (c :: rest) = true ->
    charIn c (lit "0123456789_.eEpPxX") = false -> isSpace c = false ->
    parseMem convertFloat (ds ++ c :: rest)
    = let unit := wordToken (c :: rest) in
      if strEq unit "G" || strEq unit "g" then Ok (F64.mul v F64.c1024)
      else if strEq unit "M" || strEq unit "m" then Ok v
      else Err (InvalidUnit unit).
Proof.
  intros ds c rest v Hds Hv _ Hend Hsp.
  unfold parseMem.
  rewrite (Sscanf_number_unit ds c rest v Hds Hv Hend Hsp).
  destruct Hds as [Hne _].
  destruct (ds ++ c :: rest) eqn:E;
    [apply app_eq_nil in E; destruct E; congruence |].
  cbn [scan_err scan_n scan_unit scan_value Nat.ltb Nat.leb]. cbv zeta.
  assert (H0 : strEq (wordToken (c :: rest)) EmptyString = false).
  { cbn [wordToken]. rewrite Hsp. reflexivity. }
  rewrite H0, orb_false_r. reflexivity.
Qed.

(** X17. [parseMem] never takes the arm of its [switch] for the empty
    unit: a string made of digits only is refused as an invalid memory
    format, whatever the digits, and every success has read one of the
    units G, g, M and m. *)
Theorem parseMem_requires_unit :
  forall memStr : gostring,
    (allDigits memStr ->
     parseMem convertFloat memStr = Err InvalidMemoryFormat)
    /\ (forall v, parseMem convertFloat memStr = Ok v ->
                  let unit := scan_unit (Sscanf_f_s convertFloat memStr) in
                  unit = lit "G" \/ unit = lit "g"
                  \/ unit = lit "M" \/ unit = lit "m").
Proof.
  intros memStr. split.
  - intros [Hne Hd]. apply parseMem_bare_number; assumption.
  - apply parseMem_ok_unit.
Qed.

End ParseMemNumbers.

Lemma parseMem_number_with_unit_witness :
  parseMem (fun _ => Some (F64.of_int 6)) (lit "6" ++ "G"%char :: lit " x")
  = let unit := wordToken ("G"%char :: lit " x") in
    if strEq unit "G" || strEq unit "g"
    then Ok (F64.mul (F64.of_int 6) F64.c1024)
    else if strEq unit "M" || strEq unit "m" then Ok (F64.of_int 6)
    else Err (InvalidUnit unit).
Proof.
  apply (parseMem_number_with_unit (fun _ => Some (F64.of_int 6))).
  - split; [discriminate | reflexivity].
  - reflexivity.
  - reflexivity.
  - reflexivity.
  - reflexivity.
Defined.

Lemma parseMem_requires_unit_witness :
  parseMem (fun _ => Some (F64.of_int 6144)) (lit "6144")
  = Err InvalidMemoryFormat.
Proof.
  apply (proj1 (parseMem_requires_unit (fun _ => Some (F64.of_int 6144))
                  (lit "6144"))).
  split; [discriminate | reflexivity].
Defined.

(* ------------------------------------------------------------------ *)
(** ** Division: the quotient of two floats, rounded *)

Lemma Zdigits2_unique (m d : Z) :
  0 < m -> 2 ^ (d - 1) <= m < 2 ^ d -> Zdigits2 m = d.
Proof.
  intros Hm H. destruct m as [| p | p]; try lia.
  rewrite Zdigits2_pos. apply digits_unique, H.
Qed.

(** [shr_fexp] on a mantissa of 53 or 54 digits: one digit is dropped from
    the longer one. *)
Lemma shr_fexp_window (m e : Z) (l : location) :
  2 ^ 52 <= m < 2 ^ 54 -> -1074 <= e ->
  shr_fexp F64.prec F64.emax m e l
  = shr (shr_record_of_loc m l) e (if m <? 2 ^ 53 then 0 else 1).
Proof.
  intros Hm He. unfold shr_fexp. f_equal.
  destruct (Z.ltb_spec m (2 ^ 53)) as [Hlt | Hge].
  - rewrite (Zdigits2_unique m 53) by lia.
    rewrite fexp_normal_range by lia. lia.
  - rewrite (Zdigits2_unique m 54) by lia.
    rewrite fexp_normal_range by lia. lia.
Qed.

Lemma shr_fexp_window_top (e : Z) (l : location) :
  -1074 <= e ->
  shr_fexp F64.prec F64.emax (2 ^ 53) e l
  = shr (shr_record_of_loc (2 ^ 53) l) e 1.
Proof.
  intros He. rewrite shr_fexp_window by lia. reflexivity.
Qed.

(** Rounding a mantissa [m] of 53 or 54 digits, with what follows it
    recorded in [l]: the result has a full mantissa, and its value is that
    of [m] cut to 53 digits, or one unit in the last place above; it is the
    former when nothing is cut and nothing follows. *)
Lemma round_aux_window (m e : Z) (l : location) :
  2 ^ 52 <= m < 2 ^ 54 -> -1074 <= e <= 960 ->
  exists (K : positive) (d : Z),
    binary_round_aux F64.prec F64.emax false m e l
    = S754_finite false K (e + (if m <? 2 ^ 53 then 0 else 1) + d)
    /\ 2 ^ 52 <= Z.pos K < 2 ^ 53
    /\ 0 <= d <= 1
    /\ (Z.pos K * 2 ^ d = m / 2 ^ (if m <? 2 ^ 53 then 0 else 1)
        \/ Z.pos K * 2 ^ d = m / 2 ^ (if m <? 2 ^ 53 then 0 else 1) + 1)
    /\ (l = loc_Exact -> m mod 2 ^ (if m <? 2 ^ 53 then 0 else 1) = 0 ->
        Z.pos K * 2 ^ d = m / 2 ^ (if m <? 2 ^ 53 then 0 else 1)).
Proof.
  intros Hm He.
  set (n := if m <? 2 ^ 53 then 0 else 1).
  assert (Hn : 0 <= n <= 1) by (unfold n; destruct (m <? 2 ^ 53); lia).
  set (q := m / 2 ^ n).
  assert (Hq : 2 ^ 52 <= q < 2 ^ 53).
  { unfold q, n. destruct (Z.ltb_spec m (2 ^ 53)).
    - rewrite Z.pow_0_r, Z.div_1_r. lia.
    - change (2 ^ 1) with 2. Z.to_euclidean_division_equations. lia. }
  unfold binary_round_aux.
  rewrite shr_fexp_window by lia. fold n.
  destruct (shr_m_shr (shr_record_of_loc m l) e n) as [Em Ee];
    [rewrite shr_record_of_loc_m; lia |].
  rewrite shr_record_of_loc_m in Em.
  replace (Z.max 0 n) with n in Em, Ee by lia. fold q in Em.
  assert (Hexact : l = loc_Exact -> m mod 2 ^ n = 0 ->
                   loc_of_shr_record (fst (shr (shr_record_of_loc m l) e n))
                   = loc_Exact).
  { intros -> Hmod. cbn [shr_record_of_loc].
    replace m with (q * 2 ^ n) at 1.
    - rewrite shr_exact by lia. reflexivity.
    - unfold q. pose proof (Z.div_mod m (2 ^ n)) as Hdm.
      assert (0 < 2 ^ n) by (apply Z.pow_pos_nonneg; lia). lia. }
  destruct (shr (shr_record_of_loc m l) e n) as [mrs' e1].
  cbn [fst snd] in Em, Ee, Hexact. subst e1.
  pose proof (round_nearest_even_bound (shr_m mrs') (loc_of_shr_record mrs'))
    as Hr.
  assert (Hr0 : l = loc_Exact -> m mod 2 ^ n = 0 ->
                round_nearest_even (shr_m mrs') (loc_of_shr_record mrs') = q).
  { intros Hl Hmod. rewrite (Hexact Hl Hmod), Em. reflexivity. }
  set (m2 := round_nearest_even (shr_m mrs') (loc_of_shr_record mrs')) in *.
  rewrite Em in Hr. clearbody m2.
  destruct (Z.ltb_spec m2 (2 ^ 53)) as [Hlt | Hge].
  - (* no carry *)
    rewrite shr_fexp_window by lia.
    replace (m2 <? 2 ^ 53) with true by (symmetry; apply Z.ltb_lt; lia).
    cbn [shr shr_record_of_loc shr_m].
    destruct m2 as [| K | K]; try lia.
    exists K, 0.
    replace (e + n <=? F64.emax - F64.prec) with true
      by (symmetry; apply Z.leb_le; unfold F64.emax, F64.prec; lia).
    rewrite Z.add_0_r, Z.pow_0_r, Z.mul_1_r.
    split; [reflexivity |]. split; [lia |]. split; [lia |].
    split; [lia | exact Hr0].
  - (* the rounding carried into a 54th digit *)
    assert (Em2 : m2 = 2 ^ 53) by lia. subst m2.
    rewrite shr_fexp_window_top by lia.
    exists (4503599627370496%positive), 1.
    split; [| split; [lia | split; [lia | split]]].
    + cbn [shr_record_of_loc]. 
      change (2 ^ 53) with (2 ^ 52 * 2 ^ 1). rewrite shr_exact by lia.
      cbn [shr_m]. change (2 ^ 52) with (Z.pos 4503599627370496).
      cbv iota beta.
      replace (e + n + 1 <=? F64.emax - F64.prec) with true
        by (symmetry; apply Z.leb_le; unfold F64.emax, F64.prec; lia).
      reflexivity.
    + change (Z.pos 4503599627370496 * 2 ^ 1) with (2 ^ 53). lia.
    + intros Hl Hmod. specialize (Hr0 Hl Hmod).
      change (Z.pos 4503599627370496 * 2 ^ 1) with (2 ^ 53). lia.
Qed.

Lemma new_location_zero (nb : Z) : new_location nb 0 = loc_Exact.
Proof.
  unfold new_location, new_location_even, new_location_odd.
  destruct (Z.even nb); reflexivity.
Qed.

(** The quotient of two positive floats with full mantissas, before
    rounding: the integer quotient of the mantissas with 53 more digits. *)
Lemma f64div_finite (ma : positive) (ea : Z) (mb : positive) (eb : Z) :
  F64.digits ma = 53 -> F64.digits mb = 53 -> -1021 <= ea - eb ->
  f64div (S754_finite false ma ea) (S754_finite false mb eb)
  = binary_round_aux F64.prec F64.emax false
      (Z.pos ma * 2 ^ 53 / Z.pos mb) (ea - eb - 53)
      (new_location (Z.pos mb) ((Z.pos ma * 2 ^ 53) mod Z.pos mb)).
Proof.
  intros Ha Hb He. unfold f64div, SFdiv, SFdiv_core_binary.
  rewrite !Zdigits2_pos, Ha, Hb.
  replace (53 + ea - (53 + eb)) with (ea - eb) by lia.
  rewrite fexp_normal_range by lia.
  replace (Z.min (ea - eb - 53) (ea - eb)) with (ea - eb - 53) by lia.
  replace (ea - eb - (ea - eb - 53)) with 53 by lia.
  rewrite Z.shiftl_mul_pow2 by lia.
  unfold Z.div, Z.modulo.
  destruct (Z.div_eucl (Z.pos ma * 2 ^ 53) (Z.pos mb)) as [q r].
  reflexivity.
Qed.

(** The rounded quotient: a full mantissa [K] whose value, in units of
    [2 ^ (ea - eb - 53 + n)], is the integer quotient cut to 53 digits or
    the next integer; the former when the division leaves nothing. *)
Lemma f64div_window (ma : positive) (ea : Z) (mb : positive) (eb : Z) :
  F64.digits ma = 53 -> F64.digits mb = 53 -> -1021 <= ea - eb <= 1000 ->
  let m := Z.pos ma * 2 ^ 53 / Z.pos mb in
  let n := if m <? 2 ^ 53 then 0 else 1 in
  exists (K : positive) (d : Z),
    f64div (S754_finite false ma ea) (S754_finite false mb eb)
    = S754_finite false K (ea - eb - 53 + n + d)
    /\ 2 ^ 52 <= Z.pos K < 2 ^ 53
    /\ 0 <= d <= 1
    /\ (Z.pos K * 2 ^ d = m / 2 ^ n \/ Z.pos K * 2 ^ d = m / 2 ^ n + 1)
    /\ ((Z.pos ma * 2 ^ 53) mod Z.pos mb = 0 -> m mod 2 ^ n = 0 ->
        Z.pos K * 2 ^ d = m / 2 ^ n).
Proof.
  intros Ha Hb He m n.
  pose proof (digits_bounds ma) as Ba. rewrite Ha in Ba.
  pose proof (digits_bounds mb) as Bb. rewrite Hb in Bb.
  change (2 ^ (53 - 1)) with (2 ^ 52) in Ba, Bb.
  assert (Hm : 2 ^ 52 <= m < 2 ^ 54).
  { unfold m. split.
    - apply Z.div_le_lower_bound; [lia |].
      change (2 ^ 53) with (2 * 2 ^ 52) in *. nia.
    - apply Z.div_lt_upper_bound; [lia |].
      change (2 ^ 54) with (2 * 2 ^ 53) in *. nia. }
  rewrite f64div_finite by lia. fold m.
  destruct (round_aux_window m (ea - eb - 53)
              (new_location (Z.pos mb) ((Z.pos ma * 2 ^ 53) mod Z.pos mb))
              Hm ltac:(lia)) as [K [d [E [HK [Hd [Hv Hex]]]]]].
  fold n in E, Hv, Hex.
  exists K, d. split; [exact E |]. split; [exact HK |].
  split; [exact Hd |]. split; [exact Hv |].
  intros Hr Hmod. apply Hex; [| exact Hmod].
  rewrite Hr. apply new_location_zero.
Qed.

(** Division by 1024 is exact. *)
Lemma f64div_1024 (ma : positive) (ea : Z) :
  F64.digits ma = 53 -> -1000 <= ea <= 900 ->
  f64div (S754_finite false ma ea) F64.c1024 = S754_finite false ma (ea - 10).
Proof.
  intros Ha He.
  pose proof (digits_bounds ma) as Ba. rewrite Ha in Ba.
  change (2 ^ (53 - 1)) with (2 ^ 52) in Ba.
  unfold F64.c1024.
  destruct (f64div_window ma ea 4503599627370496 (-42) Ha eq_refl ltac:(lia))
    as [K [d [E [HK [Hd [_ Hex]]]]]].
  assert (Hq : Z.pos ma * 2 ^ 53 / Z.pos 4503599627370496 = 2 * Z.pos ma).
  { change (Z.pos 4503599627370496) with (2 ^ 52).
    change (2 ^ 53) with (2 * 2 ^ 52).
    rewrite Z.mul_assoc, Z.div_mul by lia. lia. }
  assert (Hr : (Z.pos ma * 2 ^ 53) mod Z.pos 4503599627370496 = 0).
  { change (Z.pos 4503599627370496) with (2 ^ 52).
    change (2 ^ 53) with (2 * 2 ^ 52).
    rewrite Z.mul_assoc. apply Z.mod_mul. lia. }
  rewrite Hq in E, Hex.
  replace (2 * Z.pos ma <? 2 ^ 53) with false in E, Hex
    by (symmetry; apply Z.ltb_ge; lia).
  change (2 ^ 1) with 2 in Hex.
  assert (Hmod : (2 * Z.pos ma) mod 2 = 0)
    by (rewrite Z.mul_comm; apply Z.mod_mul; lia).
  specialize (Hex Hr Hmod).
  replace (2 * Z.pos ma / 2) with (Z.pos ma) in Hex
    by (rewrite Z.mul_comm, Z.div_mul; lia).
  assert (d = 0).
  { destruct (Z.eq_dec d 0) as [-> | Hne]; [reflexivity |].
    replace d with 1 in Hex by lia. change (2 ^ 1) with 2 in Hex. lia. }
  subst d. rewrite Z.pow_0_r, Z.mul_1_r in Hex.
  injection Hex as ->. rewrite E. f_equal. lia.
Qed.

(** [float64(k) / 1.5 / 1024] for an integer [k] below [2^52]: a float
    [K * 2^E] that, in units of [1 / S] for a power of two [S], is the
    integer part of [k / 1536] in these units or the next integer. *)
Lemma f64div_1536 (k : positive) :
  Z.pos k < 2 ^ 52 ->
  exists (K : positive) (E d : Z),
    f64div (f64div (F64.of_int (Z.pos k)) c1_5) F64.c1024
    = S754_finite false K E
    /\ 2 ^ 52 <= Z.pos K < 2 ^ 53
    /\ E < 0
    /\ 0 <= d <= 1
    /\ 11 <= - E + d
    /\ (Z.pos K * 2 ^ d = Z.pos k * 2 ^ (- E + d) / 1536
        \/ Z.pos K * 2 ^ d = Z.pos k * 2 ^ (- E + d) / 1536 + 1)
    /\ ((Z.pos k * 2 ^ (- E + d)) mod 1536 = 0 ->
        Z.pos K * 2 ^ d = Z.pos k * 2 ^ (- E + d) / 1536).
Proof.
  intros Hk.
  assert (Hdk : F64.digits k <= 52) by (apply digits_le; lia).
  pose proof (digits_pos k) as Hdp.
  rewrite of_int_pos by lia. unfold F64.normal.
  set (ma := Z.to_pos (Z.pos k * 2 ^ (F64.prec - F64.digits k))).
  assert (Hma : Z.pos ma = Z.pos k * 2 ^ (53 - F64.digits k))
    by (apply pos_mul_pow2; lia).
  assert (Hda : F64.digits ma = 53) by (apply normal_mantissa_digits; lia).
  unfold c1_5.
  destruct (f64div_window ma (0 + F64.digits k - F64.prec)
              6755399441055744 (-52) Hda eq_refl
              ltac:(unfold F64.prec; lia))
    as [K [d [E [HK [Hd [Hv Hex]]]]]].
  cbv zeta in E, Hv, Hex.
  set (X := Z.pos ma * 4) in *.
  assert (Hm : Z.pos ma * 2 ^ 53 / Z.pos 6755399441055744 = X / 3).
  { unfold X. change (2 ^ 53) with (4 * 2 ^ 51).
    change (Z.pos 6755399441055744) with (3 * 2 ^ 51).
    rewrite Z.mul_assoc, Z.div_mul_cancel_r by lia. reflexivity. }
  assert (Hr : (Z.pos ma * 2 ^ 53) mod Z.pos 6755399441055744
               = (X mod 3) * 2 ^ 51).
  { unfold X. change (2 ^ 53) with (4 * 2 ^ 51).
    change (Z.pos 6755399441055744) with (3 * 2 ^ 51).
    rewrite Z.mul_assoc, Z.mul_mod_distr_r by lia. reflexivity. }
  rewrite Hm in E, Hv, Hex. rewrite Hr in Hex.
  set (n := if X / 3 <? 2 ^ 53 then 0 else 1) in *.
  assert (Hn : n = 0 \/ n = 1) by (unfold n; destruct (X / 3 <? 2 ^ 53); auto).
  rewrite E.
  rewrite f64div_1024
    by (try (apply digits_unique; change (2 ^ (53 - 1)) with (2 ^ 52); lia);
        unfold F64.prec; lia).
  set (Ex := 0 + F64.digits k - F64.prec - -52 - 53 + n + d - 10).
  assert (HEx : - Ex + d = 64 - F64.digits k - n) by (unfold Ex, F64.prec; lia).
  assert (HS : Z.pos k * 2 ^ (- Ex + d) = X * 2 ^ (9 - n)).
  { rewrite HEx. unfold X. rewrite Hma.
    replace (64 - F64.digits k - n) with ((53 - F64.digits k) + 2 + (9 - n))
      by lia.
    rewrite !Z.pow_add_r by lia. change (2 ^ 2) with 4. ring. }
  exists K, Ex, d.
  split; [reflexivity |]. split; [exact HK |].
  split; [unfold Ex, F64.prec; lia |]. split; [exact Hd |].
  split; [lia |].
  rewrite HS.
  destruct Hn as [Hn | Hn]; rewrite Hn in *.
  - change (2 ^ (9 - 0)) with 512. change (2 ^ 0) with 1 in *.
    rewrite Z.div_1_r in *.
    replace (X * 512 / 1536) with (X / 3)
      by (Z.to_euclidean_division_equations; lia).
    split; [exact Hv |].
    intros Hmod. apply Hex.
    + assert (X mod 3 = 0) by (Z.to_euclidean_division_equations; lia).
      lia.
    + apply Z.mod_1_r.
  - change (2 ^ (9 - 1)) with 256. change (2 ^ 1) with 2 in *.
    replace (X * 256 / 1536) with (X / 3 / 2)
      by (Z.to_euclidean_division_equations; lia).
    split; [exact Hv |].
    intros Hmod. apply Hex.
    + assert (X mod 3 = 0) by (Z.to_euclidean_division_equations; lia).
      lia.
    + Z.to_euclidean_division_equations; lia.
Qed.

(* ------------------------------------------------------------------ *)
(** ** [math.Ceil] and the conversion back to [int] *)

Lemma to_int_of_int (z : Z) :
  0 <= z < 2 ^ 53 -> F64.to_int (F64.of_int z) = z.
Proof.
  intros Hz. destruct z as [| k | k]; [reflexivity | | lia].
  assert (Hd : F64.digits k <= 53) by (apply digits_le; lia).
  rewrite of_int_pos by assumption.
  rewrite to_int_normal by (unfold GoInt.max_int; lia).
  rewrite Z.pow_0_r. lia.
Qed.

(** The ceiling of a positive float with a fractional part. *)
Lemma to_int_Ceil (K : positive) (E : Z) :
  Z.pos K < 2 ^ 53 -> E < 0 ->
  F64.to_int (Ceil (S754_finite false K E))
  = (Z.pos K + 2 ^ (- E) - 1) / 2 ^ (- E).
Proof.
  intros HK HE. unfold Ceil.
  replace (0 <=? E) with false by (symmetry; apply Z.leb_gt; lia).
  assert (HP : 2 <= 2 ^ (- E)).
  { change 2 with (2 ^ 1) at 1. apply Z.pow_le_mono_r; lia. }
  set (P := 2 ^ (- E)) in *.
  assert (Hd : 0 <= Z.pos K / P <= Z.pos K / 2).
  { split; [apply Z.div_pos; lia |].
    apply Z.div_le_compat_l; lia. }
  assert (Hd2 : Z.pos K / 2 < 2 ^ 52)
    by (apply Z.div_lt_upper_bound; [lia |]; change (2 ^ 53) with (2 * 2 ^ 52) in HK; lia).
  pose proof (Z.div_mod (Z.pos K) P ltac:(lia)) as Hdm.
  pose proof (Z.mod_pos_bound (Z.pos K) P ltac:(lia)) as Hmb.
  destruct (Z.eqb_spec (Z.pos K mod P) 0) as [H0 | H0].
  - rewrite to_int_of_int by lia.
    apply Z.div_unique with (P - 1); lia.
  - rewrite to_int_of_int by lia.
    apply Z.div_unique with (Z.pos K mod P - 1); lia.
Qed.

Lemma ceil_div_unique (a P N : Z) :
  0 < P -> (N - 1) * P < a <= N * P -> (a + P - 1) / P = N.
Proof.
  intros HP H. symmetry. apply Z.div_unique with (a + P - 1 - P * N); lia.
Qed.

(** The vCPU count of [suggestNextTier]: the ceiling of [ram / 1536]. *)
Lemma cpusNext_exact (k : positive) :
  Z.pos k < 2 ^ 52 ->
  F64.to_int
    (Ceil (f64div (f64div (F64.of_int (Z.pos k)) c1_5) F64.c1024))
  = (Z.pos k + 1535) / 1536.
Proof.
  intros Hk.
  destruct (f64div_1536 k Hk) as [K [E [d [Eq [HK [HE [Hd [HS [Hv Hex]]]]]]]]].
  rewrite Eq, to_int_Ceil by lia.
  set (N := (Z.pos k + 1535) / 1536).
  assert (HN : 1536 * (N - 1) < Z.pos k <= 1536 * N)
    by (unfold N; Z.to_euclidean_division_equations; lia).
  assert (HP : 0 < 2 ^ (- E)) by (apply Z.pow_pos_nonneg; lia).
  assert (H2d : 0 < 2 ^ d) by (apply Z.pow_pos_nonneg; lia).
  assert (HSP : 2 ^ (- E + d) = 2 ^ (- E) * 2 ^ d)
    by (apply Z.pow_add_r; lia).
  assert (HS11 : 2048 <= 2 ^ (- E + d)).
  { change 2048 with (2 ^ 11). apply Z.pow_le_mono_r; lia. }
  set (S := 2 ^ (- E + d)) in *. set (P := 2 ^ (- E)) in *.
  set (W := Z.pos K * 2 ^ d) in *.
  assert (HW : (N - 1) * S < W <= N * S).
  { pose proof (Z.div_mod (Z.pos k * S) 1536 ltac:(lia)) as Hdm.
    pose proof (Z.mod_pos_bound (Z.pos k * S) 1536 ltac:(lia)) as Hmb.
    set (q := Z.pos k * S / 1536) in *.
    assert (Hlo : (1536 * (N - 1) + 1) * S <= Z.pos k * S)
      by (apply Z.mul_le_mono_nonneg_r; lia).
    split; [nia |].
    destruct (Z.eq_dec (Z.pos k) (1536 * N)) as [Ek | Nk].
    - assert (Hmod : (Z.pos k * S) mod 1536 = 0).
      { rewrite Ek. replace (1536 * N * S) with (N * S * 1536) by ring.
        apply Z.mod_mul. lia. }
      rewrite (Hex Hmod). fold q. rewrite Hmod in Hdm.
      rewrite Ek in Hdm. nia.
    - assert (Hhi : Z.pos k * S <= (1536 * N - 1) * S)
        by (apply Z.mul_le_mono_nonneg_r; lia).
      destruct Hv as [-> | ->]; nia. }
  apply ceil_div_unique; [exact HP |].
  unfold W in HW. rewrite HSP in HW.
  split; nia.
Qed.

Lemma suggestNextTier_value (c ram : Z) :
  0 <= ram < 2 ^ 52 ->
  suggestNextTier c ram
  = ((ram + 1535) / 1536, Z.max 3840 (1536 * ((ram + 1535) / 1536))).
Proof.
  intros Hr. destruct ram as [| k | k]; [reflexivity | | lia].
  unfold suggestNextTier. rewrite cpusNext_exact by lia.
  set (N := (Z.pos k + 1535) / 1536).
  assert (HN : 1 <= N < 2 ^ 43)
    by (unfold N; Z.to_euclidean_division_equations; lia).
  destruct N as [| n | n] eqn:EN; try lia.
  assert (Hd : F64.digits n <= 53) by (apply digits_le; lia).
  rewrite of_int_pos by assumption.
  rewrite standard_ram_finish by lia.
  f_equal.
  destruct (Z.ltb_spec (1536 * Z.pos n) 3840); lia.
Qed.

(** X18. [suggestNextTier] on a memory of [0 <= ram < 2^52] MB: the vCPU
    count is [ram / 1536] rounded up, whatever count was passed, and the
    memory is 1536 MB for each of these vCPUs, at least 3840; the memory
    is never below the one given; and the suggested tier passes
    [validateTier] exactly when the count is 1 or an even number up to
    96. *)
Theorem suggestNextTier_exact :
  forall c ram : Z,
    0 <= ram < 2 ^ 52 ->
    let n := (ram + 1535) / 1536 in
    suggestNextTier c ram = (n, Z.max 3840 (1536 * n))
    /\ ram <= snd (suggestNextTier c ram)
    /\ (validateTier (fst (suggestNextTier c ram))
          (snd (suggestNextTier c ram)) = true
        <-> ValidCpu n).
Proof.
  intros c ram Hr n. rewrite suggestNextTier_value by assumption. fold n.
  cbn [fst snd]. split; [reflexivity |]. split.
  - unfold n. Z.to_euclidean_division_equations. lia.
  - apply standard_tier_valid.
Qed.

Lemma suggestNextTier_exact_witness :
  let n := (638976 + 1535) / 1536 in
  suggestNextTier 96 638976 = (n, Z.max 3840 (1536 * n))
  /\ 638976 <= snd (suggestNextTier 96 638976)
  /\ (validateTier (fst (suggestNextTier 96 638976))
        (snd (suggestNextTier 96 638976)) = true
      <-> ValidCpu n).
Proof. apply (suggestNextTier_exact 96 638976). lia. Defined.

Lemma tierBranch_not_found (c r : Z) :
  findNextKnownTier c r = (0, 0, false) ->
  tierBranch c r
  = (if (fst (suggestNextTier c r) =? c) && (snd (suggestNextTier c r) =? r)
     then AlreadyValid
     else NextValid (fst (suggestNextTier c r)) (snd (suggestNextTier c r))).
Proof.
  intros E. unfold tierBranch. rewrite E.
  destruct (suggestNextTier c r) as [cn rn]. reflexivity.
Qed.

(** X19. The [-t] branch on a tier the table does not reach (not below
    db-custom-96-638976), with [0 <= r < 2^52]: it prints that the tier is
    already valid exactly when [r = 1536 * c], and then [validateTier]
    rejects the tier; otherwise it prints as the next valid tier [n]
    vCPUs, [n] being [r / 1536] rounded up whatever [c] is, with
    [max 3840 (1536 * n)] MB: 1536 MB for each vCPU, but never less than
    3840. *)
Theorem tierBranch_beyond_table :
  forall c r : Z,
    ~ tupleLt (c, r) (96, 638976) -> 0 <= r < 2 ^ 52 ->
    let n := (r + 1535) / 1536 in
    (tierBranch c r = AlreadyValid <-> r = 1536 * c)
    /\ (tierBranch c r = AlreadyValid -> validateTier c r = false)
    /\ (r <> 1536 * c ->
        tierBranch c r = NextValid n (Z.max 3840 (1536 * n))).
Proof.
  intros c r Hnb Hr n.
  assert (Hc : 96 < c \/ (c = 96 /\ 638976 <= r)).
  { unfold tupleLt in Hnb. cbn [fst snd] in Hnb. lia. }
  destruct (findNextKnownTier_split c r) as [[Hlt _] | [_ E]];
    [contradiction |].
  rewrite (tierBranch_not_found c r E).
  rewrite suggestNextTier_value by assumption. fold n. cbn [fst snd].
  assert (Hn : 1536 * (n - 1) < r <= 1536 * n)
    by (unfold n; Z.to_euclidean_division_equations; lia).
  assert (Hiff : (n =? c) && (Z.max 3840 (1536 * n) =? r) = true
                 <-> r = 1536 * c).
  { rewrite andb_true_iff, !Z.eqb_eq. lia. }
  destruct ((n =? c) && (Z.max 3840 (1536 * n) =? r)) eqn:Eb.
  - assert (Er : r = 1536 * c) by (apply Hiff; reflexivity).
    split; [split; auto |]. split; [| intros; contradiction].
    intros _. destruct (validateTier c r) eqn:Ev; [| reflexivity].
    apply validateTier_rules in Ev. destruct Ev as [Hc' _ _ _ _ _]. lia.
  - assert (Er : r <> 1536 * c).
    { intros Er. apply Hiff in Er. discriminate Er. }
    split; [split; [discriminate | contradiction] |].
    split; [discriminate |]. intros _. reflexivity.
Qed.

Lemma tierBranch_beyond_table_witness :
  let n := (3840 + 1535) / 1536 in
  (tierBranch 128 3840 = AlreadyValid <-> 3840 = 1536 * 128)
  /\ (tierBranch 128 3840 = AlreadyValid -> validateTier 128 3840 = false)
  /\ (3840 <> 1536 * 128 ->
      tierBranch 128 3840 = NextValid n (Z.max 3840 (1536 * n))).
Proof.
  apply (tierBranch_beyond_table 128 3840).
  - unfold tupleLt. cbn [fst snd]. lia.
  - lia.
Defined.

(* ------------------------------------------------------------------ *)
(** ** [math.Round] and the [-mem] branch *)

Lemma Round_finite (K : positive) (E : Z) :
  E < 0 ->
  Round (S754_finite false K E)
  = let r := (2 * Z.pos K + 2 ^ (- E)) / (2 * 2 ^ (- E)) in
    if r =? 0 then S754_zero false else F64.of_int r.
Proof.
  intros HE. unfold Round.
  replace (0 <=? E) with false by (symmetry; apply Z.leb_gt; lia).
  assert (HP : 0 < 2 ^ (- E)) by (apply Z.pow_pos_nonneg; lia).
  set (P := 2 ^ (- E)) in *.
  pose proof (Z.div_mod (Z.pos K) P ltac:(lia)) as Hdm.
  pose proof (Z.mod_pos_bound (Z.pos K) P ltac:(lia)) as Hmb.
  cbv zeta.
  replace ((2 * Z.pos K + P) / (2 * P))
    with (if P <=? 2 * (Z.pos K mod P) then Z.pos K / P + 1 else Z.pos K / P).
  - reflexivity.
  - destruct (Z.leb_spec P (2 * (Z.pos K mod P))).
    + apply Z.div_unique with (2 * (Z.pos K mod P) - P); lia.
    + apply Z.div_unique with (2 * (Z.pos K mod P) + P); lia.
Qed.

Lemma ltb_normal_c1 (k : positive) :
  F64.digits k <= 53 -> F64.ltb (F64.normal k 0) c1 = false.
Proof.
  intros Hd. pose proof (digits_pos k) as Hp.
  unfold F64.ltb, SFltb, F64.normal, c1. cbn [SFcompare].
  unfold F64.prec.
  destruct (Z.compare_spec (0 + F64.digits k - 53) (-52)) as [He | He | He];
    [| lia | reflexivity].
  assert (H1 : F64.digits k = 1) by lia.
  pose proof (digits_bounds k) as Hb. rewrite H1 in Hb.
  change (2 ^ (1 - 1)) with 1 in Hb. change (2 ^ 1) with 2 in Hb.
  assert (k = 1%positive) by lia. subst k. reflexivity.
Qed.

Lemma round_div_unique (a P R : Z) :
  0 < P -> (2 * R - 1) * P <= 2 * a < (2 * R + 1) * P ->
  (2 * a + P) / (2 * P) = R.
Proof.
  intros HP H. symmetry.
  apply Z.div_unique with (2 * a + P - 2 * P * R); lia.
Qed.

(** The vCPU count of the [-mem] branch: [ram / 1536] rounded to the
    nearest integer, halves up, for a memory that is a multiple of 256. *)
Lemma cpusRounded_exact (k : positive) :
  Z.pos k < 2 ^ 52 -> Z.pos k mod 256 = 0 -> 768 <= Z.pos k ->
  Round (f64div (f64div (F64.of_int (Z.pos k)) c1_5) F64.c1024)
  = F64.of_int ((Z.pos k + 768) / 1536)
  /\ 1 <= (Z.pos k + 768) / 1536 < 2 ^ 43.
Proof.
  intros Hk H256 H768.
  destruct (f64div_1536 k Hk) as [K [E [d [Eq [HK [HE [Hd [HS [Hv Hex]]]]]]]]].
  rewrite Eq, Round_finite by lia. cbv zeta.
  set (R := (Z.pos k + 768) / 1536).
  assert (HR : 1536 * R - 768 <= Z.pos k <= 1536 * R + 512)
    by (unfold R; Z.to_euclidean_division_equations; lia).
  assert (HR1 : 1 <= R < 2 ^ 43)
    by (unfold R; Z.to_euclidean_division_equations; lia).
  split; [| exact HR1].
  assert (HP : 0 < 2 ^ (- E)) by (apply Z.pow_pos_nonneg; lia).
  assert (H2d : 0 < 2 ^ d) by (apply Z.pow_pos_nonneg; lia).
  assert (HSP : 2 ^ (- E + d) = 2 ^ (- E) * 2 ^ d)
    by (apply Z.pow_add_r; lia).
  assert (HS2 : 2 ^ (- E + d) = 2048 * 2 ^ (- E + d - 11)).
  { change 2048 with (2 ^ 11). rewrite <- Z.pow_add_r by lia.
    f_equal. lia. }
  assert (HS0 : 0 < 2 ^ (- E + d - 11)) by (apply Z.pow_pos_nonneg; lia).
  set (S := 2 ^ (- E + d)) in *. set (P := 2 ^ (- E)) in *.
  set (S0 := 2 ^ (- E + d - 11)) in *.
  set (W := Z.pos K * 2 ^ d) in *.
  assert (HW : (2 * R - 1) * S <= 2 * W < (2 * R + 1) * S).
  { pose proof (Z.div_mod (Z.pos k * S) 1536 ltac:(lia)) as Hdm.
    pose proof (Z.mod_pos_bound (Z.pos k * S) 1536 ltac:(lia)) as Hmb.
    set (q := Z.pos k * S / 1536) in *.
    assert (Hlo : (1536 * R - 768) * S <= Z.pos k * S)
      by (apply Z.mul_le_mono_nonneg_r; lia).
    assert (Hhi : Z.pos k * S <= (1536 * R + 512) * S)
      by (apply Z.mul_le_mono_nonneg_r; lia).
    assert (HqW : q <= W <= q + 1) by (destruct Hv; lia).
    split.
    - (* 1536 * q > k * S - 1536 >= (1536 R - 768) S - 1536 *)
      assert (2 * q >= (2 * R - 1) * S - 1) by nia.
      assert (Heven : (2 * R - 1) * S = 2 * ((2 * R - 1) * 1024 * S0))
        by (rewrite HS2; ring).
      lia.
    - nia. }
  assert (Er : (2 * Z.pos K + P) / (2 * P) = R).
  { apply round_div_unique; [exact HP |].
    unfold W in HW. rewrite HSP in HW. split; nia. }
  rewrite Er.
  replace (R =? 0) with false by (symmetry; apply Z.eqb_neq; lia).
  reflexivity.
Qed.

(** The memory of the [-mem] branch, back in [float64]: rounded up to a
    multiple of 256 and floored at 3840. *)
Lemma memMB_rounded (m : Z) :
  0 <= m -> m + 255 < 2 ^ 52 ->
  (if F64.ltb (F64.of_int (roundUp256 (F64.to_int (F64.of_int m)))) F64.c3840
   then F64.c3840
   else F64.of_int (roundUp256 (F64.to_int (F64.of_int m))))
  = F64.of_int (Z.max 3840 (256 * ((m + 255) / 256))).
Proof.
  intros Hm Hb. rewrite to_int_of_int by lia.
  rewrite roundUp256_nonneg by (unfold GoInt.max_int; lia).
  set (M := 256 * ((m + 255) / 256)).
  assert (HM : 0 <= M < 2 ^ 52)
    by (unfold M; Z.to_euclidean_division_equations; lia).
  destruct M as [| p | p] eqn:EM; [reflexivity | | lia].
  assert (Hd : F64.digits p <= 53) by (apply digits_le; lia).
  rewrite of_int_pos by assumption.
  rewrite ltb_normal_3840 by lia. rewrite Z.pow_0_r, Z.mul_1_r.
  destruct (Z.ltb_spec (Z.pos p) 3840) as [Hlt | Hge].
  - replace (Z.max 3840 (Z.pos p)) with 3840 by lia. reflexivity.
  - replace (Z.max 3840 (Z.pos p)) with (Z.pos p) by lia.
    rewrite of_int_pos by assumption. reflexivity.
Qed.

Lemma memBranch_of_int (m : Z) :
  0 <= m -> m + 255 < 2 ^ 52 ->
  let ram := Z.max 3840 (256 * ((m + 255) / 256)) in
  let cpus := (ram + 768) / 1536 in
  memBranch (F64.of_int m) = (cpus, ram, negb (validateTier cpus ram)).
Proof.
  intros Hm Hb ram cpus. unfold memBranch.
  rewrite memMB_rounded by assumption. fold ram.
  assert (Hram : 3840 <= ram < 2 ^ 52 /\ ram mod 256 = 0).
  { unfold ram. split; [Z.to_euclidean_division_equations; lia |].
    destruct (Z.max_spec 3840 (256 * ((m + 255) / 256))) as [[_ ->] | [_ ->]];
      [rewrite Z.mul_comm; apply Z.mod_mul; lia | reflexivity]. }
  destruct Hram as [Hr H256].
  destruct ram as [| k | k] eqn:Eram; try lia.
  destruct (cpusRounded_exact k ltac:(lia) H256 ltac:(lia)) as [ER HR].
  rewrite ER. fold cpus in HR |- *.
  destruct cpus as [| n | n] eqn:Ecpus; try lia.
  assert (Hd : F64.digits n <= 53) by (apply digits_le; lia).
  rewrite (of_int_pos n) by assumption.
  rewrite ltb_normal_c1 by assumption.
  rewrite <- (of_int_pos n) by assumption.
  rewrite !to_int_of_int by lia. reflexivity.
Qed.

Lemma rounded_tier_valid (ram : Z) :
  3840 <= ram -> ram mod 256 = 0 ->
  3 <= (ram + 768) / 1536
  /\ (validateTier ((ram + 768) / 1536) ram = true
      <-> ValidCpu ((ram + 768) / 1536)).
Proof.
  intros Hr H256.
  set (cpus := (ram + 768) / 1536).
  assert (HR : 1536 * cpus - 768 <= ram <= 1536 * cpus + 512)
    by (unfold cpus; Z.to_euclidean_division_equations; lia).
  split; [lia |].
  rewrite validateTier_rules. split.
  - intros [Hc Hp _ _ _ _]. split; assumption.
  - intros [Hc Hp]. constructor; try assumption.
    + rewrite lowerBound_eq by lia. Z.to_euclidean_division_equations. lia.
    + rewrite upperBound_eq. lia.
Qed.

(** X20. The [-mem] branch on a whole number [m] of megabytes,
    [0 <= m] and [m + 255 < 2^52]: the memory of the recommended tier is
    [m] rounded up to a multiple of 256, at least 3840; its vCPU count is
    that memory divided by 1536 and rounded to the nearest integer, halves
    up, and is never below 3; the warning is printed exactly when this
    count is odd or above 96, the only way the recommended tier can fail
    [validateTier].  The same holds for [g] gigabytes with [m = 1024 * g]. *)
Theorem memBranch_recommends :
  forall m : Z,
    0 <= m -> m + 255 < 2 ^ 52 ->
    let ram := Z.max 3840 (256 * ((m + 255) / 256)) in
    let cpus := (ram + 768) / 1536 in
    memBranch (F64.of_int m) = (cpus, ram, negb (validateTier cpus ram))
    /\ 3 <= cpus
    /\ (validateTier cpus ram = true <-> ValidCpu cpus)
    /\ (forall g, 0 <= g -> m = 1024 * g ->
                  F64.mul (F64.of_int g) F64.c1024 = F64.of_int m).
Proof.
  intros m Hm Hb ram cpus.
  split; [apply memBranch_of_int; assumption |].
  assert (Hram : 3840 <= ram /\ ram mod 256 = 0).
  { unfold ram. split; [lia |].
    destruct (Z.max_spec 3840 (256 * ((m + 255) / 256))) as [[_ ->] | [_ ->]];
      [rewrite Z.mul_comm; apply Z.mod_mul; lia | reflexivity]. }
  destruct (rounded_tier_valid ram (proj1 Hram) (proj2 Hram)) as [H3 Hv].
  split; [exact H3 |]. split; [exact Hv |].
  intros g Hg ->. destruct g as [| k | k]; [reflexivity | | lia].
  assert (Hd : F64.digits k <= 43) by (apply digits_le; lia).
  pose proof (digits_pos k) as Hdp.
  rewrite of_int_pos by lia.
  change F64.c1024 with (F64.normal 1 10).
  rewrite mul_normal by (rewrite Pos.mul_1_r; lia).
  rewrite Pos.mul_1_r. change (0 + 10) with 10.
  rewrite <- of_int_normal by lia.
  f_equal. change (2 ^ 10) with 1024. lia.
Qed.

Lemma memBranch_recommends_witness :
  let ram := Z.max 3840 (256 * ((6144 + 255) / 256)) in
  let cpus := (ram + 768) / 1536 in
  memBranch (F64.of_int 6144) = (cpus, ram, negb (validateTier cpus ram))
  /\ 3 <= cpus
  /\ (validateTier cpus ram = true <-> ValidCpu cpus)
  /\ (forall g, 0 <= g -> 6144 = 1024 * g ->
                F64.mul (F64.of_int g) F64.c1024 = F64.of_int 6144).
Proof. apply (memBranch_recommends 6144); lia. Defined.
